(** * gdrivekit: export engine and batch orchestrator

    A shallow embedding of the conversion and annotation engine
    ([gdrivekit/export]) and of the batch orchestrator
    ([gdrivekit/clients/drive.py]), with the properties the specification
    states about them.

    Conventions of the embedding.
    - A Python [str] and a Python [bytes] are both a [string]: a text is
      represented by its UTF-8 bytes, so that the order of [str] (by code
      point) is the order of the bytes, and writing a text file is the
      identity on the representation.
    - A call that may raise returns a [result]; [except Exception] is a
      match on it.
    - Remote services (Drive, Slides, HTTP) are section variables: the
      theorems hold for every behaviour of the collaborators.
    - Function-local [import] statements are taken to resolve. *)

From Stdlib Require Import String Ascii List ZArith Lia DecimalString DecimalNat.
From stdpp Require Import base option list gmap strings sorting.

Set Warnings "-register-all,-clear-no-such-hyp".

Open Scope string_scope.
Open Scope list_scope.

(** ** Python primitives *)

Module Py.

(** The exception classes the modelled code raises or catches. *)
Inductive exn : Type :=
| FileNotFoundError
| OSError
| IOError (msg : string)
| ValueError (msg : string)
| KeyError
| AttributeError
| TypeError
| TransportError.

Inductive result (A : Type) : Type :=
| Ok (a : A)
| Raise (e : exn).
Arguments Ok {A} a.
Arguments Raise {A} e.

Definition rbind {A B : Type} (r : result A) (k : A → result B) : result B :=
  match r with
  | Ok a => k a
  | Raise e => Raise e
  end.

Notation "'try!' x ':=' r 'in' k" := (rbind r (fun x => k))
  (at level 10, x name, r at level 100, k at level 200).

(** [str(e)] for an exception. *)
Definition exn_str (e : exn) : string :=
  match e with
  | FileNotFoundError => "FileNotFoundError"
  | OSError => "OSError"
  | IOError m => m
  | ValueError m => m
  | KeyError => "KeyError"
  | AttributeError => "AttributeError"
  | TypeError => "TypeError"
  | TransportError => "TransportError"
  end.

(** [str(n)] for a natural number. *)
Definition str_of_nat (n : nat) : string :=
  NilEmpty.string_of_uint (Nat.to_uint n).

(** [str(z)] for an integer. *)
Definition str_of_Z (z : Z) : string :=
  NilEmpty.string_of_int (Z.to_int z).

Fixpoint repeat_char (c : ascii) (n : nat) : string :=
  match n with
  | O => ""
  | S k => String c (repeat_char c k)
  end.

(** The format [{n:03d}]. *)
Definition fmt_03d (n : nat) : string :=
  let s := str_of_nat n in
  repeat_char "0" (3 - String.length s) +:+ s.

(** [s[n:]] *)
Fixpoint str_drop (n : nat) (s : string) : string :=
  match n, s with
  | O, _ => s
  | S k, String _ rest => str_drop k rest
  | S _, EmptyString => EmptyString
  end.

(** [s[:n]] *)
Fixpoint str_take (n : nat) (s : string) : string :=
  match n, s with
  | S k, String c rest => String c (str_take k rest)
  | _, _ => EmptyString
  end.

(** [s.startswith(p)] *)
Definition startswith (p s : string) : bool := String.prefix p s.

(** [p in s] for strings. *)
Fixpoint str_in (p s : string) : bool :=
  if startswith p s then true
  else match s with
       | EmptyString => false
       | String _ rest => str_in p rest
       end.

(** [re.sub('(' + re.escape(pat) + ')', '\\1' + ins, s, count=1)]: the
    leftmost occurrence of the literal [pat] is followed by [ins]; a text
    without occurrence is returned as it is. *)
Fixpoint re_sub_once (pat ins s : string) : string :=
  if startswith pat s then pat +:+ ins +:+ str_drop (String.length pat) s
  else match s with
       | EmptyString => EmptyString
       | String c rest => String c (re_sub_once pat ins rest)
       end.

(** ['\n'.join(lines)] *)
Definition newline : string := String (ascii_of_nat 10) EmptyString.

Fixpoint join (sep : string) (l : list string) : string :=
  match l with
  | [] => ""
  | [x] => x
  | x :: rest => x +:+ sep +:+ join sep rest
  end.

(** [''.join(parts)] *)
Definition concat_str (l : list string) : string :=
  fold_right String.append "" l.

(** [str.isspace] on the UTF-8 representation: the white space characters
    of Unicode, by their encodings. *)
Definition byte (n : nat) : ascii := ascii_of_nat n.

Definition ascii_space (c : ascii) : bool :=
  let n := nat_of_ascii c in
  ((9 <=? n)%nat && (n <=? 13)%nat) || ((28 <=? n)%nat && (n <=? 32)%nat).

Definition wide_spaces : list string :=
  [ String (byte 194) (String (byte 133) "");
    String (byte 194) (String (byte 160) "");
    String (byte 225) (String (byte 154) (String (byte 128) ""));
    String (byte 226) (String (byte 128) (String (byte 128) ""));
    String (byte 226) (String (byte 128) (String (byte 129) ""));
    String (byte 226) (String (byte 128) (String (byte 130) ""));
    String (byte 226) (String (byte 128) (String (byte 131) ""));
    String (byte 226) (String (byte 128) (String (byte 132) ""));
    String (byte 226) (String (byte 128) (String (byte 133) ""));
    String (byte 226) (String (byte 128) (String (byte 134) ""));
    String (byte 226) (String (byte 128) (String (byte 135) ""));
    String (byte 226) (String (byte 128) (String (byte 136) ""));
    String (byte 226) (String (byte 128) (String (byte 137) ""));
    String (byte 226) (String (byte 128) (String (byte 138) ""));
    String (byte 226) (String (byte 128) (String (byte 168) ""));
    String (byte 226) (String (byte 128) (String (byte 169) ""));
    String (byte 226) (String (byte 128) (String (byte 175) ""));
    String (byte 226) (String (byte 129) (String (byte 159) ""));
    String (byte 227) (String (byte 128) (String (byte 128) "")) ].

(** The length of the white space character [s] starts with, if any. *)
Definition leading_space (s : string) : option nat :=
  match s with
  | EmptyString => None
  | String c _ =>
      if ascii_space c then Some 1
      else match List.find (fun w => startswith w s) wide_spaces with
           | Some w => Some (String.length w)
           | None => None
           end
  end.

Fixpoint lstrip_fuel (fuel : nat) (s : string) : string :=
  match fuel with
  | O => s
  | S k => match leading_space s with
           | Some n => lstrip_fuel k (str_drop n s)
           | None => s
           end
  end.

(** [s.lstrip()] *)
Definition lstrip (s : string) : string := lstrip_fuel (String.length s) s.

Definition str_rev (s : string) : string :=
  string_of_list_ascii (List.rev (list_ascii_of_string s)).

(** The length of the white space character [s] ends with, if any. *)
Definition trailing_space (s : string) : option nat :=
  match str_rev s with
  | EmptyString => None
  | String c _ =>
      if ascii_space c then Some 1
      else match List.find (fun w => startswith (str_rev w) (str_rev s)) wide_spaces with
           | Some w => Some (String.length w)
           | None => None
           end
  end.

Fixpoint rstrip_fuel (fuel : nat) (s : string) : string :=
  match fuel with
  | O => s
  | S k => match trailing_space s with
           | Some n => rstrip_fuel k (str_take (String.length s - n) s)
           | None => s
           end
  end.

(** [s.rstrip()] *)
Definition rstrip (s : string) : string := rstrip_fuel (String.length s) s.

(** [s.strip()] *)
Definition strip (s : string) : string := rstrip (lstrip s).

(** [s.split(';')[0]] *)
Fixpoint before_char (c : ascii) (s : string) : string :=
  match s with
  | EmptyString => EmptyString
  | String d rest => if Ascii.eqb c d then EmptyString else String d (before_char c rest)
  end.

(** [len(s)]: the number of code points, the bytes that do not continue
    an encoding. *)
Fixpoint py_len (s : string) : nat :=
  match s with
  | EmptyString => 0
  | String c rest =>
      if (nat_of_ascii c / 64 =? 2)%nat then py_len rest else S (py_len rest)
  end.

(** [s.replace(c, t)] for a character [c]. *)
Fixpoint replace_char (c : ascii) (t : string) (s : string) : string :=
  match s with
  | EmptyString => EmptyString
  | String d rest =>
      if Ascii.eqb c d then t +:+ replace_char c t rest
      else String d (replace_char c t rest)
  end.

(** [s.lower()] on ASCII letters. *)
Definition lower_char (c : ascii) : ascii :=
  let n := nat_of_ascii c in
  if (65 <=? n)%nat && (n <=? 90)%nat then ascii_of_nat (n + 32) else c.

Fixpoint lower (s : string) : string :=
  match s with
  | EmptyString => EmptyString
  | String c rest => String (lower_char c) (lower rest)
  end.

End Py.
Import Py.

(** ** JSON values

    The values [json.load] returns and [json.dump] accepts: an object is the
    list of its members, in order. *)

Module Json.

Inductive jvalue : Type :=
| JNull
| JBool (b : bool)
| JNum (z : Z)
| JStr (s : string)
| JArr (items : list jvalue)
| JObj (members : list (string * jvalue)).

(** Truth value of a Python object: [None], [False], [0], [''], [[]] and
    [{}] are false. *)
Definition truthy (v : jvalue) : bool :=
  match v with
  | JNull => false
  | JBool b => b
  | JNum z => negb (z =? 0)%Z
  | JStr s => negb (String.eqb s "")
  | JArr items => match items with [] => false | _ => true end
  | JObj members => match members with [] => false | _ => true end
  end.

(** [d.get(key)] on the members of an object. *)
Fixpoint members_get (key : string) (members : list (string * jvalue)) : option jvalue :=
  match members with
  | [] => None
  | (k, v) :: rest => if String.eqb k key then Some v else members_get key rest
  end.

End Json.
Import Json.

(** ** gdrivekit/item.py and gdrivekit/export/models.py *)

Module Models.

(** Modelled from the spec: [gdrivekit/item.py] is not among the sources.
    The kinds of item are the members the clients name ([ItemType.DIRECTORY],
    [DOCS_DOCUMENT], [DOCS_SLIDES], [DOCS_SHEETS], [RAW_FILE]) and one more
    for every other kind; the data model of the specification lists them as
    folder, flowing-text, slide-deck, tabular and opaque-file. *)
Inductive ItemType : Type :=
| DIRECTORY
| DOCS_DOCUMENT
| DOCS_SLIDES
| DOCS_SHEETS
| RAW_FILE
| UNKNOWN.

#[export] Instance ItemType_eq_dec : EqDecision ItemType.
Proof. solve_decision. Defined.

(** Modelled from the spec: the [value] of a member of [ItemType]; the
    strings are those of the member names, only [directory] is fixed by the
    folder record the batch export writes. *)
Definition ItemType_value (t : ItemType) : string :=
  match t with
  | DIRECTORY => "directory"
  | DOCS_DOCUMENT => "docs_document"
  | DOCS_SLIDES => "docs_slides"
  | DOCS_SHEETS => "docs_sheets"
  | RAW_FILE => "raw_file"
  | UNKNOWN => "unknown"
  end.

(** Modelled from the spec: [ItemType(value)], the member with that value;
    a [ValueError] when there is none. *)
Definition ItemType_of_value (s : string) : result ItemType :=
  match List.find (fun t => String.eqb (ItemType_value t) s)
          [DIRECTORY; DOCS_DOCUMENT; DOCS_SLIDES; DOCS_SHEETS; RAW_FILE; UNKNOWN] with
  | Some t => Ok t
  | None => Raise (ValueError "not a valid ItemType")
  end.

(** Modelled from the spec: the fields of [DriveItem] the batch orchestrator
    reads (the result of [getItem]: id, name, kind, timestamps). *)
Record DriveItem : Type := {
  id : string;
  name : string;
  type : ItemType;
  created_time : string;
  modified_time : string;
  export_links : list (string * string)
}.

Record ExportedAsset : Type := {
  asset_name : string;
  asset_content : string;
  asset_anchor : string;
  asset_mime_type : string
}.

(** [content: str | bytes] *)
Inductive content_data : Type :=
| StrContent (s : string)
| BytesContent (b : string).

Record ExportedItem : Type := {
  item_id : string;
  item_type : ItemType;
  title : string;
  item_created_time : string;
  item_modified_time : string;
  content : content_data;
  content_format : string;
  assets : list ExportedAsset;
  comments : jvalue
}.

Definition is_pdf (e : ExportedItem) : bool := String.eqb (content_format e) "pdf".

Definition is_markdown (e : ExportedItem) : bool := String.eqb (content_format e) "markdown".

(** An entry of a result list of the batch export: the dictionaries with
    the keys [item_id], [name] and, by outcome, [type] and [path], [error]
    or [reason]. *)
Inductive status : Type := success | failure | skipped.

Record entry : Type := {
  entry_status : option status;
  entry_item_id : string;
  entry_name : string;
  entry_detail : string
}.

Record BatchExportResult : Type := {
  total_processed : nat;
  successes : list entry;
  failures : list entry;
  skipped_items : list entry
}.

(** A formatted comment, as [GDriveClient.get_comments] builds it. *)
Record reply : Type := {
  reply_id : string;
  reply_author : string;
  reply_content : string;
  reply_createdTime : string;
  reply_modifiedTime : string
}.

(** The [anchor] of a comment: the text the service sent, or an object. *)
Inductive anchor_value : Type :=
| AnchorStr (s : string)
| AnchorObj (v : jvalue).

Record comment : Type := {
  comment_id : string;
  author : string;
  comment_content : string;
  snippet : string;
  createdTime : string;
  modifiedTime : string;
  resolved : bool;
  anchor : anchor_value;
  replies : list reply
}.

(** The comment as the dictionary of the Python code. *)
Definition reply_dict (r : reply) : jvalue :=
  JObj [("id", JStr (reply_id r));
        ("author", JStr (reply_author r));
        ("content", JStr (reply_content r));
        ("createdTime", JStr (reply_createdTime r));
        ("modifiedTime", JStr (reply_modifiedTime r))].

Definition anchor_dict (a : anchor_value) : jvalue :=
  match a with
  | AnchorStr s => JStr s
  | AnchorObj v => v
  end.

Definition comment_dict (c : comment) : jvalue :=
  JObj [("id", JStr (comment_id c));
        ("author", JStr (author c));
        ("content", JStr (comment_content c));
        ("snippet", JStr (snippet c));
        ("createdTime", JStr (createdTime c));
        ("modifiedTime", JStr (modifiedTime c));
        ("resolved", JBool (resolved c));
        ("anchor", anchor_dict (anchor c));
        ("replies", JArr (map reply_dict (replies c)))].

End Models.
Import Models.

(** ** gdrivekit/export/docs/converters.py *)

Module DocsConverters.

(** The marker [f'[{comment_num}]']. *)
Definition marker (comment_num : nat) : string :=
  "[" +:+ str_of_nat comment_num +:+ "]".

(** [enumerate(l)] *)
Definition enumerate {A : Type} (l : list A) : list (nat * A) :=
  zip (seq 0 (length l)) l.

Section Docs.

(** [soup.find_all('a', id=re.compile(r'^cmnt_ref\d+$'))] on the parsed
    HTML: the number in the id of each comment reference, in document
    order. *)
Variable comment_ref_anchors : string → list nat.

(** The first pass of [process_docs_markdown_export], over embedded
    images. *)
Variable extract_assets_from_markdown : string → string * list ExportedAsset.

(** The body of the loop over [enumerate(top_level_anchors)]. *)
Definition marker_step (comments : list comment) (markdown_content : string)
    (it : nat * nat) : string :=
  let idx := it.1 in
  let comment_num := idx + 1 in
  match comments !! idx with
  | Some c =>
      let snippet := snippet c in
      if negb (String.eqb snippet "")
      then re_sub_once snippet (marker comment_num) markdown_content
      else markdown_content
  | None => markdown_content
  end.

Definition add_comment_markers_to_markdown (markdown_content html_content : string)
    (comments : list comment) : string :=
  match comments with
  | [] => markdown_content
  | _ =>
      let sorted_anchors := merge_sort Nat.le (comment_ref_anchors html_content) in
      let num_top_level := length comments in
      let top_level_anchors := take num_top_level sorted_anchors in
      fold_left (marker_step comments) (enumerate top_level_anchors) markdown_content
  end.

Definition reply_line (r : reply) : string :=
  "  - [" +:+ reply_createdTime r +:+ "] " +:+ reply_author r +:+ ": " +:+ reply_content r.

(** The lines one comment adds to the section. *)
Definition section_step (lines : list string) (it : nat * comment) : list string :=
  let comment_num := it.1 + 1 in
  let c := it.2 in
  let lines := lines ++ ["### [" +:+ str_of_nat comment_num +:+ "]"] in
  let lines := lines ++ [""] in
  let lines := lines ++
    ["[" +:+ createdTime c +:+ "] " +:+ author c +:+ ": " +:+ comment_content c] in
  let lines := lines ++ [""] in
  let lines := fold_left (fun ls r => ls ++ [reply_line r]) (replies c) lines in
  match replies c with
  | [] => lines
  | _ => lines ++ [""]
  end.

Definition section_lines (comments : list comment) : list string :=
  fold_left section_step (enumerate comments) [""; "---"; ""; "Comments:"; ""].

Definition add_comment_section (markdown_content : string) (comments : list comment) : string :=
  match comments with
  | [] => markdown_content
  | _ => markdown_content +:+ join newline (section_lines comments)
  end.

Definition process_docs_markdown_export (markdown_content html_content : string)
    (comments : list comment) : string * list ExportedAsset :=
  let '(markdown_content, assets) := extract_assets_from_markdown markdown_content in
  let markdown_content :=
    match comments with
    | [] => markdown_content
    | _ => add_comment_markers_to_markdown markdown_content html_content comments
    end in
  let markdown_content := add_comment_section markdown_content comments in
  (markdown_content, assets).

End Docs.

End DocsConverters.

(** ** gdrivekit/export/sheets/converters.py *)

Module SheetsConverters.

(** A cell of [data_rows]: the Sheets service sends formatted strings; a
    number or [None] is accepted by the code as well. *)
Inductive cell_value : Type :=
| CellNone
| CellStr (s : string)
| CellInt (z : Z).

(** [str(cell_value) if cell_value is not None else ""] *)
Definition cell_str (v : cell_value) : string :=
  match v with
  | CellNone => ""
  | CellStr s => s
  | CellInt z => str_of_Z z
  end.

Record sheet : Type := {
  sheet_name : string;
  sheet_id : Z;
  data_rows : list (list cell_value)
}.

Definition mime_to_ext : list (string * string) :=
  [("image/png", ".png"); ("image/jpeg", ".jpg"); ("image/jpg", ".jpg");
   ("image/gif", ".gif"); ("image/svg+xml", ".svg"); ("image/webp", ".webp");
   ("application/pdf", ".pdf")].

(** [d.get(key, default)] on a table of strings. *)
Fixpoint table_get (key : string) (table : list (string * string)) (default : string) : string :=
  match table with
  | [] => default
  | (k, v) :: rest => if String.eqb k key then v else table_get key rest default
  end.

Definition _guess_extension_from_mime (mime_type : string) : string :=
  table_get mime_type mime_to_ext ".bin".

(** Does [c] occur in [s]? *)
Fixpoint has_char (c : ascii) (s : string) : bool :=
  match s with
  | EmptyString => false
  | String d rest => Ascii.eqb c d || has_char c rest
  end.

(** [re.match(r'data:([^;]+);', data_uri)] and its first group. *)
Definition _extract_mime_type_from_data_uri (data_uri : string) : string :=
  if startswith "data:" data_uri then
    let rest := str_drop 5 data_uri in
    let group := before_char ";" rest in
    if negb (String.eqb group "") && has_char ";" rest then group
    else "application/octet-stream"
  else "application/octet-stream".

(** The text after the first occurrence of [sep], if there is one. *)
Fixpoint after_sep (sep s : string) : option string :=
  if startswith sep s then Some (str_drop (String.length sep) s)
  else match s with
       | EmptyString => None
       | String _ rest => after_sep sep rest
       end.

(** The text before the first occurrence of [sep], all of [s] without one. *)
Fixpoint before_sep (sep s : string) : string :=
  if startswith sep s then EmptyString
  else match s with
       | EmptyString => EmptyString
       | String c rest => String c (before_sep sep rest)
       end.

(** [s.split(sep)[1]], for a [sep] that occurs in [s]. *)
Definition split_second (sep s : string) : option string :=
  match after_sep sep s with
  | Some rest => Some (before_sep sep rest)
  | None => None
  end.

(** The key [f"{sheet_name}:{row_idx}:{col_idx}"]. *)
Definition cell_key (sheet_name : string) (row_idx col_idx : nat) : string :=
  sheet_name +:+ ":" +:+ str_of_nat row_idx +:+ ":" +:+ str_of_nat col_idx.

(** The inner loop of the search: the first column of [row], from column
    [col_idx] on, whose stripped text is [snippet]. *)
Fixpoint find_in_row (snippet : string) (row : list cell_value) (col_idx : nat) : option nat :=
  match row with
  | [] => None
  | cell :: rest =>
      if String.eqb (strip (cell_str cell)) snippet then Some col_idx
      else find_in_row snippet rest (S col_idx)
  end.

(** The outer loop: the first row, from row [row_idx] on, that has such a
    column, with [break] out of both loops at the first match. *)
Fixpoint find_in_rows (snippet : string) (rows : list (list cell_value)) (row_idx : nat)
    : option (nat * nat) :=
  match rows with
  | [] => None
  | row :: rest =>
      match find_in_row snippet row 0 with
      | Some col_idx => Some (row_idx, col_idx)
      | None => find_in_rows snippet rest (S row_idx)
      end
  end.

(** The key of [sheet_id_to_data] a value of [uid] is equal to ([True] is
    equal to [1]); a string is equal to no sheet id, and a list or object
    is not hashable. *)
Definition uid_key (v : jvalue) : option Z :=
  match v with
  | JNum z => Some z
  | JBool b => Some (Z.b2z b)
  | _ => None
  end.

Section Sheets.

(** [json.loads] on the text of an anchor; [None] is a [JSONDecodeError]. *)
Variable json_loads : string → option jvalue.

Definition anchor_falsy (a : anchor_value) : bool :=
  match a with
  | AnchorStr s => String.eqb s ""
  | AnchorObj v => negb (truthy v)
  end.

(** [json.loads(anchor) if isinstance(anchor, str) else anchor] *)
Definition anchor_data (a : anchor_value) : option jvalue :=
  match a with
  | AnchorStr s => json_loads s
  | AnchorObj (JStr s) => json_loads s
  | AnchorObj v => Some v
  end.

(** [sheet_id_to_data]: a later sheet with the same id replaces an earlier
    one. *)
Definition sheet_index (sheets_data : list sheet) : gmap Z sheet :=
  fold_left (fun m sh => <[sheet_id sh := sh]> m) sheets_data ∅.

(** The cell one comment is attached to: the sheet comes from the anchor,
    the cell from the search for the snippet over the sheet. *)
Definition comment_cell (sheet_id_to_data : gmap Z sheet) (c : comment)
    : option (string * nat * nat) :=
  let snippet := strip (snippet c) in
  if anchor_falsy (anchor c) || String.eqb snippet "" then None
  else
    match anchor_data (anchor c) with
    | Some (JObj members) =>
        match members_get "uid" members with
        | None | Some JNull => None
        | Some uid =>
            match uid_key uid with
            | None => None
            | Some key =>
                match sheet_id_to_data !! key with
                | None => None
                | Some sh =>
                    match find_in_rows snippet (data_rows sh) 0 with
                    | Some (row_idx, col_idx) => Some (sheet_name sh, row_idx, col_idx)
                    | None => None
                    end
                end
            end
        end
    | _ => None
    end.

(** The body of the loop over [enumerate(comments)]. *)
Definition map_step (sheet_id_to_data : gmap Z sheet) (cell_to_comments : gmap string (list nat))
    (it : nat * comment) : gmap string (list nat) :=
  match comment_cell sheet_id_to_data it.2 with
  | Some (sheet_name, row_idx, col_idx) =>
      let key := cell_key sheet_name row_idx col_idx in
      <[key := default [] (cell_to_comments !! key) ++ [it.1]]> cell_to_comments
  | None => cell_to_comments
  end.

Definition _map_comments_to_cells (comments : list comment) (sheets_data : list sheet)
    : gmap string (list nat) :=
  let sheet_id_to_data := sheet_index sheets_data in
  fold_left (map_step sheet_id_to_data) (DocsConverters.enumerate comments) ∅.

(** The rows padded to [max_cols], with the pipe characters escaped. *)
Definition normalize_row (max_cols : nat) (row : list string) : list string :=
  map (fun i =>
         match row !! i with
         | Some cell_value => replace_char "|" "\|" cell_value
         | None => ""
         end)
      (seq 0 max_cols).

Definition table_row (row : list string) : string :=
  "| " +:+ join " | " row +:+ " |".

Definition separator_cell (cell : string) : string :=
  if negb (String.eqb cell "") then repeat_char "-" (py_len cell + 2) else "---".

Definition _format_markdown_table (data_rows : list (list string)) : string :=
  match data_rows with
  | [] => ""
  | _ =>
      let max_cols := max_list (map (length (A:=string)) data_rows) in
      if (max_cols =? 0)%nat then ""
      else
        let normalized_rows := map (normalize_row max_cols) data_rows in
        let header := default [] (head normalized_rows) in
        let lines := [table_row header] in
        let lines := lines ++ ["|" +:+ join "|" (map separator_cell header) +:+ "|"] in
        let lines := lines ++ map table_row (tail normalized_rows) in
        join newline lines
  end.

(** The text of a cell with the markers of its comments. *)
Definition marked_cell (cell_to_comments : gmap string (list nat)) (sheet_name : string)
    (row_idx col_idx : nat) (cell : cell_value) : string :=
  let key := cell_key sheet_name row_idx col_idx in
  fold_left (fun text comment_idx => text +:+ DocsConverters.marker (comment_idx + 1))
            (default [] (cell_to_comments !! key)) (cell_str cell).

(** The indices of the comments of a sheet, cell by cell. *)
Definition sheet_comment_indices (cell_to_comments : gmap string (list nat)) (sh : sheet)
    : list nat :=
  let width := max_list (map (length (A:=cell_value)) (data_rows sh)) in
  flat_map (fun row_idx =>
              flat_map (fun col_idx =>
                          default [] (cell_to_comments !! cell_key (sheet_name sh) row_idx col_idx))
                       (seq 0 width))
           (seq 0 (length (data_rows sh))).

(** The lines of one comment in the section of its sheet. *)
Definition sheet_comment_lines (comments : list comment) (comment_idx : nat) : list string :=
  match comments !! comment_idx with
  | None => []
  | Some c =>
      ["### [" +:+ str_of_nat (comment_idx + 1) +:+ "]"; "";
       "[" +:+ createdTime c +:+ "] " +:+ author c +:+ ": " +:+ comment_content c; ""]
      ++ map DocsConverters.reply_line (replies c)
      ++ match replies c with [] => [] | _ => [""] end
  end.

(** The section of one sheet. *)
Definition sheet_section (cell_to_comments : gmap string (list nat)) (comments : list comment)
    (sh : sheet) : string :=
  let modified_rows :=
    imap (fun row_idx row => imap (marked_cell cell_to_comments (sheet_name sh) row_idx) row)
         (data_rows sh) in
  let section_lines := ["# " +:+ sheet_name sh; ""; _format_markdown_table modified_rows; ""] in
  let sheet_comments := sheet_comment_indices cell_to_comments sh in
  let section_lines :=
    match sheet_comments with
    | [] => section_lines
    | _ =>
        section_lines ++ ["## Comments"; ""]
        ++ flat_map (sheet_comment_lines comments) (merge_sort Nat.le (remove_dups sheet_comments))
    end in
  join newline section_lines.

Definition convert_sheets_to_markdown (sheets_data : list sheet) (comments : list comment)
    : string :=
  let cell_to_comments := _map_comments_to_cells comments sheets_data in
  let markdown_sections :=
    map (sheet_section cell_to_comments comments)
        (filter (fun sh => data_rows sh ≠ []) sheets_data) in
  join newline markdown_sections.

(** [soup.find_all('img')]: the [src] of each image, in document order. *)
Variable img_srcs : string → list string.

(** [base64.b64decode] *)
Variable b64decode : string → result string.

(** [urllib.request.urlopen]: the body and the [Content-Type] header. *)
Variable urlopen : string → result (string * option string).

Definition sheet_asset (asset_counter : nat) (binary_data mime_type : string) : ExportedAsset :=
  let extension := _guess_extension_from_mime mime_type in
  {| asset_name := "sheet_asset_" +:+ fmt_03d asset_counter +:+ extension;
     asset_content := binary_data;
     asset_anchor := "sheet_asset_" +:+ fmt_03d asset_counter;
     asset_mime_type := mime_type |}.

(** The body of the loop over the images: the state is the rewritten
    sources, the assets and the counter. *)
Definition extract_step (st : list string * list ExportedAsset * nat) (src : string)
    : list string * list ExportedAsset * nat :=
  let '(srcs, assets, asset_counter) := st in
  if startswith "data:" src then
    let mime_type := _extract_mime_type_from_data_uri src in
    match split_second ";base64," src with
    | Some base64_data =>
        match b64decode base64_data with
        | Ok binary_data =>
            let asset := sheet_asset asset_counter binary_data mime_type in
            (srcs ++ ["assets/" +:+ asset_name asset], assets ++ [asset], asset_counter + 1)
        | Raise _ => (srcs ++ [src], assets, asset_counter)
        end
    | None => (srcs ++ [src], assets, asset_counter)
    end
  else if startswith "http://" src || startswith "https://" src then
    match urlopen src with
    | Ok (binary_data, header) =>
        let content_type := default "application/octet-stream" header in
        let mime_type := strip (before_char ";" content_type) in
        let asset := sheet_asset asset_counter binary_data mime_type in
        (srcs ++ ["assets/" +:+ asset_name asset], assets ++ [asset], asset_counter + 1)
    | Raise _ => (srcs ++ [src], assets, asset_counter)
    end
  else (srcs ++ [src], assets, asset_counter).

(** The sources of the images of the rewritten document, and the assets. *)
Definition extract_assets_from_sheets_html (html_content : string)
    : list string * list ExportedAsset :=
  let '(srcs, assets, _) := fold_left extract_step (img_srcs html_content) ([], [], 1) in
  (srcs, assets).

End Sheets.

End SheetsConverters.

(** ** gdrivekit/export/slides/converters.py *)

Module SlidesConverters.

Record image : Type := { url : option string }.

Record slide : Type := {
  slide_index : nat;
  text_content : string;
  speaker_notes : string;
  images : list image
}.

Record presentation : Type := {
  presentation_title : string;
  slides : list slide
}.

Definition mime_to_ext : list (string * string) :=
  [("image/png", ".png"); ("image/jpeg", ".jpg"); ("image/jpg", ".jpg");
   ("image/gif", ".gif"); ("image/svg+xml", ".svg"); ("image/webp", ".webp")].

Definition _guess_extension_from_mime (mime_type : string) : string :=
  SheetsConverters.table_get mime_type mime_to_ext ".png".

Definition _format_speaker_notes (notes_text : string) : string :=
  if String.eqb notes_text "" || String.eqb (strip notes_text) "" then ""
  else newline +:+ newline +:+ "### Speaker Notes" +:+ newline +:+ newline
       +:+ strip notes_text +:+ newline.

(** The first slide, from index [slide_idx] on, whose text contains the
    snippet. *)
Fixpoint find_slide (snippet : string) (slides_data : list slide) (slide_idx : nat) : option nat :=
  match slides_data with
  | [] => None
  | s :: rest =>
      if str_in snippet (text_content s) then Some slide_idx
      else find_slide snippet rest (S slide_idx)
  end.

(** [comment_positions], in the order of insertion: the comment index, the
    snippet and the slide index, [None] for the [-1] of a snippet not
    found. *)
Definition position_step (slides_data : list slide)
    (comment_positions : list (nat * (string * option nat))) (it : nat * comment)
    : list (nat * (string * option nat)) :=
  let snippet := strip (snippet it.2) in
  if String.eqb snippet "" then comment_positions
  else comment_positions ++ [(it.1, (snippet, find_slide snippet slides_data 0))].

Definition _map_comments_to_slides (comments : list comment) (slides_data : list slide)
    : list (nat * (string * option nat)) :=
  fold_left (position_step slides_data) (DocsConverters.enumerate comments) [].

Definition slide_marker_step (markdown_content : string) (it : nat * (string * option nat))
    : string :=
  match it.2.2 with
  | None => markdown_content
  | Some _ =>
      let comment_num := it.1 + 1 in
      re_sub_once it.2.1 (DocsConverters.marker comment_num) markdown_content
  end.

Definition _add_comment_markers_to_markdown (markdown_content : string)
    (comments : list comment) (comment_positions : list (nat * (string * option nat)))
    : string :=
  match comments with
  | [] => markdown_content
  | _ => fold_left slide_marker_step comment_positions markdown_content
  end.

Definition section_lines (comments : list comment) : list string :=
  fold_left DocsConverters.section_step (DocsConverters.enumerate comments)
    [""; "---"; ""; "## Comments"; ""].

Definition _add_comment_section (markdown_content : string) (comments : list comment) : string :=
  match comments with
  | [] => markdown_content
  | _ => markdown_content +:+ join newline (section_lines comments)
  end.

Section Slides.

(** [requests.get(url, headers=headers, timeout=10)] followed by
    [raise_for_status()]: the body and the [Content-Type] header of a
    successful response. *)
Variable requests_get : string → result (string * option string).

Definition placeholder (counter : nat) : ExportedAsset :=
  {| asset_name := "slide_image_" +:+ fmt_03d counter +:+ ".png";
     asset_content := "";
     asset_anchor := "slide_image_" +:+ fmt_03d counter;
     asset_mime_type := "image/png" |}.

Definition _download_image_from_url (url : string) (counter : nat) : ExportedAsset :=
  match requests_get url with
  | Ok (binary_data, header) =>
      let content_type := default "image/png" header in
      let mime_type := strip (before_char ";" content_type) in
      let extension := _guess_extension_from_mime mime_type in
      {| asset_name := "slide_image_" +:+ fmt_03d counter +:+ extension;
         asset_content := binary_data;
         asset_anchor := "slide_image_" +:+ fmt_03d counter;
         asset_mime_type := mime_type |}
  | Raise _ => placeholder counter
  end.

(** The body of the loop over the images of a slide: the state is the
    parts of the markdown, the assets and [image_counter]. *)
Definition image_step (st : list string * list ExportedAsset * nat) (im : image)
    : list string * list ExportedAsset * nat :=
  let '(markdown_parts, assets, image_counter) := st in
  match url im with
  | Some image_url =>
      if negb (String.eqb image_url "") then
        let asset := _download_image_from_url image_url image_counter in
        if negb (String.eqb (asset_content asset) "") then
          (markdown_parts ++
             [newline +:+ "![" +:+ asset_anchor asset +:+ "](assets/" +:+ asset_name asset
              +:+ ")" +:+ newline],
           assets ++ [asset], image_counter + 1)
        else st
      else st
  | None => st
  end.

(** The body of the loop over the slides. *)
Definition slide_step (st : list string * list ExportedAsset * nat) (s : slide)
    : list string * list ExportedAsset * nat :=
  let '(markdown_parts, assets, image_counter) := st in
  let slide_num := slide_index s + 1 in
  let markdown_parts :=
    markdown_parts ++ ["# --- Slide " +:+ str_of_nat slide_num +:+ " ---" +:+ newline] in
  let markdown_parts :=
    if negb (String.eqb (text_content s) "")
    then markdown_parts ++ [text_content s; newline]
    else markdown_parts ++ ["*(No text content)*" +:+ newline] in
  let '(markdown_parts, assets, image_counter) :=
    fold_left image_step (images s) (markdown_parts, assets, image_counter) in
  let markdown_parts :=
    if negb (String.eqb (speaker_notes s) "")
    then markdown_parts ++ [_format_speaker_notes (speaker_notes s)]
    else markdown_parts in
  (markdown_parts ++ [newline], assets, image_counter).

Definition convert_slides_to_markdown (presentation_data : presentation)
    (comments : list comment) : string * list ExportedAsset :=
  match slides presentation_data with
  | [] => ("# Empty Presentation" +:+ newline, [])
  | slides =>
      let '(markdown_parts, assets, _) := fold_left slide_step slides ([], [], 1) in
      let markdown_content := concat_str markdown_parts in
      let markdown_content :=
        match comments with
        | [] => markdown_content
        | _ =>
            let comment_positions := _map_comments_to_slides comments slides in
            let markdown_content :=
              _add_comment_markers_to_markdown markdown_content comments comment_positions in
            _add_comment_section markdown_content comments
        end in
      (markdown_content, assets)
  end.

End Slides.

End SlidesConverters.

(** ** The file system

    The disk is a finite map from paths to nodes. A path is the list of its
    components below the working directory; the ids of items and the names
    of assets are taken to be single components. *)

Module Fs.

(** What a file holds: a JSON document, given by its value, or any other
    bytes. [json.load] raises on the latter, as it does on bytes that are
    not a JSON document. *)
Inductive file_data : Type :=
| JsonText (v : jvalue)
| RawBytes (b : string).

Inductive node : Type :=
| Dir
| File (d : file_data).

Abbreviation disk := (gmap (list string) node).

(** The working directory exists. *)
Definition node_at (d : disk) (p : list string) : option node :=
  match p with
  | [] => Some Dir
  | _ => d !! p
  end.

(** [p.parent] *)
Definition parent (p : list string) : list string := removelast p.

(** [p.name] *)
Definition basename (p : list string) : string := List.last p "".

(** [p.exists()] *)
Definition path_exists (d : disk) (p : list string) : bool :=
  match node_at d p with
  | Some _ => true
  | None => false
  end.

(** [p.is_file()] *)
Definition is_file (d : disk) (p : list string) : bool :=
  match node_at d p with
  | Some (File _) => true
  | _ => false
  end.

(** Programs on the disk: the state is returned with the exception. *)
Definition io (A : Type) : Type := disk → result A * disk.

Definition io_ret {A : Type} (a : A) : io A := fun d => (Ok a, d).

Definition io_raise {A : Type} (e : exn) : io A := fun d => (Raise e, d).

Definition io_bind {A B : Type} (m : io A) (k : A → io B) : io B :=
  fun d =>
    match m d with
    | (Ok a, d') => k a d'
    | (Raise e, d') => (Raise e, d')
    end.

(** [try: m except Exception as e: handler(e)] *)
Definition io_try {A : Type} (m : io A) (handler : exn → io A) : io A :=
  fun d =>
    match m d with
    | (Ok a, d') => (Ok a, d')
    | (Raise e, d') => handler e d'
    end.

(** A computation that only reads the disk. *)
Definition io_read {A : Type} (f : disk → result A) : io A := fun d => (f d, d).

Notation "'let!' x ':=' m 'in' k" := (io_bind m (fun x => k))
  (at level 10, x name, m at level 100, k at level 200).

Notation "m ';;' k" := (io_bind m (fun _ => k))
  (at level 100, k at level 200, right associativity).

(** [p.mkdir(parents=True, exist_ok=True)], one component at a time from
    the directory [base]. *)
Fixpoint mkdir_parents (base : list string) (todo : list string) : io unit :=
  fun d =>
    match todo with
    | [] => (Ok tt, d)
    | c :: rest =>
        let p := base ++ [c] in
        match node_at d p with
        | Some (File _) => (Raise OSError, d)
        | Some Dir => mkdir_parents p rest d
        | None => mkdir_parents p rest (<[p := Dir]> d)
        end
    end.

(** [p.mkdir(exist_ok=True)] *)
Definition mkdir_exist_ok (p : list string) : io unit :=
  fun d =>
    match node_at d p with
    | Some Dir => (Ok tt, d)
    | Some (File _) => (Raise OSError, d)
    | None =>
        match node_at d (parent p) with
        | Some Dir => (Ok tt, <[p := Dir]> d)
        | Some (File _) => (Raise OSError, d)
        | None => (Raise FileNotFoundError, d)
        end
    end.

(** [open(p, 'w')] or [open(p, 'wb')], the write of [data] and the close. *)
Definition write_file (p : list string) (data : file_data) : io unit :=
  fun d =>
    match node_at d p with
    | Some Dir => (Raise OSError, d)
    | _ =>
        match node_at d (parent p) with
        | Some Dir => (Ok tt, <[p := File data]> d)
        | Some (File _) => (Raise OSError, d)
        | None => (Raise FileNotFoundError, d)
        end
    end.

(** [open(p, 'r')] or [open(p, 'rb')] and the read of the whole file. *)
Definition read_file (d : disk) (p : list string) : result file_data :=
  match node_at d p with
  | Some (File data) => Ok data
  | Some Dir => Raise OSError
  | None => Raise FileNotFoundError
  end.

(** The order of [sorted] on the names of a directory. *)
Definition name_le (a b : string) : Prop := String.leb a b = true.

#[export] Instance name_le_dec : RelDecision name_le.
Proof. intros a b. unfold name_le. apply _. Defined.

(** [sorted(p.iterdir())]: the names of the entries of the directory. *)
Definition iterdir (d : disk) (p : list string) : result (list string) :=
  match node_at d p with
  | Some Dir =>
      Ok (merge_sort name_le
            (map basename
               (filter (fun q => q ≠ [] ∧ parent q = p) (map fst (map_to_list d)))))
  | Some (File _) => Raise OSError
  | None => Raise FileNotFoundError
  end.

(** The translation of line ends of a file read in text mode: [\r\n] and
    [\r] are read as [\n]. *)
Fixpoint universal_newlines (s : string) : string :=
  match s with
  | EmptyString => EmptyString
  | String c rest =>
      if Ascii.eqb c (byte 13) then
        match rest with
        | String c' rest' =>
            if Ascii.eqb c' (byte 10) then String (byte 10) (universal_newlines rest')
            else String (byte 10) (universal_newlines rest)
        | EmptyString => String (byte 10) EmptyString
        end
      else String c (universal_newlines rest)
  end.

End Fs.
Import Fs.

(** ** gdrivekit/export/cache.py *)

Module Cache.

(** [name.rfind('.')]: the index of the last dot. *)
Fixpoint rfind_dot (s : string) (i : nat) (last : option nat) : option nat :=
  match s with
  | EmptyString => last
  | String c rest =>
      rfind_dot rest (S i) (if Ascii.eqb c "." then Some i else last)
  end.

(** [Path.suffix]: the extension of the name, with its dot. *)
Definition suffix (name : string) : string :=
  match rfind_dot name 0 None with
  | Some i =>
      if (0 <? i)%nat && (i <? String.length name - 1)%nat then str_drop i name else ""
  | None => ""
  end.

(** [Path.stem]: the name without its extension. *)
Definition stem (name : string) : string :=
  match rfind_dot name 0 None with
  | Some i =>
      if (0 <? i)%nat && (i <? String.length name - 1)%nat then str_take i name else name
  | None => name
  end.

Definition ext_to_mime : list (string * string) :=
  [(".png", "image/png"); (".jpg", "image/jpeg"); (".jpeg", "image/jpeg");
   (".gif", "image/gif"); (".svg", "image/svg+xml"); (".webp", "image/webp");
   (".pdf", "application/pdf")].

(** The mime type [load_from_disk] gives the asset file [name]. *)
Definition mime_of_name (name : string) : string :=
  SheetsConverters.table_get (lower (suffix name)) ext_to_mime "application/octet-stream".

(** [metadata[key]] *)
Definition subscript (metadata : jvalue) (key : string) : result jvalue :=
  match metadata with
  | JObj members =>
      match members_get key members with
      | Some v => Ok v
      | None => Raise KeyError
      end
  | _ => Raise TypeError
  end.

(** The fields of an [ExportedItem] are strings in the embedding: a record
    of metadata with a value of another type in a field is refused. *)
Definition as_str (v : jvalue) : result string :=
  match v with
  | JStr s => Ok s
  | _ => Raise TypeError
  end.

Section Cache.

(** The text [json.dump] writes for a value. *)
Variable json_dumps : jvalue → string.

(** The bytes of a file. *)
Definition file_bytes (data : file_data) : string :=
  match data with
  | JsonText v => json_dumps v
  | RawBytes b => b
  end.

(** [json.load(f)] *)
Definition json_load (data : file_data) : result jvalue :=
  match data with
  | JsonText v => Ok v
  | RawBytes _ => Raise (ValueError "JSONDecodeError")
  end.

Definition metadata_of (exported_item : ExportedItem) : jvalue :=
  JObj [("item_id", JStr (item_id exported_item));
        ("item_type", JStr (ItemType_value (item_type exported_item)));
        ("title", JStr (title exported_item));
        ("created_time", JStr (item_created_time exported_item));
        ("modified_time", JStr (item_modified_time exported_item));
        ("content_format", JStr (content_format exported_item));
        ("asset_count", JNum (Z.of_nat (length (assets exported_item))))].

(** The write of the content: a text file takes a [str] and a binary file
    [bytes]; the file is created before [f.write] raises. *)
Definition write_content (content_path : list string) (exported_item : ExportedItem) : io unit :=
  if is_pdf exported_item then
    match content exported_item with
    | BytesContent b => write_file content_path (RawBytes b)
    | StrContent _ => write_file content_path (RawBytes "") ;; io_raise TypeError
    end
  else
    match content exported_item with
    | StrContent s => write_file content_path (RawBytes s)
    | BytesContent _ => write_file content_path (RawBytes "") ;; io_raise TypeError
    end.

Fixpoint write_assets (assets_dir : list string) (assets : list ExportedAsset) : io unit :=
  match assets with
  | [] => io_ret tt
  | asset :: rest =>
      write_file (assets_dir ++ [asset_name asset]) (RawBytes (asset_content asset)) ;;
      write_assets assets_dir rest
  end.

(** The result is the directory of the item. *)
Definition save_to_disk (exported_item : ExportedItem) (base_path : list string)
    : io (list string) :=
  io_try
    (let item_dir := base_path ++ [item_id exported_item] in
     mkdir_parents [] item_dir ;;
     let assets_dir := item_dir ++ ["assets"] in
     (match assets exported_item with
      | [] => io_ret tt
      | _ => mkdir_exist_ok assets_dir
      end) ;;
     let metadata := metadata_of exported_item in
     write_file (item_dir ++ ["metadata.json"]) (JsonText metadata) ;;
     write_file (item_dir ++ ["comments.json"]) (JsonText (comments exported_item)) ;;
     let content_extension := if is_pdf exported_item then ".pdf" else ".md" in
     write_content (item_dir ++ ["content" +:+ content_extension]) exported_item ;;
     write_assets assets_dir (assets exported_item) ;;
     io_ret item_dir)
    (fun e => io_raise (IOError ("Failed to save exported item to disk: " +:+ exn_str e))).

(** The loop over [sorted(assets_dir.iterdir())]. *)
Fixpoint load_assets (d : disk) (assets_dir : list string) (names : list string)
    : result (list ExportedAsset) :=
  match names with
  | [] => Ok []
  | name :: rest =>
      let asset_file := assets_dir ++ [name] in
      if is_file d asset_file then
        try! data := read_file d asset_file in
        let asset :=
          {| asset_name := name;
             asset_content := file_bytes data;
             asset_anchor := stem name;
             asset_mime_type := mime_of_name name |} in
        try! others := load_assets d assets_dir rest in
        Ok (asset :: others)
      else load_assets d assets_dir rest
  end.

Definition load_body (item_id : string) (base_path : list string) (d : disk)
    : result ExportedItem :=
  let item_dir := base_path ++ [item_id] in
  if negb (path_exists d item_dir) then Raise FileNotFoundError
  else
    try! metadata := rbind (read_file d (item_dir ++ ["metadata.json"])) json_load in
    try! comments := rbind (read_file d (item_dir ++ ["comments.json"])) json_load in
    try! content_format := rbind (subscript metadata "content_format") as_str in
    let content_extension := if String.eqb content_format "pdf" then ".pdf" else ".md" in
    let content_path := item_dir ++ ["content" +:+ content_extension] in
    try! data := read_file d content_path in
    let content :=
      if String.eqb content_format "pdf" then BytesContent (file_bytes data)
      else StrContent (universal_newlines (file_bytes data)) in
    let assets_dir := item_dir ++ ["assets"] in
    try! assets :=
      (if path_exists d assets_dir
       then rbind (iterdir d assets_dir) (load_assets d assets_dir)
       else Ok []) in
    try! the_id := rbind (subscript metadata "item_id") as_str in
    try! the_type :=
      rbind (rbind (subscript metadata "item_type") as_str) ItemType_of_value in
    try! the_title := rbind (subscript metadata "title") as_str in
    try! created := rbind (subscript metadata "created_time") as_str in
    try! modified := rbind (subscript metadata "modified_time") as_str in
    Ok {| item_id := the_id;
          item_type := the_type;
          title := the_title;
          item_created_time := created;
          item_modified_time := modified;
          content := content;
          content_format := content_format;
          assets := assets;
          comments := comments |}.

Definition load_from_disk (item_id : string) (base_path : list string) (d : disk)
    : result ExportedItem :=
  match load_body item_id base_path d with
  | Ok exported_item => Ok exported_item
  | Raise FileNotFoundError => Raise FileNotFoundError
  | Raise e => Raise (IOError ("Failed to load exported item from disk: " +:+ exn_str e))
  end.

Definition cache_exists (item_id : string) (base_path : list string) (d : disk) : bool :=
  path_exists d (base_path ++ [item_id] ++ ["metadata.json"]).

(** [None] is both the absence of a record and the JSON [null]. *)
Definition get_cached_metadata (item_id : string) (base_path : list string) (d : disk)
    : option jvalue :=
  let metadata_path := base_path ++ [item_id] ++ ["metadata.json"] in
  if negb (path_exists d metadata_path) then None
  else
    match rbind (read_file d metadata_path) json_load with
    | Ok JNull => None
    | Ok v => Some v
    | Raise _ => None
    end.

Definition should_skip_export (item_id modified_time : string) (base_path : list string)
    (d : disk) : result bool :=
  match get_cached_metadata item_id base_path d with
  | None => Ok false
  | Some cached_metadata =>
      if negb (truthy cached_metadata) then Ok false
      else
        match cached_metadata with
        | JObj members =>
            match members_get "modified_time" members with
            | None => Ok false
            | Some cached_modified =>
                if negb (truthy cached_modified) then Ok false
                else
                  match cached_modified with
                  | JStr s => Ok (String.leb modified_time s)
                  | _ => Raise TypeError
                  end
            end
        | _ => Raise AttributeError
        end
  end.

Definition raw_file_exists (item_id filename : string) (base_path : list string) (d : disk)
    : bool :=
  path_exists d (base_path ++ [item_id] ++ [filename]).

End Cache.

(** [shutil.rmtree(p)] on a directory: the directory goes with all that is
    below it. The disk has no permissions, and the removal of a directory
    does not fail. *)
Definition rmtree (p : list string) (d : disk) : disk :=
  filter (fun entry => ¬ (p `prefix_of` entry.1)) d.

(** [delete_from_disk]: the answer and the disk. [shutil.rmtree] raises on
    a path that is not a directory, and the function answers [False]. *)
Definition delete_from_disk (item_id : string) (base_path : list string) (d : disk)
    : bool * disk :=
  let item_dir := base_path ++ [item_id] in
  if negb (path_exists d item_dir) then (false, d)
  else
    match node_at d item_dir with
    | Some Dir => (true, rmtree item_dir d)
    | _ => (false, d)
    end.

End Cache.

(** ** gdrivekit/clients/drive.py *)

Module Drive.

(** A comment and a reply as the Drive service sends them: a key that is
    absent is [None]. *)
Record raw_reply : Type := {
  raw_reply_id : option string;
  raw_reply_author : option string;
  raw_reply_content : option string;
  raw_reply_createdTime : option string;
  raw_reply_modifiedTime : option string
}.

Record raw_comment : Type := {
  raw_id : option string;
  raw_author : option string;
  raw_content : option string;
  raw_quoted : option string;
  raw_createdTime : option string;
  raw_modifiedTime : option string;
  raw_resolved : option bool;
  raw_anchor : option anchor_value;
  raw_replies : list raw_reply
}.

(** The answers of [comments().list] for one file: a request fails, or it
    gives a page of comments, with the answer to the request for the next
    page when the page carries a [nextPageToken]. *)
Inductive listing : Type :=
| ListFails (e : exn)
| ListPage (page : list raw_comment) (next : option listing).

(** The collaborators of the client: the remote services and the parsers of
    the libraries. Their answers do not change during a run. *)
Record services : Type := {
  (** [files().get(fileId=...).execute()] and [DriveItem.update_from_api] *)
  files_get : string → result DriveItem;
  (** [GDriveClient.list_items], all pages *)
  list_items : string → result (list DriveItem);
  comments_list : string → listing;
  (** [datetime.fromisoformat(t.replace('Z', '+00:00')).strftime('%Y-%m-%d %H:%M')] *)
  format_time : string → result string;
  (** [files().get_media] and the download of all chunks *)
  get_media : DriveItem → result string;
  export_docs_to_markdown : DriveItem → result string;
  export_docs_to_html : DriveItem → result string;
  export_docs_to_pdf : DriveItem → result string;
  export_slides_via_api : string → result SlidesConverters.presentation;
  export_slides_to_pdf : DriveItem → result string;
  fetch_spreadsheet_data : string → result (list SheetsConverters.sheet);
  export_sheets_to_html : DriveItem → result string;
  export_sheets_to_pdf : DriveItem → result string;
  comment_ref_anchors : string → list nat;
  extract_assets_from_markdown : string → string * list ExportedAsset;
  json_loads : string → option jvalue;
  json_dumps : jvalue → string;
  img_srcs : string → list string;
  b64decode : string → result string;
  urlopen : string → result (string * option string);
  requests_get : string → result (string * option string)
}.

(** [d[key]] for a key the service may have left out. *)
Definition required {A : Type} (o : option A) : result A :=
  match o with
  | Some a => Ok a
  | None => Raise KeyError
  end.

(** [mapM] on [result]. *)
Fixpoint traverse {A B : Type} (f : A → result B) (l : list A) : result (list B) :=
  match l with
  | [] => Ok []
  | a :: rest =>
      try! b := f a in
      try! bs := traverse f rest in
      Ok (b :: bs)
  end.

Section Client.

Variable svc : services.

Definition get_item (item_id : string) : result DriveItem :=
  match files_get svc item_id with
  | Ok item => Ok item
  | Raise e =>
      Raise (ValueError ("Failed to fetch file '" +:+ item_id +:+ "': " +:+ exn_str e))
  end.

(** The [while True] loop over the pages. *)
Fixpoint fetch_pages (l : listing) (comments : list raw_comment) : result (list raw_comment) :=
  match l with
  | ListFails e => Raise e
  | ListPage page next =>
      let comments := comments ++ page in
      match next with
      | Some l' => fetch_pages l' comments
      | None => Ok comments
      end
  end.

Definition format_reply (r : raw_reply) : result reply :=
  try! created := rbind (required (raw_reply_createdTime r)) (format_time svc) in
  try! modified := rbind (required (raw_reply_modifiedTime r)) (format_time svc) in
  try! the_id := required (raw_reply_id r) in
  Ok {| reply_id := the_id;
        reply_author := default "Unknown" (raw_reply_author r);
        reply_content := default "" (raw_reply_content r);
        reply_createdTime := created;
        reply_modifiedTime := modified |}.

Definition format_comment (c : raw_comment) : result comment :=
  try! created := rbind (required (raw_createdTime c)) (format_time svc) in
  try! modified := rbind (required (raw_modifiedTime c)) (format_time svc) in
  try! the_id := required (raw_id c) in
  try! the_replies := traverse format_reply (raw_replies c) in
  Ok {| comment_id := the_id;
        author := default "Unknown" (raw_author c);
        comment_content := default "" (raw_content c);
        snippet := default "" (raw_quoted c);
        createdTime := created;
        modifiedTime := modified;
        resolved := default false (raw_resolved c);
        anchor := default (AnchorStr "") (raw_anchor c);
        replies := the_replies |}.

(** The body of the [try] of [get_comments]. *)
Definition get_comments_body (file_id : string) : result (list comment) :=
  try! comments := fetch_pages (comments_list svc file_id) [] in
  traverse format_comment comments.

Definition get_comments (file_id : string) : list comment :=
  match get_comments_body file_id with
  | Ok formatted_comments => formatted_comments
  | Raise _ => []
  end.

Definition has_link (mime : string) (item : DriveItem) : bool :=
  existsb (fun kv => String.eqb kv.1 mime) (export_links item).

(** Step 5 of [export_document]: the content, its format and the assets,
    by kind of document and output type. *)
Definition export_content (item : DriveItem) (item_id output_type : string)
    (comments : list comment)
    : result (content_data * string * list ExportedAsset * list comment) :=
  match type item with
  | DOCS_DOCUMENT =>
      if String.eqb output_type "markdown" then
        try! markdown_content := export_docs_to_markdown svc item in
        try! html_content := export_docs_to_html svc item in
        let '(markdown_content, assets) :=
          DocsConverters.process_docs_markdown_export
            (comment_ref_anchors svc) (extract_assets_from_markdown svc)
            markdown_content html_content comments in
        Ok (StrContent markdown_content, "markdown", assets, comments)
      else
        try! pdf_content := export_docs_to_pdf svc item in
        Ok (BytesContent pdf_content, "pdf", [], comments)
  | DOCS_SLIDES =>
      if String.eqb output_type "markdown" then
        try! presentation_data := export_slides_via_api svc item_id in
        let '(markdown_content, assets) :=
          SlidesConverters.convert_slides_to_markdown (requests_get svc)
            presentation_data comments in
        Ok (StrContent markdown_content, "markdown", assets, comments)
      else
        try! pdf_content := export_slides_to_pdf svc item in
        Ok (BytesContent pdf_content, "pdf", [], comments)
  | DOCS_SHEETS =>
      if String.eqb output_type "markdown" then
        let comments := get_comments item_id in
        try! sheets_data := fetch_spreadsheet_data svc item_id in
        let markdown_content :=
          SheetsConverters.convert_sheets_to_markdown (json_loads svc) sheets_data comments in
        let assets :=
          if has_link "text/html" item then
            match export_sheets_to_html svc item with
            | Ok html_content =>
                (SheetsConverters.extract_assets_from_sheets_html
                   (img_srcs svc) (b64decode svc) (urlopen svc) html_content).2
            | Raise _ => []
            end
          else [] in
        Ok (StrContent markdown_content, "markdown", assets, comments)
      else
        try! pdf_content := export_sheets_to_pdf svc item in
        Ok (BytesContent pdf_content, "pdf", [], comments)
  | _ => Raise (ValueError "unreachable")
  end.

Definition exportable (t : ItemType) : bool :=
  match t with
  | DOCS_DOCUMENT | DOCS_SHEETS | DOCS_SLIDES => true
  | _ => false
  end.

Definition export_document (item_id output_type : string) (save_to_disk : bool)
    (cache_base_path : list string) : io ExportedItem :=
  let! item := io_read (fun _ => get_item item_id) in
  if negb (exportable (type item)) then
    io_raise (ValueError "Cannot export item of this type. Only Google Docs, Sheets, and Slides are supported.")
  else if negb (String.eqb output_type "markdown" || String.eqb output_type "pdf") then
    io_raise (ValueError ("Invalid output_type: " +:+ output_type +:+ ". Must be 'markdown' or 'pdf'"))
  else
    let comments :=
      match type item with
      | DOCS_DOCUMENT | DOCS_SLIDES => get_comments item_id
      | _ => []
      end in
    let! r := io_read (fun _ => export_content item item_id output_type comments) in
    let '(content, content_format, assets, comments) := r in
    let exported_item :=
      {| item_id := item_id;
         item_type := type item;
         title := name item;
         item_created_time := created_time item;
         item_modified_time := modified_time item;
         content := content;
         content_format := content_format;
         assets := assets;
         comments := JArr (map comment_dict comments) |} in
    (if save_to_disk
     then Cache.save_to_disk exported_item cache_base_path ;; io_ret tt
     else io_ret tt) ;;
    io_ret exported_item.

(** [download_file] with a path: the file is written and nothing returned. *)
Definition download_file (item : DriveItem) (filesystem_path : list string) : io unit :=
  match type item with
  | DIRECTORY => io_raise (ValueError ("Cannot download directory: " +:+ name item))
  | DOCS_DOCUMENT | DOCS_SLIDES | DOCS_SHEETS =>
      io_raise (ValueError "Cannot download Google Docs type. Use export instead.")
  | _ =>
      io_try
        (let! binary_data := io_read (fun _ => get_media svc item) in
         write_file filesystem_path (RawBytes binary_data))
        (fun e =>
           io_raise (ValueError ("Failed to download file '" +:+ id item +:+ "': " +:+ exn_str e)))
  end.

Definition path_str (p : list string) : string := join "/" p.

Definition skipped_entry (item : DriveItem) (reason : string) : entry :=
  {| entry_status := Some skipped; entry_item_id := id item;
     entry_name := name item; entry_detail := reason |}.

Definition success_entry (item : DriveItem) (path : string) : entry :=
  {| entry_status := Some success; entry_item_id := id item;
     entry_name := name item; entry_detail := path |}.

Definition failure_entry (item : DriveItem) (e : exn) : entry :=
  {| entry_status := Some failure; entry_item_id := id item;
     entry_name := name item; entry_detail := exn_str e |}.

(** The body of the [try] of [_process_single_item]. *)
Definition process_body (item : DriveItem) (output_path : list string) (output_type : string)
    (parent_path : option (list string)) : io entry :=
  let item_type := type item in
  let actual_output_path :=
    match parent_path with
    | Some p => p ++ ["children"; id item]
    | None => output_path ++ [id item]
    end in
  match item_type with
  | DIRECTORY => io_ret (skipped_entry item "Directory (not a file)")
  | DOCS_DOCUMENT | DOCS_SLIDES | DOCS_SHEETS =>
      let check_path :=
        match parent_path with
        | Some _ => parent actual_output_path
        | None => output_path
        end in
      let! skip := io_read (Cache.should_skip_export (id item) (modified_time item) check_path) in
      if skip then io_ret (skipped_entry item "Already up-to-date")
      else
        (match parent_path with
         | Some _ =>
             mkdir_parents [] actual_output_path ;;
             export_document (id item) output_type true (parent actual_output_path)
         | None => export_document (id item) output_type true output_path
         end) ;;
        io_ret (success_entry item (path_str actual_output_path))
  | RAW_FILE =>
      let! present :=
        io_read (fun d => Ok (Cache.raw_file_exists (id item) (name item) output_path d)) in
      if present then io_ret (skipped_entry item "Already downloaded")
      else
        mkdir_parents [] actual_output_path ;;
        let file_path := actual_output_path ++ [name item] in
        download_file item file_path ;;
        io_ret (success_entry item (path_str file_path))
  | UNKNOWN =>
      io_ret (skipped_entry item ("Unsupported type: " +:+ ItemType_value item_type))
  end.

(** The result is a dictionary in every case: an exception becomes a
    failure. *)
Definition _process_single_item (item : DriveItem) (output_path : list string)
    (output_type : string) (parent_path : option (list string)) (d : disk) : entry * disk :=
  match process_body item output_path output_type parent_path d with
  | (Ok result, d') => (result, d')
  | (Raise e, d') => (failure_entry item e, d')
  end.

(** The state of a batch: the disk and the three lists of results. *)
Record batch : Type := {
  b_disk : disk;
  b_successes : list entry;
  b_failures : list entry;
  b_skipped : list entry
}.

(** The [if]/[elif] chain under the lock. *)
Definition record_result (result : entry) (d : disk) (b : batch) : batch :=
  match entry_status result with
  | Some success =>
      {| b_disk := d; b_successes := b_successes b ++ [result];
         b_failures := b_failures b; b_skipped := b_skipped b |}
  | Some failure =>
      {| b_disk := d; b_successes := b_successes b;
         b_failures := b_failures b ++ [result]; b_skipped := b_skipped b |}
  | Some skipped =>
      {| b_disk := d; b_successes := b_successes b;
         b_failures := b_failures b; b_skipped := b_skipped b ++ [result] |}
  | None =>
      {| b_disk := d; b_successes := b_successes b;
         b_failures := b_failures b; b_skipped := b_skipped b |}
  end.

Definition record_failure (fail : entry) (d : disk) (b : batch) : batch :=
  {| b_disk := d; b_successes := b_successes b;
     b_failures := b_failures b ++ [fail]; b_skipped := b_skipped b |}.

(** [process_item_wrapper]: one work unit. *)
Definition process_item_wrapper (output_path : list string) (output_type : string)
    (b : batch) (item_id : string) : batch :=
  match files_get svc item_id with
  | Ok item =>
      let '(result, d) := _process_single_item item output_path output_type None (b_disk b) in
      record_result result d b
  | Raise e =>
      record_failure
        {| entry_status := None; entry_item_id := item_id; entry_name := "Unknown";
           entry_detail := "Failed to fetch item: " +:+ exn_str e |}
        (b_disk b) b
  end.

Definition batch_result (b : batch) : BatchExportResult :=
  let total := length (b_successes b) + length (b_failures b) + length (b_skipped b) in
  {| total_processed := total;
     successes := b_successes b;
     failures := b_failures b;
     skipped_items := b_skipped b |}.

(** The work units are run one after the other, in the order of
    [item_ids]: each appends its result under the lock, and the order in
    which the pool completes them is an order of the list. *)
Definition batch_export_by_ids (item_ids : list string) (output_path : list string)
    (output_type : string) (max_workers : nat) (d : disk) : BatchExportResult * disk :=
  let b := fold_left (process_item_wrapper output_path output_type) item_ids
             {| b_disk := d; b_successes := []; b_failures := []; b_skipped := [] |} in
  (batch_result b, b_disk b).

(** The loop of [_collect_folder_ids_recursive] over the items of a
    folder; [recurse] is the recursive call. *)
Fixpoint collect_subfolders
    (recurse : string → gset string → option (list string * gset string))
    (items : list DriveItem) (folder_ids : list string) (visited : gset string)
    : option (list string * gset string) :=
  match items with
  | [] => Some (folder_ids, visited)
  | item :: rest =>
      if decide (type item = DIRECTORY) then
        match recurse (id item) visited with
        | None => None
        | Some (subfolder_ids, visited) =>
            collect_subfolders recurse rest (folder_ids ++ subfolder_ids) visited
        end
      else collect_subfolders recurse rest folder_ids visited
  end.

(** [_collect_folder_ids_recursive]: the ids of the folders, and the set
    [visited], which the calls share. [None] is a recursion that has not
    returned within [fuel] nested calls. *)
Fixpoint _collect_folder_ids_recursive (fuel : nat) (folder_id : string)
    (visited : gset string) : option (list string * gset string) :=
  match fuel with
  | O => None
  | S fuel' =>
      if decide (folder_id ∈ visited) then Some ([], visited)
      else
        let visited := {[folder_id]} ∪ visited in
        let folder_ids := [folder_id] in
        match list_items svc folder_id with
        | Raise _ => Some (folder_ids, visited)
        | Ok items =>
            collect_subfolders (_collect_folder_ids_recursive fuel') items folder_ids visited
        end
  end.

(** The state of the walk of [batch_export]: the batch, the set [visited]
    and, for the statement of the properties only, the folders entered in
    the order of entry. *)
Record walk : Type := {
  w_batch : batch;
  w_visited : gset string;
  w_entered : list string
}.

Definition set_batch (b : batch) (w : walk) : walk :=
  {| w_batch := b; w_visited := w_visited w; w_entered := w_entered w |}.

Definition set_disk (d : disk) (b : batch) : batch :=
  {| b_disk := d; b_successes := b_successes b;
     b_failures := b_failures b; b_skipped := b_skipped b |}.

Definition opt_str (o : option string) : jvalue :=
  match o with
  | Some s => JStr s
  | None => JNull
  end.

Definition folder_metadata (current_folder_id : string) (current_folder_item : option DriveItem)
    : jvalue :=
  JObj [("item_id", JStr current_folder_id);
        ("item_type", JStr "directory");
        ("name", JStr (default "Root" (name <$> current_folder_item)));
        ("created_time", opt_str (created_time <$> current_folder_item));
        ("modified_time", opt_str (modified_time <$> current_folder_item))].

(** The start of the [try] of a folder: its directory, its metadata, the
    listing of its items and the directory of its children. *)
Definition open_folder (current_folder_id : string) (current_folder_item : option DriveItem)
    (folder_export_path : list string) : io (list DriveItem) :=
  mkdir_parents [] folder_export_path ;;
  write_file (folder_export_path ++ ["metadata.json"])
    (JsonText (folder_metadata current_folder_id current_folder_item)) ;;
  let! items := io_read (fun _ => list_items svc current_folder_id) in
  mkdir_exist_ok (folder_export_path ++ ["children"]) ;;
  io_ret items.

Section Walk.

Variable output_path : list string.
Variable depth : option nat.
Variable output_type : string.

(** [depth is None or current_depth < depth] *)
Definition may_recurse (current_depth : nat) : bool :=
  match depth with
  | None => true
  | Some limit => (current_depth <? limit)%nat
  end.

(** The loop of [collect_and_export_recursive] over the items of a folder;
    [recurse] is the recursive call. *)
Fixpoint export_items
    (recurse : string → option DriveItem → nat → option (list string) → walk → option walk)
    (current_depth : nat) (folder_export_path : list string)
    (items : list DriveItem) (w : walk) : option walk :=
  match items with
  | [] => Some w
  | item :: rest =>
      if decide (type item = DIRECTORY) then
        if may_recurse current_depth then
          match recurse (id item) (Some item) (current_depth + 1) (Some folder_export_path) w with
          | None => None
          | Some w' => export_items recurse current_depth folder_export_path rest w'
          end
        else export_items recurse current_depth folder_export_path rest w
      else
        let '(result, d) :=
          _process_single_item item output_path output_type
            (Some folder_export_path) (b_disk (w_batch w)) in
        export_items recurse current_depth folder_export_path rest
          (set_batch (record_result result d (w_batch w)) w)
  end.

(** [collect_and_export_recursive]; [None] is a recursion that has not
    returned within [fuel] nested calls. *)
Fixpoint collect_and_export_recursive (fuel : nat) (current_folder_id : string)
    (current_folder_item : option DriveItem) (current_depth : nat)
    (parent_export_path : option (list string)) (w : walk) : option walk :=
  match fuel with
  | O => None
  | S fuel' =>
      if decide (current_folder_id ∈ w_visited w) then Some w
      else
        let w := {| w_batch := w_batch w;
                    w_visited := {[current_folder_id]} ∪ w_visited w;
                    w_entered := w_entered w ++ [current_folder_id] |} in
        let folder_export_path :=
          match parent_export_path with
          | Some p => p ++ ["children"; current_folder_id]
          | None => output_path ++ [current_folder_id]
          end in
        match open_folder current_folder_id current_folder_item folder_export_path
                (b_disk (w_batch w)) with
        | (Raise e, d) =>
            Some (set_batch
                    (record_failure
                       {| entry_status := None; entry_item_id := current_folder_id;
                          entry_name := default "Unknown" (name <$> current_folder_item);
                          entry_detail := "Failed to process folder: " +:+ exn_str e |}
                       d (w_batch w)) w)
        | (Ok items, d) =>
            export_items (collect_and_export_recursive fuel') current_depth folder_export_path
              items (set_batch (set_disk d (w_batch w)) w)
        end
  end.

(** [batch_export]: the result, the disk and the walk. *)
Definition batch_export (fuel : nat) (folder_id : string) (d : disk)
    : option (BatchExportResult * walk) :=
  let root_folder_item :=
    match get_item folder_id with
    | Ok item => Some item
    | Raise _ => None
    end in
  match collect_and_export_recursive fuel folder_id root_folder_item 0 None
          {| w_batch := {| b_disk := d; b_successes := []; b_failures := []; b_skipped := [] |};
             w_visited := ∅; w_entered := [] |} with
  | None => None
  | Some w => Some (batch_result (w_batch w), w)
  end.

End Walk.

End Client.

End Drive.

(** * Notions of the statements *)

Module Notions.

Import Drive.

(** ** Comment fetch *)

(** The listing of the comments fails: the request for some page of the
    chain raises. *)
Inductive listing_fails : listing → Prop :=
| fails_here (e : exn) : listing_fails (ListFails e)
| fails_later (page : list raw_comment) (l : listing) :
    listing_fails l → listing_fails (ListPage page (Some l)).

(** The same collaborators, with another answer for the comments. *)
Definition with_comments (svc : services) (answer : string → listing) : services :=
  {| files_get := files_get svc;
     list_items := list_items svc;
     comments_list := answer;
     format_time := format_time svc;
     get_media := get_media svc;
     export_docs_to_markdown := export_docs_to_markdown svc;
     export_docs_to_html := export_docs_to_html svc;
     export_docs_to_pdf := export_docs_to_pdf svc;
     export_slides_via_api := export_slides_via_api svc;
     export_slides_to_pdf := export_slides_to_pdf svc;
     fetch_spreadsheet_data := fetch_spreadsheet_data svc;
     export_sheets_to_html := export_sheets_to_html svc;
     export_sheets_to_pdf := export_sheets_to_pdf svc;
     comment_ref_anchors := comment_ref_anchors svc;
     extract_assets_from_markdown := extract_assets_from_markdown svc;
     json_loads := json_loads svc;
     json_dumps := json_dumps svc;
     img_srcs := img_srcs svc;
     b64decode := b64decode svc;
     urlopen := urlopen svc;
     requests_get := requests_get svc |}.

(** A document without comments: one empty page. *)
Definition no_comments : string → listing := fun _ => ListPage [] None.

(** A service that knows the items of [items] by id and the folders of
    [folders] by id, exports every document as the text [body], and whose
    comment listing is [answer]. *)
Definition table_find {A : Type} (key : string) (table : list (string * A)) : option A :=
  snd <$> List.find (fun kv => String.eqb kv.1 key) table.

Definition small_service (items : list DriveItem) (folders : list (string * list DriveItem))
    (body : string) (answer : string → listing) : services :=
  {| files_get := fun i =>
       match List.find (fun it => String.eqb (id it) i) items with
       | Some it => Ok it
       | None => Raise TransportError
       end;
     list_items := fun i =>
       match table_find i folders with
       | Some l => Ok l
       | None => Raise TransportError
       end;
     comments_list := answer;
     format_time := fun t => Ok t;
     get_media := fun _ => Ok body;
     export_docs_to_markdown := fun _ => Ok body;
     export_docs_to_html := fun _ => Ok "";
     export_docs_to_pdf := fun _ => Ok body;
     export_slides_via_api := fun _ => Raise TransportError;
     export_slides_to_pdf := fun _ => Ok body;
     fetch_spreadsheet_data := fun _ => Raise TransportError;
     export_sheets_to_html := fun _ => Raise TransportError;
     export_sheets_to_pdf := fun _ => Ok body;
     comment_ref_anchors := fun _ => [];
     extract_assets_from_markdown := fun md => (md, []);
     json_loads := fun _ => None;
     json_dumps := fun _ => "";
     img_srcs := fun _ => [];
     b64decode := fun _ => Raise (ValueError "base64");
     urlopen := fun _ => Raise TransportError;
     requests_get := fun _ => Raise TransportError |}.

Definition item_of (i : string) (t : ItemType) : DriveItem :=
  {| id := i; name := i; type := t; created_time := "2024-01-01T00:00:00Z";
     modified_time := "2024-01-02T00:00:00Z"; export_links := [] |}.

(** One document, whose comment listing fails at its second page. *)
Definition flaky_comments_service : services :=
  small_service [item_of "doc" DOCS_DOCUMENT] [] "text"
    (fun _ => ListPage [] (Some (ListFails TransportError))).

(** ** Extraction of remote assets *)

(** The URLs the converter downloads, slide by slide. *)
Definition image_urls (deck : SlidesConverters.presentation) : list string :=
  flat_map (fun s =>
              omap (fun im =>
                      match SlidesConverters.url im with
                      | Some u => if String.eqb u "" then None else Some u
                      | None => None
                      end)
                   (SlidesConverters.images s))
           (SlidesConverters.slides deck).

(** The body of a download that is kept: the fetch succeeded and the body
    is not empty. *)
Definition kept_body (requests_get : string → result (string * option string)) (u : string)
    : option string :=
  match requests_get u with
  | Ok (body, _) => if String.eqb body "" then None else Some body
  | Raise _ => None
  end.

(** The bytes the extraction of a sheet export keeps for an image source:
    the decoded payload of a data URI, the body of a remote image that
    could be fetched, nothing otherwise. *)
Definition sheet_body (b64decode : string → result string)
    (urlopen : string → result (string * option string)) (src : string) : option string :=
  if startswith "data:" src then
    match SheetsConverters.split_second ";base64," src with
    | Some base64_data =>
        match b64decode base64_data with
        | Ok binary_data => Some binary_data
        | Raise _ => None
        end
    | None => None
    end
  else if startswith "http://" src || startswith "https://" src then
    match urlopen src with
    | Ok (body, _) => Some body
    | Raise _ => None
    end
  else None.

(** The claim on placeholders, as the specification states it: a fetch
    that fails leaves an asset with empty content in the list. *)
Definition placeholder_recorded : Prop :=
  ∀ requests_get deck cs u,
    u ∈ image_urls deck →
    (∃ e, requests_get u = Raise e) →
    ∃ a, a ∈ (SlidesConverters.convert_slides_to_markdown requests_get deck cs).2
         ∧ asset_content a = "".

(** A deck of one slide with one remote image. *)
Definition one_image_deck : SlidesConverters.presentation :=
  {| SlidesConverters.presentation_title := "Deck";
     SlidesConverters.slides :=
       [ {| SlidesConverters.slide_index := 0;
            SlidesConverters.text_content := "Title";
            SlidesConverters.speaker_notes := "";
            SlidesConverters.images := [ {| SlidesConverters.url := Some "https://host/a.png" |} ] |} ] |}.

(** A deck of one slide with three remote images. *)
Definition three_image_deck : SlidesConverters.presentation :=
  {| SlidesConverters.presentation_title := "Deck";
     SlidesConverters.slides :=
       [ {| SlidesConverters.slide_index := 0;
            SlidesConverters.text_content := "Title";
            SlidesConverters.speaker_notes := "";
            SlidesConverters.images :=
              [ {| SlidesConverters.url := Some "https://host/a.png" |};
                {| SlidesConverters.url := Some "https://host/b.png" |};
                {| SlidesConverters.url := Some "https://host/c.png" |} ] |} ] |}.

(** The host serves every image but [b.png]. *)
Definition host_without_b (u : string) : result (string * option string) :=
  if String.eqb u "https://host/b.png" then Raise TransportError
  else Ok ("bytes of " +:+ u, Some "image/png").

(** ** Comments of a sheet *)

(** The claim on tabular anchors, as the specification states it: the
    anchor fixes the cell, so that two comments with the same anchor that
    are attached to cells are attached to the same cell. *)
Definition anchor_fixes_cell : Prop :=
  ∀ json_loads index (c1 c2 : comment) loc1 loc2,
    anchor c1 = anchor c2 →
    SheetsConverters.comment_cell json_loads index c1 = Some loc1 →
    SheetsConverters.comment_cell json_loads index c2 = Some loc2 →
    loc1 = loc2.

(** The cell at [(row_idx, col_idx)] of [rows] reads [snippet], white space
    at both ends apart. *)
Definition cell_reads (snippet : string) (rows : list (list SheetsConverters.cell_value))
    (row_idx col_idx : nat) : Prop :=
  ∃ row cell, rows !! row_idx = Some row ∧ row !! col_idx = Some cell
              ∧ strip (SheetsConverters.cell_str cell) = snippet.

(** Row-major order of cells. *)
Definition cell_before (r' c' r c : nat) : Prop := r' < r ∨ (r' = r ∧ c' < c).

(** The key of the cell a comment is attached to. *)
Definition attached_key (json_loads : string → option jvalue)
    (index : gmap Z SheetsConverters.sheet) (c : comment) : option string :=
  (fun loc => SheetsConverters.cell_key loc.1.1 loc.1.2 loc.2)
    <$> SheetsConverters.comment_cell json_loads index c.

(** The indices of the comments attached to the cell of key [key]. *)
Definition indices_at (json_loads : string → option jvalue)
    (index : gmap Z SheetsConverters.sheet) (key : string) (ics : list (nat * comment))
    : list nat :=
  map fst (filter (fun ic => attached_key json_loads index ic.2 = Some key) ics).

(** A sheet of one row, and a comment on it with a snippet. *)
Definition xy_sheet : SheetsConverters.sheet :=
  {| SheetsConverters.sheet_name := "Sheet1";
     SheetsConverters.sheet_id := 0;
     SheetsConverters.data_rows :=
       [[SheetsConverters.CellStr "x"; SheetsConverters.CellStr "y"]] |}.

Definition sheet_comment (s : string) : comment :=
  {| comment_id := "c"; author := "Ann"; comment_content := "check"; snippet := s;
     createdTime := "2024-01-01 10:00"; modifiedTime := "2024-01-01 10:00";
     resolved := false;
     anchor := AnchorObj (JObj [("type", JStr "workbook-range"); ("uid", JNum 0);
                                ("range", JStr "303498729")]);
     replies := [] |}.

(** ** Results of a batch *)

(** The list a result dictionary is appended to: a dictionary without
    status is that of a fetch that failed. *)
Definition outcome (e : entry) : status :=
  match entry_status e with
  | Some s => s
  | None => failure
  end.

#[export] Instance status_eq_dec : EqDecision status.
Proof. solve_decision. Defined.

(** The dictionary one work unit produces from the disk [d], and the disk
    it leaves. *)
Definition unit_result (svc : services) (output_path : list string) (output_type : string)
    (d : disk) (item_id : string) : entry * disk :=
  match files_get svc item_id with
  | Ok item => _process_single_item svc item output_path output_type None d
  | Raise e =>
      ({| entry_status := None; entry_item_id := item_id; entry_name := "Unknown";
          entry_detail := "Failed to fetch item: " +:+ exn_str e |}, d)
  end.

(** The dictionaries of the work units of a batch, one per id, each unit
    starting from the disk the one before left. *)
Fixpoint unit_results (svc : services) (output_path : list string) (output_type : string)
    (item_ids : list string) (d : disk) : list entry :=
  match item_ids with
  | [] => []
  | item_id :: rest =>
      let r := unit_result svc output_path output_type d item_id in
      r.1 :: unit_results svc output_path output_type rest r.2
  end.

Definition with_outcome (s : status) (l : list entry) : list entry :=
  filter (fun e => outcome e = s) l.

Definition fetch_fails (svc : services) (item_id : string) : bool :=
  match files_get svc item_id with
  | Ok _ => false
  | Raise _ => true
  end.

Definition is_directory (svc : services) (item_id : string) : bool :=
  match files_get svc item_id with
  | Ok item => bool_decide (type item = DIRECTORY)
  | Raise _ => false
  end.

(** Three of five ids are known to the service: a folder and two
    documents. *)
Definition five_ids : list string := ["gone1"; "doc1"; "dir1"; "gone2"; "doc2"].

Definition five_service : services :=
  small_service [item_of "doc1" DOCS_DOCUMENT; item_of "dir1" DIRECTORY;
                 item_of "doc2" DOCS_DOCUMENT] [] "text" no_comments.

(** ** Folder graphs *)

(** [U] holds the folders of a graph: the subfolders the service lists in a
    folder of [U] are in [U]. *)
Definition closed_folders (svc : services) (U : gset string) : Prop :=
  ∀ folder_id items item,
    folder_id ∈ U → list_items svc folder_id = Ok items → item ∈ items →
    type item = DIRECTORY → id item ∈ U.

(** The folders a call enters: none of them is in [visited] before, none
    is entered twice, and [visited'] is [visited] with them. *)
Definition enters_once (U visited : gset string) (new : list string) (visited' : gset string)
    : Prop :=
  NoDup new ∧ (∀ x, x ∈ new → (x ∉ visited) ∧ x ∈ U) ∧ visited' = visited ∪ list_to_set new.

(** Two folders, each listed in the other: A → B → A. *)
Definition cycle_service : services :=
  small_service [item_of "A" DIRECTORY; item_of "B" DIRECTORY]
    [("A", [item_of "B" DIRECTORY; item_of "doc" DOCS_DOCUMENT]);
     ("B", [item_of "A" DIRECTORY])]
    "text" no_comments.

Definition cycle_folders : gset string := {[ "A"; "B" ]}.

(** ** The cache *)

(** The path of the metadata record of an item. *)
Definition metadata_path (item_id : string) (base_path : list string) : list string :=
  base_path ++ [item_id] ++ ["metadata.json"].

(** The claim on freshness, as the specification states it: after the
    write of an item, the item is skipped at its own modified time. *)
Definition skipped_after_write : Prop :=
  ∀ (exported_item : ExportedItem) base_path d p d',
    Cache.save_to_disk exported_item base_path d = (Ok p, d') →
    Cache.should_skip_export (item_id exported_item) (item_modified_time exported_item)
      base_path d' = Ok true.

(** A markdown export with two images, and one without modified time. *)
Definition png_asset : ExportedAsset :=
  {| asset_name := "image1.png"; asset_content := "PNG"; asset_anchor := "image1";
     asset_mime_type := "image/png" |}.

Definition jpg_asset : ExportedAsset :=
  {| asset_name := "image2.jpg"; asset_content := "JPG"; asset_anchor := "image2";
     asset_mime_type := "image/jpg" |}.

Definition sample_export (modified : string) (assets : list ExportedAsset) : ExportedItem :=
  {| item_id := "doc1"; item_type := DOCS_DOCUMENT; title := "Notes";
     item_created_time := "2024-01-01T00:00:00Z"; item_modified_time := modified;
     content := StrContent "# Notes"; content_format := "markdown";
     assets := assets; comments := JArr [] |}.

(** The metadata record of an item is corrupt: it cannot be read as a
    file, or its bytes are not a JSON document. *)
Definition corrupt_record (item_id : string) (base_path : list string) (d : disk) : Prop :=
  d !! metadata_path item_id base_path = Some Dir
  ∨ ∃ b, d !! metadata_path item_id base_path = Some (File (RawBytes b)).

(** The metadata record of an item is an object without modified time. *)
Definition record_without_time (item_id : string) (base_path : list string) (d : disk) : Prop :=
  ∃ members,
    d !! metadata_path item_id base_path = Some (File (JsonText (JObj members)))
    ∧ members_get "modified_time" members = None.

(** A disk whose record for [doc1] was cut short. *)
Definition truncated_disk : disk :=
  {[ ["out"] := Dir; ["out"; "doc1"] := Dir;
     ["out"; "doc1"; "metadata.json"] := File (RawBytes "{ item_id: ") ]}.

(** ** Round trip through the cache *)

(** The carriage return, which a text file read in text mode does not
    give back. *)
Definition carriage_return : ascii := ascii_of_nat 13.

(** A name that is one component of a path. *)
Definition single_component (s : string) : Prop :=
  s ≠ "" ∧ s ≠ "." ∧ s ≠ ".." ∧ SheetsConverters.has_char "/" s = false.

(** The asset [load_from_disk] builds from the file of an asset: the
    anchor and the mime type come from the name. *)
Definition reloaded (a : ExportedAsset) : ExportedAsset :=
  {| asset_name := asset_name a;
     asset_content := asset_content a;
     asset_anchor := Cache.stem (asset_name a);
     asset_mime_type := Cache.mime_of_name (asset_name a) |}.

(** The content a read gives back for a content written. *)
Definition reread (c : content_data) : content_data :=
  match c with
  | StrContent s => StrContent (universal_newlines s)
  | BytesContent b => BytesContent b
  end.

(** The directory of the assets of an item. *)
Definition assets_path (item_id : string) (base_path : list string) : list string :=
  base_path ++ [item_id] ++ ["assets"].

(** The directory of the assets holds nothing an earlier export left
    under a name the export does not write again, and is not a file. *)
Definition no_stale_asset (exported_item : ExportedItem) (base_path : list string) (d : disk)
    : Prop :=
  (∀ data, d !! assets_path (item_id exported_item) base_path ≠ Some (File data))
  ∧ ∀ name,
      is_Some (d !! (assets_path (item_id exported_item) base_path ++ [name])) →
      name ∈ map asset_name (assets exported_item).

(** The claim on the round trip of assets, as the specification states
    it: the mime type of every asset is the one written. *)
Definition mime_preserved : Prop :=
  ∀ json_dumps (exported_item : ExportedItem) base_path d p d' loaded,
    Cache.save_to_disk exported_item base_path d = (Ok p, d') →
    Cache.load_from_disk json_dumps (item_id exported_item) base_path d' = Ok loaded →
    ∀ a, a ∈ assets exported_item →
      ∃ a', a' ∈ assets loaded ∧ asset_name a' = asset_name a
            ∧ asset_content a' = asset_content a
            ∧ asset_mime_type a' = asset_mime_type a.

(** ** Markers in a text *)

(** The text before and the text after the leftmost occurrence of [pat]. *)
Fixpoint split_first (pat s : string) : option (string * string) :=
  if startswith pat s then Some ("", str_drop (String.length pat) s)
  else match s with
       | EmptyString => None
       | String c rest =>
           match split_first pat rest with
           | Some (x, y) => Some (String c x, y)
           | None => None
           end
       end.

(** The positions at which [pat] occurs in [s]. *)
Fixpoint occurrences (pat s : string) : list nat :=
  (if startswith pat s then [0] else [])
  ++ match s with
     | EmptyString => []
     | String _ rest => map S (occurrences pat rest)
     end.

(** Some occurrence of [s] ends strictly inside an occurrence of [t]: a
    marker put after [s] would cut [t]. *)
Definition ends_inside (content s t : string) : bool :=
  existsb (fun i =>
             existsb (fun j =>
                        (j <? i + String.length s)%nat
                        && (i + String.length s <? j + String.length t)%nat)
                     (occurrences t content))
          (occurrences s content).

(** No snippet of the list is cut by the marker of an earlier one. *)
Fixpoint compatible (content : string) (snippets : list string) : bool :=
  match snippets with
  | [] => true
  | s :: rest => forallb (fun t => negb (ends_inside content s t)) rest
                 && compatible content rest
  end.

(** A snippet that is not empty and has no bracket, the characters of
    the markers. *)
Definition plain (s : string) : bool :=
  negb (String.eqb s "") && negb (SheetsConverters.has_char "[" s)
  && negb (SheetsConverters.has_char "]" s).

(** [after] is [before] with the markers numbered from [k] on, one per
    snippet in the order of the list, each right after an occurrence of
    its snippet in the text as it stands. *)
Inductive marked : nat → list string → string → string → Prop :=
| marked_nil (k : nat) (c : string) : marked k [] c c
| marked_cons (k : nat) (s : string) (rest : list string) (x y after : string) :
    marked (S k) rest (x +:+ s +:+ DocsConverters.marker k +:+ y) after →
    marked k (s :: rest) (x +:+ s +:+ y) after.

(** The length of the markers numbered from [k] on, [n] of them. *)
Fixpoint markers_length (k n : nat) : nat :=
  match n with
  | O => 0
  | S n' => (String.length (DocsConverters.marker k) + markers_length (S k) n')%nat
  end.

(** The entry of the trailing block for the comment numbered [k]. *)
Definition entry_lines (k : nat) (c : comment) : list string :=
  ["### [" +:+ str_of_nat k +:+ "]"; "";
   "[" +:+ createdTime c +:+ "] " +:+ author c +:+ ": " +:+ comment_content c; ""]
  ++ map DocsConverters.reply_line (replies c)
  ++ match replies c with [] => [] | _ => [""] end.

(** The claim on identical snippets, as the specification states it, for
    two comments: both markers follow the first occurrence. *)
Definition same_snippet_same_place : Prop :=
  ∀ anchors content html (c1 c2 : comment) x y,
    snippet c1 = snippet c2 → snippet c1 ≠ "" →
    split_first (snippet c1) content = Some (x, y) →
    DocsConverters.add_comment_markers_to_markdown anchors content html [c1; c2]
    = x +:+ snippet c1 +:+ DocsConverters.marker 2 +:+ DocsConverters.marker 1 +:+ y.

(** The claim on snippets that occur once, as the specification states
    it: each of the comments gets its marker, so that the text grows by
    the length of all the markers. *)
Definition unique_snippets_all_marked : Prop :=
  ∀ (anchors : string → list nat) content html (comments : list comment),
    (length comments ≤ length (anchors html))%nat →
    (∀ c, c ∈ comments →
          snippet c ≠ "" ∧ length (occurrences (snippet c) content) = 1) →
    String.length (DocsConverters.add_comment_markers_to_markdown anchors content html comments)
    = (String.length content + markers_length 1 (length comments))%nat.

(** A comment on a snippet. *)
Definition comment_on (s : string) : comment :=
  {| comment_id := "c"; author := "Ann"; comment_content := "check"; snippet := s;
     createdTime := "2024-01-01 10:00"; modifiedTime := "2024-01-01 10:00";
     resolved := false; anchor := AnchorStr ""; replies := [] |}.

(** ** Names of assets *)

(** The number a text of decimal digits reads as. *)
Definition read_number (s : string) : option nat :=
  option_map Nat.of_uint (NilEmpty.uint_of_string s).

(** The asset [a] with the mime type [m]. *)
Definition with_mime (a : ExportedAsset) (m : string) : ExportedAsset :=
  {| asset_name := asset_name a;
     asset_content := asset_content a;
     asset_anchor := asset_anchor a;
     asset_mime_type := m |}.

(** The mime type [load_from_disk] gives a file with the extension
    [ext]. *)
Definition mime_of_extension (ext : string) : string :=
  SheetsConverters.table_get ext Cache.ext_to_mime "application/octet-stream".

(** An extension of the tables of the converters. *)
Definition table_extension (ext : string) : Prop :=
  ∃ e, ext = String "." e ∧ e ≠ "" ∧ SheetsConverters.has_char "." e = false
       ∧ lower ext = ext.


(** The mime types an asset of a sheet export keeps over a save and a
    reload. *)
Definition sheet_mimes_kept : list string :=
  ["image/png"; "image/jpeg"; "image/gif"; "image/svg+xml"; "image/webp";
   "application/pdf"; "application/octet-stream"].

(** The mime types an image of a deck keeps over a save and a reload. *)
Definition slide_mimes_kept : list string :=
  ["image/png"; "image/jpeg"; "image/gif"; "image/svg+xml"; "image/webp"].

(** ** Comments of a deck *)

(** The position the slides converter gives a comment: none for a snippet
    of white space, and else the snippet without the white space at its
    ends with the first slide whose text contains it. *)
Definition slide_position (slides_data : list SlidesConverters.slide) (it : nat * comment)
    : option (nat * (string * option nat)) :=
  let snippet := strip (snippet it.2) in
  if String.eqb snippet "" then None
  else Some (it.1, (snippet, SlidesConverters.find_slide snippet slides_data 0)).

(** The text of the slide at [slide_idx] contains [snippet]. *)
Definition slide_contains (snippet : string) (slides_data : list SlidesConverters.slide)
    (slide_idx : nat) : Prop :=
  ∃ s, slides_data !! slide_idx = Some s
       ∧ str_in snippet (SlidesConverters.text_content s) = true.

(** ** The client *)

(** The comments of all the pages of a listing, when no request for a
    page fails. *)
Fixpoint listed (l : listing) : option (list raw_comment) :=
  match l with
  | ListFails _ => None
  | ListPage page next =>
      match next with
      | Some l' => app page <$> listed l'
      | None => Some page
      end
  end.

(** A document with the comments [cs] on one page. *)
Definition one_page_service (cs : list raw_comment) : services :=
  small_service [item_of "doc" DOCS_DOCUMENT] [] "text" (fun _ => ListPage cs None).

(** A comment as the service sends it, with or without its id. *)
Definition raw_comment_of (the_id : option string) : raw_comment :=
  {| raw_id := the_id; raw_author := Some "Ann"; raw_content := Some "check";
     raw_quoted := Some "foo"; raw_createdTime := Some "2024-01-01T10:00:00Z";
     raw_modifiedTime := Some "2024-01-01T10:00:00Z"; raw_resolved := None;
     raw_anchor := None; raw_replies := [] |}.

(** [c] is a folder the service lists in the folder [f]. *)
Definition subfolder (svc : services) (f c : string) : Prop :=
  ∃ items item, list_items svc f = Ok items ∧ item ∈ items
                ∧ type item = DIRECTORY ∧ id item = c.

(** The folders below [root], [root] included. *)
Inductive reachable (svc : services) (root : string) : string → Prop :=
| reachable_root : reachable svc root root
| reachable_step (f c : string) :
    reachable svc root f → subfolder svc f c → reachable svc root c.

(** What a call on the folder [f] with the set [v] gives: the folders it
    returns are below [f] and are those it adds to the set, [f] is in the
    set, and the subfolders of the folders it adds are in the set. *)
Definition collects (svc : services) (f : string) (v : gset string) (ids : list string) (v' : gset string)
    : Prop :=
  v' = v ∪ list_to_set ids
  ∧ f ∈ v'
  ∧ (∀ x, x ∈ ids → reachable svc f x)
  ∧ ∀ x c, x ∈ v' → x ∉ v → subfolder svc x c → c ∈ v'.


(** ** A text with the markers inserted *)

(** A text into which markers were inserted: the characters of the
    content, each with the text inserted before it, and the text inserted
    at the end. *)
Inductive marked_text : Type :=
| Last (inserted : string)
| Seg (inserted : string) (c : ascii) (rest : marked_text).

(** The text as it stands. *)
Fixpoint render (d : marked_text) : string :=
  match d with
  | Last o => o
  | Seg o c rest => o +:+ String c (render rest)
  end.

(** The content. *)
Fixpoint orig (d : marked_text) : string :=
  match d with
  | Last _ => ""
  | Seg _ c rest => String c (orig rest)
  end.

(** The texts inserted, by position in the content. *)
Fixpoint gaps (d : marked_text) : list string :=
  match d with
  | Last o => [o]
  | Seg o _ rest => o :: gaps rest
  end.

(** A content with nothing inserted. *)
Fixpoint unmarked (s : string) : marked_text :=
  match s with
  | EmptyString => Last ""
  | String c rest => Seg "" c (unmarked rest)
  end.

(** A text inserted is empty or runs from an opening to a closing
    bracket. *)
Definition bracketed (o : string) : Prop :=
  o = "" ∨ ((∃ t, o = String "[" t) ∧ ∃ t, o = t +:+ "]").

(** No text is inserted strictly inside an occurrence of [t] in the
    content. *)
Definition untouched (d : marked_text) (t : string) : Prop :=
  ∀ a b k, orig d = a +:+ t +:+ b →
           String.length a < k → k < String.length a + String.length t →
           gaps d !! k = Some "".

(** The loop of the markers on the snippets, numbered from [k]. *)
Fixpoint mark_all (k : nat) (snippets : list string) (text : string) : string :=
  match snippets with
  | [] => text
  | s :: rest => mark_all (S k) rest (re_sub_once s (DocsConverters.marker k) text)
  end.

End Notions.
Import Notions.

(** * Properties *)

Open Scope nat_scope.

(** ** The comment fetch of the client (C9) *)

Section CommentFetch.

Import Drive.

Lemma fetch_pages_fails (l : listing) :
  listing_fails l → ∀ acc, ∃ e, fetch_pages l acc = Raise e.
Proof.
  induction 1 as [e | page l Hl IH]; intros acc; simpl.
  - by exists e.
  - apply IH.
Qed.

Lemma get_comments_fails (svc : services) (file_id : string) :
  listing_fails (comments_list svc file_id) → get_comments svc file_id = [].
Proof.
  intros Hf. unfold get_comments, get_comments_body.
  destruct (fetch_pages_fails _ Hf []) as [e ->]. reflexivity.
Qed.

Lemma get_comments_none (svc : services) (file_id : string) :
  get_comments (with_comments svc no_comments) file_id = [].
Proof. reflexivity. Qed.

Lemma export_content_comments (svc : services) item item_id output_type cs r :
  export_content svc item item_id output_type cs = Ok r →
  r.2 = cs ∨ (type item = DOCS_SHEETS ∧ r.2 = get_comments svc item_id).
Proof.
  unfold export_content. intros H.
  destruct (type item) eqn:Ht; try discriminate;
    destruct (String.eqb output_type "markdown");
    repeat match type of H with
           | rbind ?x _ = _ => destruct x; simpl in H; try discriminate
           | (let '(_, _) := ?x in _) = _ => destruct x
           end;
    inversion H; subst; simpl; auto.
Qed.

(** C9. [get_comments] has no exceptional result; when the listing of the
    comments of a file fails at any page, it returns the empty list, and
    the export of the item is then the export of a document without
    comments: it proceeds, and an export that succeeds carries an empty
    comment list. *)
Theorem get_comments_failure_is_empty (svc : services) (file_id : string) :
  listing_fails (comments_list svc file_id) →
  get_comments svc file_id = []
  ∧ (∀ output_type save base d,
       export_document svc file_id output_type save base d
       = export_document (with_comments svc no_comments) file_id output_type save base d)
  ∧ (∀ output_type save base d e d',
       export_document svc file_id output_type save base d = (Ok e, d') →
       comments e = JArr []).
Proof.
  intros Hf. pose proof (get_comments_fails svc file_id Hf) as Hg.
  assert (Hc : ∀ item output_type cs,
             export_content svc item file_id output_type cs
             = export_content (with_comments svc no_comments) item file_id output_type cs).
  { intros item output_type cs. unfold export_content.
    rewrite Hg, get_comments_none. reflexivity. }
  split; [exact Hg | split].
  - intros output_type save base d.
    unfold export_document, io_bind, io_read. simpl.
    unfold get_item. simpl.
    destruct (files_get svc file_id) as [item | e]; [| reflexivity].
    destruct (exportable (type item)); simpl; [| reflexivity].
    destruct (String.eqb output_type "markdown" || String.eqb output_type "pdf"); simpl;
      [| reflexivity].
    rewrite Hg, get_comments_none.
    assert (Hcs : match type item with
                  | DOCS_DOCUMENT | DOCS_SLIDES => ([] : list comment)
                  | _ => []
                  end = []) by (by destruct (type item)).
    rewrite Hcs, Hc. reflexivity.
  - intros output_type save base d e d'.
    unfold export_document, io_bind, io_read, io_raise, io_ret. simpl.
    unfold get_item.
    destruct (files_get svc file_id) as [item | ex]; [| discriminate].
    destruct (exportable (type item)); simpl; [| discriminate].
    destruct (String.eqb output_type "markdown" || String.eqb output_type "pdf"); simpl;
      [| discriminate].
    rewrite Hg.
    assert (Hcs : match type item with
                  | DOCS_DOCUMENT | DOCS_SLIDES => ([] : list comment)
                  | _ => []
                  end = []) by (by destruct (type item)).
    rewrite Hcs.
    destruct (export_content svc item file_id output_type []) as [r | ex] eqn:Hr;
      [| discriminate].
    pose proof (export_content_comments _ _ _ _ _ _ Hr) as Hcm.
    destruct r as [[[c f] a] cs]. simpl in Hcm.
    assert (cs = []) as -> by (destruct Hcm as [-> | [_ ->]]; [reflexivity | exact Hg]).
    destruct save; simpl.
    + destruct (Cache.save_to_disk _ base d) as [[p | ex] d2]; simpl;
        intros H; inversion H; reflexivity.
    + intros H; inversion H; reflexivity.
Qed.

(** The listing of the only document fails at its second page; the export
    of the document succeeds, without comments. *)
Lemma get_comments_failure_is_empty_witness :
  get_comments flaky_comments_service "doc" = []
  ∧ (∃ e d', export_document flaky_comments_service "doc" "markdown" false ["out"] ∅
              = (Ok e, d')
              ∧ comments e = JArr []).
Proof.
  assert (Hf : listing_fails (comments_list flaky_comments_service "doc"))
    by (simpl; apply fails_later, fails_here).
  destruct (get_comments_failure_is_empty flaky_comments_service "doc" Hf) as (Hg & _ & Hc).
  split; [exact Hg |].
  eexists _, _. split; [reflexivity |].
  eapply (Hc "markdown" false ["out"] ∅). reflexivity.
Defined.

End CommentFetch.

(** ** Extraction of remote assets (C5) *)

Section RemoteAssets.

Import SlidesConverters.

Variable requests_get : string → result (string * option string).

(** The assets the loops keep, from a counter on. *)
Fixpoint kept_assets (urls : list string) (counter : nat) : list ExportedAsset :=
  match urls with
  | [] => []
  | u :: rest =>
      let asset := _download_image_from_url requests_get u counter in
      if String.eqb (asset_content asset) "" then kept_assets rest counter
      else asset :: kept_assets rest (counter + 1)
  end.

Definition slide_urls (s : slide) : list string :=
  omap (fun im =>
          match url im with
          | Some u => if String.eqb u "" then None else Some u
          | None => None
          end) (images s).

Lemma image_step_fold (imgs : list image) parts assets counter :
  ∃ parts',
    fold_left (image_step requests_get) imgs (parts, assets, counter)
    = (parts',
       assets ++ kept_assets (omap (fun im =>
                                      match url im with
                                      | Some u => if String.eqb u "" then None else Some u
                                      | None => None
                                      end) imgs) counter,
       counter + length (kept_assets (omap (fun im =>
                                      match url im with
                                      | Some u => if String.eqb u "" then None else Some u
                                      | None => None
                                      end) imgs) counter)).
Proof.
  revert parts assets counter.
  induction imgs as [| im imgs IH]; intros parts assets counter; simpl.
  - exists parts. by rewrite app_nil_r, Nat.add_0_r.
  - destruct (url im) as [u |]; simpl; [| apply IH].
    destruct (String.eqb u "") eqn:Hu; simpl; [apply IH |].
    destruct (String.eqb (asset_content (_download_image_from_url requests_get u counter)) "")
      eqn:Hc; simpl.
    + apply IH.
    + destruct (IH (parts ++
          [newline +:+ "![" +:+
           asset_anchor (_download_image_from_url requests_get u counter) +:+ "](assets/" +:+
           asset_name (_download_image_from_url requests_get u counter) +:+ ")" +:+ newline])
          (assets ++ [_download_image_from_url requests_get u counter]) (counter + 1))
        as [parts' ->].
      exists parts'. rewrite <- app_assoc. simpl. f_equal.
      rewrite <- Nat.add_assoc. reflexivity.
Qed.

Lemma kept_assets_app (l1 l2 : list string) counter :
  kept_assets (l1 ++ l2) counter
  = kept_assets l1 counter ++ kept_assets l2 (counter + length (kept_assets l1 counter)).
Proof.
  revert counter. induction l1 as [| u l1 IH]; intros counter; simpl.
  - by rewrite Nat.add_0_r.
  - destruct (String.eqb _ ""); simpl; rewrite IH; [done |].
    do 3 f_equal. lia.
Qed.

Lemma slide_step_fold (ss : list slide) parts assets counter :
  ∃ parts',
    fold_left (slide_step requests_get) ss (parts, assets, counter)
    = (parts', assets ++ kept_assets (flat_map slide_urls ss) counter,
       counter + length (kept_assets (flat_map slide_urls ss) counter)).
Proof.
  revert parts assets counter.
  induction ss as [| s ss IH]; intros parts assets counter; simpl.
  - exists parts. by rewrite app_nil_r, Nat.add_0_r.
  - match goal with
    | |- context [fold_left (image_step requests_get) (images s) (?p, assets, counter)] =>
        destruct (image_step_fold (images s) p assets counter) as [parts1 ->]
    end.
    fold (slide_urls s).
    match goal with
    | |- context [fold_left _ ss (?p, _, _)] =>
        destruct (IH p (assets ++ kept_assets (slide_urls s) counter)
                    (counter + length (kept_assets (slide_urls s) counter))) as [parts' ->]
    end.
    exists parts'. rewrite kept_assets_app, <- app_assoc, length_app.
    rewrite Nat.add_assoc. reflexivity.
Qed.

Lemma convert_slides_assets (deck : presentation) (cs : list comment) :
  (convert_slides_to_markdown requests_get deck cs).2 = kept_assets (image_urls deck) 1.
Proof.
  unfold convert_slides_to_markdown, image_urls.
  destruct (slides deck) as [| s ss] eqn:Hs; [reflexivity |].
  destruct (slide_step_fold (s :: ss) [] [] 1) as [parts' ->]. reflexivity.
Qed.

Lemma download_content (u : string) (counter : nat) :
  asset_content (_download_image_from_url requests_get u counter)
  = match requests_get u with Ok (body, _) => body | Raise _ => "" end.
Proof.
  unfold _download_image_from_url.
  destruct (requests_get u) as [[body header] | e]; reflexivity.
Qed.

Lemma download_anchor (u : string) (counter : nat) :
  asset_anchor (_download_image_from_url requests_get u counter)
  = "slide_image_" +:+ fmt_03d counter.
Proof.
  unfold _download_image_from_url.
  destruct (requests_get u) as [[body header] | e]; reflexivity.
Qed.

Lemma kept_assets_nonempty (urls : list string) counter :
  Forall (fun a => asset_content a ≠ "") (kept_assets urls counter).
Proof.
  revert counter. induction urls as [| u urls IH]; intros counter; simpl; [constructor |].
  destruct (String.eqb _ "") eqn:Hc; [apply IH |].
  constructor; [| apply IH]. by apply String.eqb_neq.
Qed.

Lemma kept_assets_bodies (urls : list string) counter :
  map asset_content (kept_assets urls counter) = omap (kept_body requests_get) urls.
Proof.
  revert counter. induction urls as [| u urls IH]; intros counter; simpl; [done |].
  rewrite download_content. unfold kept_body at 1.
  destruct (requests_get u) as [[body header] | e] eqn:Hr; simpl.
  - destruct (String.eqb body ""); simpl; [apply IH |].
    rewrite download_content, Hr. f_equal. apply IH.
  - apply IH.
Qed.

Lemma kept_assets_anchors (urls : list string) counter :
  map asset_anchor (kept_assets urls counter)
  = map (fun k => "slide_image_" +:+ fmt_03d k)
        (seq counter (length (kept_assets urls counter))).
Proof.
  revert counter. induction urls as [| u urls IH]; intros counter; simpl; [done |].
  destruct (String.eqb _ "") eqn:Hc; [apply IH |].
  simpl. rewrite download_anchor. f_equal.
  rewrite IH. by rewrite Nat.add_1_r.
Qed.

End RemoteAssets.

Section SheetAssets.

Import SheetsConverters.

Variable img_srcs : string → list string.
Variable b64decode : string → result string.
Variable urlopen : string → result (string * option string).

Lemma extract_step_bodies (srcs : list string) rewritten assets counter :
  map asset_content
      (fold_left (extract_step b64decode urlopen) srcs (rewritten, assets, counter)).1.2
  = map asset_content assets ++ omap (sheet_body b64decode urlopen) srcs.
Proof.
  revert rewritten assets counter.
  induction srcs as [| src srcs IH]; intros rewritten assets counter; simpl.
  - by rewrite app_nil_r.
  - unfold sheet_body at 1.
    destruct (startswith "data:" src).
    + destruct (split_second ";base64," src) as [base64_data |]; [| apply IH].
      destruct (b64decode base64_data) as [binary_data | e]; [| apply IH].
      rewrite IH, map_app, <- app_assoc. reflexivity.
    + destruct (startswith "http://" src || startswith "https://" src); [| apply IH].
      destruct (urlopen src) as [[body header] | e]; [| apply IH].
      rewrite IH, map_app, <- app_assoc. reflexivity.
Qed.

Lemma extract_assets_bodies (html_content : string) :
  map asset_content (extract_assets_from_sheets_html img_srcs b64decode urlopen html_content).2
  = omap (sheet_body b64decode urlopen) (img_srcs html_content).
Proof.
  unfold extract_assets_from_sheets_html.
  pose proof (extract_step_bodies (img_srcs html_content) [] [] 1) as H.
  destruct (fold_left _ _ _) as [[rewritten assets] counter]. exact H.
Qed.

End SheetAssets.



(** The second of three images cannot be fetched: the first and the third
    are extracted. *)
Example failed_fetch_is_skipped_example :
  map asset_name (SlidesConverters.convert_slides_to_markdown host_without_b three_image_deck []).2
  = ["slide_image_001.png"; "slide_image_002.png"].
Proof. reflexivity. Qed.

(** ** Comments of a sheet (C4) *)

Section SheetComments.

Import SheetsConverters.

Variable json_loads : string → option jvalue.

Lemma find_in_row_spec (snippet : string) (row : list cell_value) (k c : nat) :
  find_in_row snippet row k = Some c ↔
  ∃ j cell, c = k + j ∧ row !! j = Some cell ∧ strip (cell_str cell) = snippet
            ∧ ∀ j' cell', j' < j → row !! j' = Some cell' → strip (cell_str cell') ≠ snippet.
Proof.
  revert k. induction row as [| cell row IH]; intros k; simpl.
  - split; [discriminate | intros (j & cell & _ & H & _); discriminate].
  - destruct (String.eqb (strip (cell_str cell)) snippet) eqn:He.
    + apply String.eqb_eq in He. split.
      * intros [= <-]. exists 0, cell. repeat split; [lia | done | lia].
      * intros (j & cell' & -> & Hj & Hs & Hmin).
        destruct j as [| j]; [f_equal; lia |].
        exfalso. by apply (Hmin 0 cell); [lia | |].
    + apply String.eqb_neq in He. rewrite IH. split.
      * intros (j & cell' & -> & Hj & Hs & Hmin).
        exists (S j), cell'. repeat split; [lia | done | done |].
        intros [| j'] cell'' Hlt Hl; simpl in Hl; [by inversion Hl; subst |].
        apply (Hmin j'); [lia | done].
      * intros (j & cell' & -> & Hj & Hs & Hmin).
        destruct j as [| j]; simpl in Hj; [by inversion Hj; subst |].
        exists j, cell'. repeat split; [lia | done | done |].
        intros j' cell'' Hlt Hl. apply (Hmin (S j')); [lia | done].
Qed.

Lemma find_in_row_none (snippet : string) (row : list cell_value) (k : nat) :
  find_in_row snippet row k = None ↔
  ∀ j cell, row !! j = Some cell → strip (cell_str cell) ≠ snippet.
Proof.
  revert k. induction row as [| cell row IH]; intros k; simpl.
  - split; [intros _ j cell H; discriminate | done].
  - destruct (String.eqb (strip (cell_str cell)) snippet) eqn:He.
    + apply String.eqb_eq in He. split; [discriminate |].
      intros H. exfalso. by apply (H 0 cell).
    + apply String.eqb_neq in He. rewrite IH. split.
      * intros H [| j] cell' Hl; simpl in Hl; [by inversion Hl; subst | by apply (H j)].
      * intros H j cell' Hl. by apply (H (S j)).
Qed.

Lemma find_in_rows_spec (snippet : string) (rows : list (list cell_value)) (k r c : nat) :
  find_in_rows snippet rows k = Some (r, c) ↔
  ∃ i, r = k + i ∧ cell_reads snippet rows i c
       ∧ ∀ i' c', cell_before i' c' i c → ¬ cell_reads snippet rows i' c'.
Proof.
  revert k. induction rows as [| row rows IH]; intros k; simpl.
  - split; [discriminate |].
    intros (i & _ & (row & cell & H & _) & _). discriminate.
  - destruct (find_in_row snippet row 0) as [c0 |] eqn:Hrow.
    + apply find_in_row_spec in Hrow as (j & cell & -> & Hj & Hs & Hmin). simpl. split.
      * intros [= <- <-]. exists 0. split; [lia |]. split.
        -- by exists row, cell.
        -- intros i' c' [Hlt | [-> Hlt]] (row' & cell' & Hr' & Hc' & Hs'); [lia |].
           simpl in Hr'. inversion Hr'; subst. by apply (Hmin c' cell').
      * intros (i & -> & (row' & cell' & Hr' & Hc' & Hs') & Hfirst).
        destruct i as [| i].
        -- simpl in Hr'. inversion Hr'; subst row'.
           assert (c = j) as ->; [| f_equal; f_equal; lia].
           destruct (Nat.lt_trichotomy c j) as [Hlt | [-> | Hlt]]; [| done |].
           ++ exfalso. by apply (Hmin c cell').
           ++ exfalso. apply (Hfirst 0 j); [right; lia |]. by exists row, cell.
        -- exfalso. apply (Hfirst 0 j); [left; lia |]. by exists row, cell.
    + rewrite IH. pose proof (proj1 (find_in_row_none _ _ _) Hrow) as Hnone. split.
      * intros (i & -> & (row' & cell' & Hr' & Hc' & Hs') & Hfirst).
        exists (S i). split; [lia |]. split; [by exists row', cell' |].
        intros [| i'] c' Hb (row'' & cell'' & Hr'' & Hc'' & Hs''); simpl in Hr''.
        -- inversion Hr''; subst. by apply (Hnone c' cell'').
        -- apply (Hfirst i' c'); [destruct Hb as [? | [? ?]]; [left | right]; lia |].
           by exists row'', cell''.
      * intros (i & -> & (row' & cell' & Hr' & Hc' & Hs') & Hfirst).
        destruct i as [| i]; simpl in Hr'.
        -- inversion Hr'; subst. exfalso. by apply (Hnone c cell').
        -- exists i. split; [lia |]. split; [by exists row', cell' |].
           intros i' c' Hb (row'' & cell'' & Hr'' & Hc'' & Hs'').
           apply (Hfirst (S i') c'); [destruct Hb as [? | [? ?]]; [left | right]; lia |].
           by exists row'', cell''.
Qed.

Lemma find_in_rows_none (snippet : string) (rows : list (list cell_value)) (k : nat) :
  find_in_rows snippet rows k = None ↔ ∀ r c, ¬ cell_reads snippet rows r c.
Proof.
  revert k. induction rows as [| row rows IH]; intros k; simpl.
  - split; [| done]. intros _ r c (row & cell & H & _). discriminate.
  - destruct (find_in_row snippet row 0) as [c0 |] eqn:Hrow.
    + apply find_in_row_spec in Hrow as (j & cell & -> & Hj & Hs & Hmin).
      split; [discriminate |]. intros H. exfalso. apply (H 0 j). by exists row, cell.
    + rewrite IH. pose proof (proj1 (find_in_row_none _ _ _) Hrow) as Hnone. split.
      * intros H [| r] c (row' & cell' & Hr' & Hc' & Hs'); simpl in Hr'.
        -- inversion Hr'; subst. by apply (Hnone c cell').
        -- apply (H r c). by exists row', cell'.
      * intros H r c (row' & cell' & Hr' & Hc' & Hs'). apply (H (S r) c).
        by exists row', cell'.
Qed.

(** The sheet and the cell of a comment that is attached. *)
Lemma comment_cell_some (index : gmap Z sheet) (c : comment) name r col :
  comment_cell json_loads index c = Some (name, r, col) →
  ∃ members uid key sh,
    anchor_data json_loads (anchor c) = Some (JObj members)
    ∧ members_get "uid" members = Some uid ∧ uid_key uid = Some key
    ∧ index !! key = Some sh ∧ name = sheet_name sh
    ∧ find_in_rows (strip (snippet c)) (data_rows sh) 0 = Some (r, col).
Proof.
  unfold comment_cell.
  destruct (anchor_falsy (anchor c) || String.eqb (strip (snippet c)) ""); [discriminate |].
  destruct (anchor_data json_loads (anchor c)) as [[| | | | | members] |]; try discriminate.
  destruct (members_get "uid" members) as [uid |] eqn:Hu; [| discriminate].
  destruct (uid_key uid) as [key |] eqn:Hk; [| by destruct uid].
  destruct (index !! key) as [sh |] eqn:Hi; [| by destruct uid].
  destruct (find_in_rows (strip (snippet c)) (data_rows sh) 0) as [[r' col'] |] eqn:Hf;
    [| by destruct uid].
  intros H. assert (Some (sheet_name sh, r', col') = Some (name, r, col)) as [= <- <- <-]
    by (by destruct uid).
  by exists members, uid, key, sh.
Qed.

Lemma map_step_fold (index : gmap Z sheet) (ics : list (nat * comment))
    (m : gmap string (list nat)) (key : string) :
  default [] (fold_left (map_step json_loads index) ics m !! key)
  = default [] (m !! key) ++ indices_at json_loads index key ics.
Proof.
  revert m. induction ics as [| [i c] ics IH]; intros m; simpl.
  - by rewrite app_nil_r.
  - rewrite IH. unfold indices_at, map_step. rewrite filter_cons.
    unfold attached_key at 1. cbn [snd fst].
    destruct (comment_cell json_loads index c) as [[[name r] col] |] eqn:Hc; cbn [fmap option_fmap option_map].
    + case_decide as Hk; unfold attached_key in Hk; rewrite Hc in Hk; simpl in Hk.
      * injection Hk as <-. rewrite lookup_insert_eq. simpl.
        by rewrite <- app_assoc.
      * rewrite lookup_insert_ne by congruence. done.
    + case_decide as Hk; [| done].
      unfold attached_key in Hk. rewrite Hc in Hk. discriminate.
Qed.

End SheetComments.



(** The comment on [y] goes to the second cell of the row, found by the
    scan; a comment on a text that no cell reads goes nowhere. *)
Example comment_attached_example :
  SheetsConverters._map_comments_to_cells (fun _ => None)
    [sheet_comment "y"; sheet_comment "z"; sheet_comment " x "] [xy_sheet]
  = {[ "Sheet1:0:1" := [0]; "Sheet1:0:0" := [2] ]}.
Proof. by vm_compute. Qed.

(** ** The result lists of a batch (C6) *)

Section BatchResults.

Import Drive.

Variable svc : services.
Variable output_path : list string.
Variable output_type : string.

Lemma process_status (item : DriveItem) parent_path d :
  ∃ s, entry_status (_process_single_item svc item output_path output_type parent_path d).1
       = Some s.
Proof.
  unfold _process_single_item.
  destruct (process_body svc item output_path output_type parent_path d) as [[e | ex] d'] eqn:Hp;
    simpl; [| by exists failure].
  unfold process_body in Hp.
  destruct (type item); simpl in Hp.
  - inversion Hp. by exists skipped.
  - unfold io_bind, io_read, io_ret in Hp.
    destruct (Cache.should_skip_export _ _ _ d) as [[|] | ex]; try discriminate.
    + inversion Hp. by exists skipped.
    + destruct parent_path.
      * destruct (mkdir_parents _ _ d) as [[[] | ex] d1]; try discriminate.
        destruct (export_document _ _ _ _ _ d1) as [[x | ex] d2]; try discriminate.
        inversion Hp. by exists success.
      * destruct (export_document _ _ _ _ _ d) as [[x | ex] d2]; try discriminate.
        inversion Hp. by exists success.
  - unfold io_bind, io_read, io_ret in Hp.
    destruct (Cache.should_skip_export _ _ _ d) as [[|] | ex]; try discriminate.
    + inversion Hp. by exists skipped.
    + destruct parent_path.
      * destruct (mkdir_parents _ _ d) as [[[] | ex] d1]; try discriminate.
        destruct (export_document _ _ _ _ _ d1) as [[x | ex] d2]; try discriminate.
        inversion Hp. by exists success.
      * destruct (export_document _ _ _ _ _ d) as [[x | ex] d2]; try discriminate.
        inversion Hp. by exists success.
  - unfold io_bind, io_read, io_ret in Hp.
    destruct (Cache.should_skip_export _ _ _ d) as [[|] | ex]; try discriminate.
    + inversion Hp. by exists skipped.
    + destruct parent_path.
      * destruct (mkdir_parents _ _ d) as [[[] | ex] d1]; try discriminate.
        destruct (export_document _ _ _ _ _ d1) as [[x | ex] d2]; try discriminate.
        inversion Hp. by exists success.
      * destruct (export_document _ _ _ _ _ d) as [[x | ex] d2]; try discriminate.
        inversion Hp. by exists success.
  - unfold io_bind, io_read, io_ret in Hp.
    destruct (Cache.raw_file_exists _ _ _ d).
    + inversion Hp. by exists skipped.
    + destruct (mkdir_parents _ _ d) as [[[] | ex] d1]; try discriminate.
      destruct (download_file _ _ _ d1) as [[[] | ex] d2]; try discriminate.
      inversion Hp. by exists success.
  - inversion Hp. by exists skipped.
Qed.

(** A folder among the ids is skipped, whatever the disk holds. *)
Lemma directory_is_skipped (item : DriveItem) parent_path d :
  type item = DIRECTORY →
  (_process_single_item svc item output_path output_type parent_path d).1
  = skipped_entry item "Directory (not a file)".
Proof.
  intros Ht. unfold _process_single_item, process_body. by rewrite Ht.
Qed.

(** One unit appends its dictionary to the list of its outcome, and to
    that list only. *)
Lemma process_item_wrapper_step (b : batch) (item_id : string) :
  let r := unit_result svc output_path output_type (b_disk b) item_id in
  let b' := process_item_wrapper svc output_path output_type b item_id in
  b_disk b' = r.2
  ∧ b_successes b' = b_successes b ++ with_outcome success [r.1]
  ∧ b_failures b' = b_failures b ++ with_outcome failure [r.1]
  ∧ b_skipped b' = b_skipped b ++ with_outcome skipped [r.1].
Proof.
  unfold unit_result, process_item_wrapper.
  destruct (files_get svc item_id) as [item | ex]; simpl.
  - destruct (process_status item None (b_disk b)) as [s Hs].
    destruct (_process_single_item svc item output_path output_type None (b_disk b))
      as [e d'] eqn:Hp.
    simpl in *. unfold record_result, with_outcome, outcome.
    rewrite !filter_cons, !filter_nil, Hs.
    destruct s; simpl; rewrite ?app_nil_r; done.
  - unfold record_failure, with_outcome, outcome. simpl. rewrite ?app_nil_r. done.
Qed.

Lemma with_outcome_app (s : status) (l1 l2 : list entry) :
  with_outcome s (l1 ++ l2) = with_outcome s l1 ++ with_outcome s l2.
Proof. apply filter_app. Qed.

Lemma with_outcome_cons (s : status) (x : entry) (l : list entry) :
  with_outcome s (x :: l) = with_outcome s [x] ++ with_outcome s l.
Proof. apply (filter_app _ [x] l). Qed.

Lemma batch_fold (item_ids : list string) (b : batch) :
  let units := unit_results svc output_path output_type item_ids (b_disk b) in
  let b' := fold_left (process_item_wrapper svc output_path output_type) item_ids b in
  b_successes b' = b_successes b ++ with_outcome success units
  ∧ b_failures b' = b_failures b ++ with_outcome failure units
  ∧ b_skipped b' = b_skipped b ++ with_outcome skipped units.
Proof.
  revert b. induction item_ids as [| item_id rest IH]; intros b; simpl.
  - unfold with_outcome. rewrite !filter_nil, !app_nil_r. done.
  - destruct (process_item_wrapper_step b item_id) as (Hd & Hs & Hf & Hk).
    destruct (IH (process_item_wrapper svc output_path output_type b item_id))
      as (Hs' & Hf' & Hk').
    rewrite Hd in Hs', Hf', Hk'. rewrite Hs', Hf', Hk', Hs, Hf, Hk.
    set (u := unit_result svc output_path output_type (b_disk b) item_id).
    set (us := unit_results svc output_path output_type rest u.2).
    rewrite (with_outcome_cons success u.1 us), (with_outcome_cons failure u.1 us),
      (with_outcome_cons skipped u.1 us).
    rewrite <- !app_assoc. done.
Qed.

Lemma unit_results_length (item_ids : list string) (d : disk) :
  length (unit_results svc output_path output_type item_ids d) = length item_ids.
Proof.
  revert d. induction item_ids as [| i rest IH]; intros d; simpl; [done |].
  by rewrite IH.
Qed.

(** The three lists partition the units. *)
Lemma outcome_partition (l : list entry) :
  with_outcome success l ++ with_outcome failure l ++ with_outcome skipped l ≡ₚ l.
Proof.
  induction l as [| e l IH]; [done |].
  unfold with_outcome in *. rewrite !filter_cons.
  destruct (outcome e); simpl.
  - by rewrite IH.
  - rewrite <- Permutation_middle. by rewrite IH.
  - rewrite app_assoc, <- Permutation_middle, <- app_assoc. by rewrite IH.
Qed.

Lemma outcome_lengths (l : list entry) :
  length (with_outcome success l) + length (with_outcome failure l)
  + length (with_outcome skipped l) = length l.
Proof.
  rewrite <- (Permutation_length (outcome_partition l)), !length_app. lia.
Qed.

Lemma fetch_failure_outcome (item_id : string) (d : disk) :
  fetch_fails svc item_id = true →
  outcome (unit_result svc output_path output_type d item_id).1 = failure.
Proof.
  unfold fetch_fails, unit_result.
  destruct (files_get svc item_id) as [item | ex]; [discriminate | done].
Qed.

Lemma directory_outcome (item_id : string) (d : disk) :
  is_directory svc item_id = true →
  outcome (unit_result svc output_path output_type d item_id).1 = skipped.
Proof.
  unfold is_directory, unit_result.
  destruct (files_get svc item_id) as [item | ex]; [| discriminate].
  intros Hdir%bool_decide_eq_true.
  by rewrite (directory_is_skipped item None d Hdir).
Qed.

Lemma units_counted (p : string → bool) (s : status) :
  (∀ i d, p i = true → outcome (unit_result svc output_path output_type d i).1 = s) →
  ∀ item_ids d,
    (length (filter (fun i => p i = true) item_ids)
     ≤ length (with_outcome s (unit_results svc output_path output_type item_ids d)))%nat.
Proof.
  intros Hp item_ids. induction item_ids as [| i rest IH]; intros d; simpl; [done |].
  specialize (IH (unit_result svc output_path output_type d i).2).
  rewrite with_outcome_cons, length_app.
  destruct (p i) eqn:Hi.
  - rewrite filter_cons_True by done. simpl.
    unfold with_outcome at 1. rewrite filter_cons_True by (by apply Hp). simpl. lia.
  - rewrite filter_cons_False by (by rewrite Hi). lia.
Qed.

Lemma fetch_failures_counted (item_ids : list string) (d : disk) :
  (length (filter (fun i => fetch_fails svc i = true) item_ids)
   ≤ length (with_outcome failure (unit_results svc output_path output_type item_ids d)))%nat.
Proof. apply units_counted. intros i d'. apply fetch_failure_outcome. Qed.

Lemma directories_counted (item_ids : list string) (d : disk) :
  (length (filter (fun i => is_directory svc i = true) item_ids)
   ≤ length (with_outcome skipped (unit_results svc output_path output_type item_ids d)))%nat.
Proof. apply units_counted. intros i d'. apply directory_outcome. Qed.

End BatchResults.


(** The batch of the scenario, run on an empty disk. *)
Example batch_five_ids :
  let r := (Drive.batch_export_by_ids five_service five_ids ["out"] "markdown" 5 ∅).1 in
  (length (successes r), length (failures r), length (skipped_items r), total_processed r)
  = (2, 2, 1, 5).
Proof. by vm_compute. Qed.

(** ** Folder traversal (C7) *)

Section Traversal.

Import Drive.

Variable svc : services.
Variable U : gset string.
Hypothesis U_closed : closed_folders svc U.

Lemma visit_shrinks (f : string) (v : gset string) :
  f ∈ U → f ∉ v → S (size (U ∖ ({[f]} ∪ v))) = size (U ∖ v).
Proof.
  intros Hf Hv.
  assert (U ∖ v = {[f]} ∪ U ∖ ({[f]} ∪ v)) as ->.
  { apply set_eq. intros x. set_unfold. destruct (decide (x = f)); naive_solver. }
  pose proof (size_union (C:=gset string) {[f]} (U ∖ ({[f]} ∪ v))) as Hsu.
  rewrite Hsu by set_solver. by rewrite size_singleton.
Qed.

Lemma grow_shrinks (v : gset string) (new : list string) :
  size (U ∖ (v ∪ list_to_set new)) ≤ size (U ∖ v).
Proof. apply subseteq_size. set_solver. Qed.

Lemma enters_once_nil (v : gset string) : enters_once U v [] v.
Proof.
  split; [constructor | split]; [intros x Hx; inversion Hx |].
  simpl. set_solver.
Qed.

Lemma enters_once_app (v v1 v2 : gset string) (l1 l2 : list string) :
  enters_once U v l1 v1 → enters_once U v1 l2 v2 → enters_once U v (l1 ++ l2) v2.
Proof.
  intros (Hnd1 & Hf1 & ->) (Hnd2 & Hf2 & ->). split; [| split].
  - apply NoDup_app. split; [done | split; [| done]].
    intros x Hx1 Hx2. destruct (Hf2 x Hx2) as [Hn _]. set_solver.
  - intros x [Hx | Hx]%elem_of_app; [by apply Hf1 |].
    destruct (Hf2 x Hx) as [Hn Hu]. set_solver.
  - rewrite list_to_set_app_L. set_solver.
Qed.

Lemma enters_once_cons (v v' : gset string) (f : string) (l : list string) :
  f ∈ U → f ∉ v → enters_once U ({[f]} ∪ v) l v' → enters_once U v (f :: l) v'.
Proof.
  intros Hf Hv H.
  apply (enters_once_app v ({[f]} ∪ v) v' [f] l); [| done].
  split; [apply NoDup_singleton | split].
  - intros x ->%list_elem_of_singleton. done.
  - simpl. set_solver.
Qed.

(** *** The collection of folder ids *)

Definition collect_returns (n : nat)
    (recurse : string → gset string → option (list string * gset string)) : Prop :=
  ∀ f v, f ∈ U → size (U ∖ v) < n →
    ∃ ids v', recurse f v = Some (ids, v') ∧ enters_once U v ids v'.

Lemma collect_subfolders_returns (n : nat) recurse (items : list DriveItem) :
  collect_returns n recurse →
  (∀ item, item ∈ items → type item = DIRECTORY → id item ∈ U) →
  ∀ folder_ids v, size (U ∖ v) < n →
    ∃ new v', collect_subfolders recurse items folder_ids v = Some (folder_ids ++ new, v')
              ∧ enters_once U v new v'.
Proof.
  intros Hrec. induction items as [| item rest IH]; intros Hdir folder_ids v Hsz; simpl.
  - exists [], v. rewrite app_nil_r. split; [done | apply enters_once_nil].
  - assert (Hrest : ∀ it, it ∈ rest → type it = DIRECTORY → id it ∈ U)
      by (intros it Hit; apply Hdir; by right).
    destruct (decide (type item = DIRECTORY)) as [Hd | Hd].
    + destruct (Hrec (id item) v) as (ids & v1 & -> & H1); [apply Hdir; [left | done] | done |].
      assert (Hsz1 : size (U ∖ v1) < n).
      { destruct H1 as (_ & _ & ->). pose proof (grow_shrinks v ids). lia. }
      destruct (IH Hrest (folder_ids ++ ids) v1 Hsz1) as (new & v2 & -> & H2).
      exists (ids ++ new), v2. rewrite <- app_assoc. split; [done |].
      by apply (enters_once_app v v1 v2).
    + by apply IH.
Qed.

Lemma collect_returns_fuel (fuel : nat) :
  collect_returns fuel (_collect_folder_ids_recursive svc fuel).
Proof.
  induction fuel as [| fuel IH]; intros f v Hf Hsz; [lia |]. simpl.
  destruct (decide (f ∈ v)) as [Hin | Hnin].
  - exists [], v. split; [done | apply enters_once_nil].
  - pose proof (visit_shrinks f v Hf Hnin) as Hs.
    destruct (list_items svc f) as [items | ex] eqn:Hl.
    + destruct (collect_subfolders_returns fuel (_collect_folder_ids_recursive svc fuel)
                  items IH) with (folder_ids := [f]) (v := {[f]} ∪ v)
        as (new & v' & -> & Hnew).
      * intros item Hitem Hd. by apply (U_closed f items item).
      * lia.
      * exists (f :: new), v'. split; [done |]. by apply enters_once_cons.
    + exists [f], ({[f]} ∪ v). split; [done |].
      apply enters_once_cons; [done | done | apply enters_once_nil].
Qed.

(** *** The walk of the batch export *)

Variable output_path : list string.
Variable depth : option nat.
Variable output_type : string.

Definition walk_returns (n : nat)
    (recurse : string → option DriveItem → nat → option (list string) → walk → option walk)
    : Prop :=
  ∀ f item current_depth parent w, f ∈ U → size (U ∖ w_visited w) < n →
    ∃ w' new, recurse f item current_depth parent w = Some w'
              ∧ w_entered w' = w_entered w ++ new
              ∧ enters_once U (w_visited w) new (w_visited w').

Lemma export_items_returns (n : nat) recurse current_depth folder_export_path
    (items : list DriveItem) :
  walk_returns n recurse →
  (∀ item, item ∈ items → type item = DIRECTORY → id item ∈ U) →
  ∀ w, size (U ∖ w_visited w) < n →
    ∃ w' new,
      export_items svc output_path depth output_type recurse current_depth
        folder_export_path items w = Some w'
      ∧ w_entered w' = w_entered w ++ new
      ∧ enters_once U (w_visited w) new (w_visited w').
Proof.
  intros Hrec. induction items as [| item rest IH]; intros Hdir w Hsz; simpl.
  - exists w, []. rewrite app_nil_r. split; [done | split; [done | apply enters_once_nil]].
  - assert (Hrest : ∀ it, it ∈ rest → type it = DIRECTORY → id it ∈ U)
      by (intros it Hit; apply Hdir; by right).
    destruct (decide (type item = DIRECTORY)) as [Hd | Hd].
    + destruct (may_recurse depth current_depth); [| by apply IH].
      destruct (Hrec (id item) (Some item) (current_depth + 1) (Some folder_export_path) w)
        as (w1 & new1 & -> & He1 & H1); [apply Hdir; [left | done] | done |].
      assert (Hsz1 : size (U ∖ w_visited w1) < n).
      { destruct H1 as (_ & _ & ->). pose proof (grow_shrinks (w_visited w) new1). lia. }
      destruct (IH Hrest w1 Hsz1) as (w2 & new2 & -> & He2 & H2).
      exists w2, (new1 ++ new2). split; [done |]. split.
      * by rewrite He2, He1, <- app_assoc.
      * by apply (enters_once_app _ (w_visited w1)).
    + destruct (_process_single_item svc item output_path output_type
                  (Some folder_export_path) (b_disk (w_batch w))) as [result d].
      apply (IH Hrest (set_batch (record_result result d (w_batch w)) w)). done.
Qed.

Lemma walk_returns_fuel (fuel : nat) :
  walk_returns fuel (collect_and_export_recursive svc output_path depth output_type fuel).
Proof.
  induction fuel as [| fuel IH]; intros f item current_depth parent w Hf Hsz; [lia |].
  simpl.
  destruct (decide (f ∈ w_visited w)) as [Hin | Hnin].
  - exists w, []. rewrite app_nil_r. split; [done | split; [done | apply enters_once_nil]].
  - pose proof (visit_shrinks f (w_visited w) Hf Hnin) as Hs.
    destruct (open_folder svc f item _ _) as [[items | ex] d] eqn:Ho.
    + match goal with
      | |- context [export_items _ _ _ _ _ _ ?p items ?w0] =>
          destruct (export_items_returns fuel
                      (collect_and_export_recursive svc output_path depth output_type fuel)
                      current_depth p items IH) with (w := w0)
            as (w' & new & -> & He & Hnew)
      end.
      * intros it Hit Hd. apply (U_closed f items it); try done.
        unfold open_folder, io_bind, io_read, io_ret in Ho.
        destruct (mkdir_parents _ _ _) as [[[] | ?] ?]; [| discriminate].
        destruct (write_file _ _ _) as [[[] | ?] ?]; [| discriminate].
        destruct (list_items svc f) as [items' | ?]; [| discriminate].
        destruct (mkdir_exist_ok _ _) as [[[] | ?] ?]; [| discriminate].
        by inversion Ho.
      * simpl. lia.
      * exists w', (f :: new). simpl in He, Hnew. split; [done |]. split.
        -- by rewrite He, <- app_assoc.
        -- by apply enters_once_cons.
    + eexists _, [f]. split; [done |]. simpl. split; [done |].
      apply enters_once_cons; [done | done | apply enters_once_nil].
Qed.

End Traversal.



(** The ids collected on the cycle. *)
Example collect_cycle :
  fst <$> Drive._collect_folder_ids_recursive cycle_service 3 "A" ∅ = Some ["A"; "B"].
Proof. by vm_compute. Qed.

(** ** The cache: freshness (C2, C10) *)

Section CacheDisk.

Import Cache.

Lemma node_at_cons (d : disk) (p : list string) :
  p ≠ [] → node_at d p = d !! p.
Proof. by destruct p. Qed.

Lemma write_file_inv (p : list string) (data : file_data) (d d' : disk) u :
  write_file p data d = (Ok u, d') → p ≠ [] ∧ d' = <[p := File data]> d.
Proof.
  unfold write_file. destruct p as [| c p]; [discriminate |].
  destruct (node_at d (c :: p)) as [[| ?] |];
    destruct (node_at d (parent (c :: p))) as [[| ?] |]; intros H; inversion H; done.
Qed.

Lemma write_file_raise (p : list string) (data : file_data) (d d' : disk) e :
  write_file p data d = (Raise e, d') → d' = d.
Proof.
  unfold write_file.
  destruct (node_at d p) as [[| ?] |];
    destruct (node_at d (parent p)) as [[| ?] |]; intros H; inversion H; done.
Qed.

(** The disk after the loop that writes the assets. *)
Definition with_assets (assets_dir : list string) (assets : list ExportedAsset) (d : disk)
    : disk :=
  fold_left (fun acc a => <[assets_dir ++ [asset_name a] := File (RawBytes (asset_content a))]> acc)
            assets d.

Lemma write_assets_inv (assets_dir : list string) (assets : list ExportedAsset) (d d' : disk) u :
  write_assets assets_dir assets d = (Ok u, d') → d' = with_assets assets_dir assets d.
Proof.
  revert d. induction assets as [| a rest IH]; intros d; simpl.
  - unfold io_ret. by intros [= _ <-].
  - unfold io_bind.
    destruct (write_file _ _ d) as [[[] | e] d1] eqn:Hw; [| discriminate].
    apply write_file_inv in Hw as [_ ->]. apply IH.
Qed.

Lemma with_assets_other (assets_dir : list string) (assets : list ExportedAsset) (d : disk)
    (q : list string) :
  (∀ a, a ∈ assets → q ≠ assets_dir ++ [asset_name a]) →
  with_assets assets_dir assets d !! q = d !! q.
Proof.
  revert d. induction assets as [| a rest IH]; intros d Hq; simpl; [done |].
  unfold with_assets in *. simpl. rewrite IH by (intros b Hb; apply Hq; by right).
  apply lookup_insert_ne. intros Heq. by apply (Hq a); [left |].
Qed.

(** What a successful [save_to_disk] leaves: the disk after the
    directories were made, then the three records and the assets. *)
Lemma save_to_disk_inv (exported_item : ExportedItem) (base_path : list string)
    (d d' : disk) (p : list string) :
  save_to_disk exported_item base_path d = (Ok p, d') →
  let item_dir := base_path ++ [item_id exported_item] in
  ∃ d1 d2 data,
    mkdir_parents [] item_dir d = (Ok tt, d1)
    ∧ (match assets exported_item with
       | [] => d2 = d1
       | _ => mkdir_exist_ok (item_dir ++ ["assets"]) d1 = (Ok tt, d2)
       end)
    ∧ (if is_pdf exported_item
       then ∃ b, content exported_item = BytesContent b ∧ data = RawBytes b
       else ∃ s, content exported_item = StrContent s ∧ data = RawBytes s)
    ∧ d' = with_assets (item_dir ++ ["assets"]) (assets exported_item)
             (<[item_dir ++ ["content" +:+ (if is_pdf exported_item then ".pdf" else ".md")]
                := File data]>
                (<[item_dir ++ ["comments.json"] := File (JsonText (comments exported_item))]>
                   (<[item_dir ++ ["metadata.json"]
                      := File (JsonText (metadata_of exported_item))]> d2)))
    ∧ p = item_dir.
Proof.
  intros H. cbv zeta.
  unfold save_to_disk, io_try, io_bind, io_raise in H.
  set (item_dir := base_path ++ [item_id exported_item]) in *.
  destruct (mkdir_parents [] item_dir d) as [[[] | e] d1] eqn:H1; [| discriminate].
  destruct ((match assets exported_item with
             | [] => io_ret tt
             | _ => mkdir_exist_ok (item_dir ++ ["assets"])
             end) d1) as [[[] | e] d2] eqn:H2; [| discriminate].
  destruct (write_file (item_dir ++ ["metadata.json"]) _ d2) as [[[] | e] d3] eqn:H3;
    [| discriminate].
  apply write_file_inv in H3 as [_ ->].
  destruct (write_file (item_dir ++ ["comments.json"]) _ _) as [[[] | e] d4] eqn:H4;
    [| discriminate].
  apply write_file_inv in H4 as [_ ->].
  destruct (write_content _ exported_item _) as [[[] | e] d5] eqn:H5; [| discriminate].
  destruct (write_assets _ _ d5) as [[[] | e] d6] eqn:H6; [| discriminate].
  apply write_assets_inv in H6 as ->.
  unfold io_ret in H. inversion H; subst p d'. clear H.
  unfold write_content, io_bind, io_raise in H5.
  exists d1, d2.
  destruct (is_pdf exported_item); destruct (content exported_item) as [s | b] eqn:Hc.
  - destruct (write_file _ _ _) as [[[] | e] ?]; discriminate.
  - apply write_file_inv in H5 as [_ ->]. exists (RawBytes b).
    repeat split; try done.
    + destruct (assets exported_item); [unfold io_ret in H2; by inversion H2 | done].
    + by exists b.
  - apply write_file_inv in H5 as [_ ->]. exists (RawBytes s).
    repeat split; try done.
    + destruct (assets exported_item); [unfold io_ret in H2; by inversion H2 | done].
    + by exists s.
  - destruct (write_file _ _ _) as [[[] | e] ?]; discriminate.
Qed.

Lemma app_singleton_inj (l1 l2 : list string) (x y : string) :
  l1 ++ [x] = l2 ++ [y] → l1 = l2 ∧ x = y.
Proof. intros H. apply app_inj_tail in H. done. Qed.

Lemma item_path_ne_asset (item_dir : list string) (x name : string) :
  item_dir ++ [x] ≠ (item_dir ++ ["assets"]) ++ [name].
Proof.
  intros H. apply (f_equal (@length string)) in H. rewrite !length_app in H. simpl in H. lia.
Qed.

(** The metadata record after a write. *)
Lemma save_to_disk_metadata (exported_item : ExportedItem) (base_path : list string)
    (d d' : disk) (p : list string) :
  save_to_disk exported_item base_path d = (Ok p, d') →
  d' !! metadata_path (item_id exported_item) base_path
  = Some (File (JsonText (metadata_of exported_item))).
Proof.
  intros H. destruct (save_to_disk_inv _ _ _ _ _ H) as (d1 & d2 & data & _ & _ & _ & -> & _).
  unfold metadata_path. rewrite app_assoc.
  rewrite with_assets_other by (intros a _; apply item_path_ne_asset).
  rewrite lookup_insert_ne by (intros [_ Hx]%app_singleton_inj; by destruct (is_pdf _)).
  rewrite lookup_insert_ne by (intros [_ Hx]%app_singleton_inj; discriminate).
  apply lookup_insert_eq.
Qed.

Lemma metadata_path_nonempty (item_id : string) (base_path : list string) :
  metadata_path item_id base_path ≠ [].
Proof. unfold metadata_path. by destruct base_path. Qed.

Lemma get_cached_metadata_file (item_id : string) (base_path : list string) (d : disk)
    (v : jvalue) :
  d !! metadata_path item_id base_path = Some (File (JsonText v)) →
  get_cached_metadata item_id base_path d = match v with JNull => None | _ => Some v end.
Proof.
  intros H. unfold get_cached_metadata, path_exists, read_file. fold (metadata_path item_id base_path).
  rewrite node_at_cons by apply metadata_path_nonempty. rewrite H. simpl. by destruct v.
Qed.

(** A record that is absent, unreadable or not a JSON document. *)
Lemma get_cached_metadata_unusable (item_id : string) (base_path : list string) (d : disk) :
  (d !! metadata_path item_id base_path = None
   ∨ d !! metadata_path item_id base_path = Some Dir
   ∨ ∃ b, d !! metadata_path item_id base_path = Some (File (RawBytes b))) →
  get_cached_metadata item_id base_path d = None.
Proof.
  unfold get_cached_metadata, path_exists, read_file. fold (metadata_path item_id base_path).
  rewrite node_at_cons by apply metadata_path_nonempty.
  intros [-> | [-> | [b ->]]]; reflexivity.
Qed.

Lemma leb_refl (s : string) : String.leb s s = true.
Proof.
  unfold String.leb. assert (String.compare s s = Eq) as ->; [| done].
  induction s as [| c s IH]; simpl; [done |].
  assert (Ascii.compare c c = Eq) as ->; [| done].
  unfold Ascii.compare. apply N.compare_refl.
Qed.

Lemma ltb_not_leb (s t : string) : String.ltb s t = true → String.leb t s = false.
Proof.
  unfold String.ltb, String.leb. rewrite (String.compare_antisym s t).
  destruct (String.compare t s); simpl; done.
Qed.

(** The answer of [should_skip_export] on a record that is an object. *)
Lemma should_skip_object (item_id modified_time : string) (base_path : list string)
    (d : disk) (members : list (string * jvalue)) :
  get_cached_metadata item_id base_path d = Some (JObj members) →
  should_skip_export item_id modified_time base_path d
  = match members_get "modified_time" members with
    | None => Ok false
    | Some cached_modified =>
        if negb (truthy cached_modified) then Ok false
        else match cached_modified with
             | JStr s => Ok (String.leb modified_time s)
             | _ => Raise TypeError
             end
    end.
Proof.
  intros H. unfold should_skip_export. rewrite H.
  destruct members as [| kv members]; simpl; [done | reflexivity].
Qed.

End CacheDisk.



(** An export written at a time is skipped at that time and not at a later
    one. *)
Example skip_after_write_example :
  let d' := (Cache.save_to_disk (sample_export "2024-01-02T00:00:00Z" [png_asset]) ["out"] ∅).2 in
  Cache.should_skip_export "doc1" "2024-01-02T00:00:00Z" ["out"] d' = Ok true
  ∧ Cache.should_skip_export "doc1" "2024-01-03T00:00:00Z" ["out"] d' = Ok false
  ∧ Cache.should_skip_export "doc2" "2024-01-02T00:00:00Z" ["out"] d' = Ok false.
Proof. by vm_compute. Qed.



(** ** The cache: round trip (C3) *)

Section RoundTrip.

Import Cache.

Lemma mkdir_parents_inv (todo : list string) :
  ∀ base d d' u,
    mkdir_parents base todo d = (Ok u, d') →
    (∀ q, d' !! q = d !! q
          ∨ (d' !! q = Some Dir ∧ ∃ k, k ≤ length todo ∧ q = base ++ take k todo))
    ∧ (todo ≠ [] → d' !! (base ++ todo) = Some Dir).
Proof.
  induction todo as [| c rest IH]; intros base d d' u; simpl.
  - intros [= _ <-]. split; [by left | done].
  - assert (Hne : base ++ [c] ≠ []) by (by destruct base).
    rewrite node_at_cons by done.
    assert (Hstep : ∀ d0, d0 !! (base ++ [c]) = Some Dir →
              (∀ q, d0 !! q = d !! q ∨ (d0 !! q = Some Dir ∧ q = base ++ [c])) →
              mkdir_parents (base ++ [c]) rest d0 = (Ok u, d') →
              (∀ q, d' !! q = d !! q
                    ∨ (d' !! q = Some Dir
                       ∧ ∃ k, k ≤ S (length rest) ∧ q = base ++ take k (c :: rest)))
              ∧ (c :: rest ≠ [] → d' !! (base ++ c :: rest) = Some Dir)).
    { intros d0 Hd0 Hq0 Hm. destruct (IH _ _ _ _ Hm) as [Hq Ht]. split.
      - intros q. destruct (Hq q) as [Heq | (Hdir & k & Hk & ->)].
        + rewrite Heq. destruct (Hq0 q) as [? | [? ->]]; [by left |].
          right. split; [done |]. exists 1. split; [lia | done].
        + right. split; [done |]. exists (S k). split; [lia |].
          simpl. by rewrite <- app_assoc.
      - intros _. destruct rest as [| c' rest'].
        + simpl in Hm. inversion Hm; subst. done.
        + rewrite (cons_middle c base), app_assoc. by apply Ht. }
    destruct (d !! (base ++ [c])) as [[| data] |] eqn:Hl.
    + apply Hstep; [done |]. intros q. by left.
    + discriminate.
    + apply Hstep; [apply lookup_insert_eq |].
      intros q. destruct (decide (q = base ++ [c])) as [-> | Hq].
      * right. by rewrite lookup_insert_eq.
      * left. by rewrite lookup_insert_ne.
Qed.

Lemma mkdir_exist_ok_inv (p : list string) (d d' : disk) u :
  mkdir_exist_ok p d = (Ok u, d') →
  p ≠ [] → d' !! p = Some Dir ∧ ∀ q, q ≠ p → d' !! q = d !! q.
Proof.
  unfold mkdir_exist_ok. intros H Hp. rewrite node_at_cons in H by done.
  destruct (d !! p) as [[| data] |] eqn:Hl.
  - inversion H; subst. done.
  - discriminate.
  - destruct (node_at d (parent p)) as [[| data] |]; try discriminate.
    inversion H; subst. split; [apply lookup_insert_eq |].
    intros q Hq. by apply lookup_insert_ne.
Qed.

Lemma with_assets_cons (assets_dir : list string) (b : ExportedAsset)
    (rest : list ExportedAsset) (d : disk) :
  with_assets assets_dir (b :: rest) d
  = with_assets assets_dir rest
      (<[assets_dir ++ [asset_name b] := File (RawBytes (asset_content b))]> d).
Proof. reflexivity. Qed.

Lemma with_assets_lookup (assets_dir : list string) (assets : list ExportedAsset)
    (d : disk) (a : ExportedAsset) :
  NoDup (map asset_name assets) → a ∈ assets →
  with_assets assets_dir assets d !! (assets_dir ++ [asset_name a])
  = Some (File (RawBytes (asset_content a))).
Proof.
  revert d. induction assets as [| b rest IH]; intros d Hnd Ha; [inversion Ha |].
  simpl in Hnd. apply NoDup_cons in Hnd as [Hb Hnd].
  rewrite with_assets_cons.
  apply elem_of_cons in Ha as [-> | Ha].
  - rewrite with_assets_other; [apply lookup_insert_eq |].
    intros a' Ha' [_ Heq]%app_singleton_inj. apply Hb.
    rewrite Heq. apply list_elem_of_In, in_map, list_elem_of_In. done.
  - by apply IH.
Qed.

Lemma with_assets_some (assets_dir : list string) (assets : list ExportedAsset)
    (d : disk) (q : list string) :
  is_Some (with_assets assets_dir assets d !! q) →
  is_Some (d !! q) ∨ ∃ a, a ∈ assets ∧ q = assets_dir ++ [asset_name a].
Proof.
  revert d. induction assets as [| b rest IH]; intros d; [by left |].
  rewrite with_assets_cons. intros H.
  destruct (IH _ H) as [Hs | (a & Ha & ->)].
  - destruct (decide (q = assets_dir ++ [asset_name b])) as [-> | Hq].
    + right. exists b. split; [left | done].
    + left. by rewrite lookup_insert_ne in Hs.
  - right. exists a. split; [by right | done].
Qed.

Lemma universal_newlines_other (c : ascii) (s : string) :
  Ascii.eqb c (byte 13) = false →
  universal_newlines (String c s) = String c (universal_newlines s).
Proof.
  intros H. unfold universal_newlines; fold universal_newlines. by rewrite H.
Qed.

Lemma universal_newlines_id (s : string) :
  SheetsConverters.has_char carriage_return s = false → universal_newlines s = s.
Proof.
  induction s as [| c s IH]; [done |].
  unfold SheetsConverters.has_char; fold SheetsConverters.has_char.
  intros H. apply orb_false_iff in H as [Hc Hs].
  rewrite universal_newlines_other by (by rewrite Ascii.eqb_sym).
  by rewrite IH.
Qed.

Lemma ItemType_round_trip (t : ItemType) : ItemType_of_value (ItemType_value t) = Ok t.
Proof. by destruct t. Qed.

Lemma parent_snoc (p : list string) (x : string) : parent (p ++ [x]) = p.
Proof. apply removelast_last. Qed.

Lemma basename_snoc (p : list string) (x : string) : basename (p ++ [x]) = x.
Proof. apply last_last. Qed.

Lemma path_split (q : list string) : q ≠ [] → q = parent q ++ [basename q].
Proof. intros H. by apply app_removelast_last. Qed.

(** The names [iterdir] lists are those of the entries of the directory. *)
Lemma iterdir_listing (d : disk) (p : list string) :
  d !! p = Some Dir → p ≠ [] →
  ∃ names, iterdir d p = Ok names ∧ NoDup names
           ∧ ∀ n, n ∈ names ↔ is_Some (d !! (p ++ [n])).
Proof.
  intros Hd Hp. unfold iterdir. rewrite node_at_cons, Hd by done.
  eexists. split; [reflexivity |].
  set (keys := filter (fun q => q ≠ [] ∧ parent q = p) (map fst (map_to_list d))).
  assert (Hkeys : ∀ q, q ∈ keys ↔ is_Some (d !! q) ∧ q ≠ [] ∧ parent q = p).
  { intros q. unfold keys. rewrite list_elem_of_filter. split.
    - intros [HP Hq]. split; [| done].
      apply list_elem_of_In, in_map_iff in Hq as ([q' x] & <- & Hin).
      apply list_elem_of_In, elem_of_map_to_list in Hin. by exists x.
    - intros [[x Hx] HP]. split; [done |].
      apply list_elem_of_In, in_map_iff. exists (q, x). split; [done |].
      by apply list_elem_of_In, elem_of_map_to_list. }
  assert (Hnd : NoDup (map basename keys)).
  { change (NoDup (basename <$> keys)). apply NoDup_fmap_2_strong.
    - intros q1 q2 H1%Hkeys H2%Hkeys Heq.
      destruct H1 as (_ & Hn1 & Hp1), H2 as (_ & Hn2 & Hp2).
      rewrite (path_split q1 Hn1), (path_split q2 Hn2). congruence.
    - unfold keys. apply NoDup_filter. apply (NoDup_fst_map_to_list d). }
  split.
  - by rewrite merge_sort_Permutation.
  - intros n. rewrite merge_sort_Permutation. split.
    + intros Hn. apply list_elem_of_In, in_map_iff in Hn as (q & <- & Hq).
      apply list_elem_of_In, Hkeys in Hq as (Hs & Hne & <-).
      by rewrite <- path_split.
    + intros Hs. apply list_elem_of_In, in_map_iff. exists (p ++ [n]).
      split; [apply basename_snoc |].
      apply list_elem_of_In, Hkeys. split; [done |]. split; [by destruct p | apply parent_snoc].
Qed.

Section Saved.

Variable json_dumps : jvalue → string.
Variable exported_item : ExportedItem.
Variable base_path : list string.
Variables d d' : disk.
Variable p : list string.

Hypothesis saved : save_to_disk exported_item base_path d = (Ok p, d').
Hypothesis distinct_names : NoDup (map asset_name (assets exported_item)).
Hypothesis fresh : no_stale_asset exported_item base_path d.

Let item_dir : list string := base_path ++ [item_id exported_item].
Let assets_dir : list string := item_dir ++ ["assets"].

Lemma assets_path_eq : assets_path (item_id exported_item) base_path = assets_dir.
Proof. unfold assets_path, assets_dir, item_dir. by rewrite app_assoc. Qed.

Lemma item_dir_nonempty : item_dir ≠ [].
Proof. unfold item_dir. by destruct base_path. Qed.

Lemma length_assets_dir : length assets_dir = S (length item_dir).
Proof. unfold assets_dir. rewrite length_app. simpl. lia. Qed.

(** The disk after the write, outside the three records and the assets:
    the disk before, with directories on the way to the item and for the
    assets. *)
Lemma saved_lookup (q : list string) :
  (∀ x, q ≠ item_dir ++ [x]) → (∀ n, q ≠ assets_dir ++ [n]) →
  d' !! q = d !! q ∨ (d' !! q = Some Dir ∧ length q ≤ S (length item_dir)).
Proof.
  intros Hx Hn.
  destruct (save_to_disk_inv _ _ _ _ _ saved) as (d1 & d2 & data & Hmk & Hd2 & _ & Hd' & _).
  fold item_dir in Hmk, Hd2, Hd'. fold assets_dir in Hd2, Hd'.
  rewrite Hd'. rewrite with_assets_other by (intros a _; apply Hn).
  rewrite !lookup_insert_ne by (intros Heq; eapply Hx; symmetry; exact Heq).
  assert (H2 : d2 !! q = d1 !! q ∨ (d2 !! q = Some Dir ∧ q = assets_dir)).
  { destruct (assets exported_item).
    - subst d2. by left.
    - apply mkdir_exist_ok_inv in Hd2 as [Hdir Hother]; [| by destruct item_dir].
      destruct (decide (q = assets_dir)) as [-> | Hq]; [by right | left; by apply Hother]. }
  destruct (mkdir_parents_inv _ _ _ _ _ Hmk) as [H1 _].
  destruct H2 as [-> | [-> ->]].
  - destruct (H1 q) as [-> | (-> & k & Hk & ->)]; [by left |].
    right. split; [done |]. simpl. rewrite length_take. lia.
  - right. split; [done |]. rewrite length_assets_dir. lia.
Qed.

Lemma saved_item_dir : d' !! item_dir = Some Dir.
Proof.
  destruct (save_to_disk_inv _ _ _ _ _ saved) as (d1 & d2 & data & Hmk & Hd2 & _ & Hd' & _).
  fold item_dir in Hmk, Hd2, Hd'. fold assets_dir in Hd2, Hd'.
  assert (Hlen : ∀ x, item_dir ≠ item_dir ++ [x]).
  { intros x H. apply (f_equal (@length string)) in H. rewrite length_app in H.
    simpl in H. lia. }
  rewrite Hd'. rewrite with_assets_other.
  2: { intros a _ H. apply (f_equal (@length string)) in H.
       rewrite length_app, length_assets_dir in H. simpl in H. lia. }
  rewrite !lookup_insert_ne by apply not_eq_sym, Hlen.
  destruct (mkdir_parents_inv _ _ _ _ _ Hmk) as [_ H1]. specialize (H1 item_dir_nonempty).
  simpl in H1.
  destruct (assets exported_item).
  - by subst d2.
  - apply mkdir_exist_ok_inv in Hd2 as [_ Hother]; [| by destruct item_dir].
    rewrite Hother; [done |]. unfold assets_dir. apply Hlen.
Qed.

Lemma saved_record (x : string) (data : file_data) :
  (d' !! (item_dir ++ [x]) = Some (File data)) →
  read_file d' (item_dir ++ [x]) = Ok data.
Proof.
  intros H. unfold read_file. rewrite node_at_cons by (by destruct item_dir). by rewrite H.
Qed.

Lemma saved_comments :
  d' !! (item_dir ++ ["comments.json"]) = Some (File (JsonText (comments exported_item))).
Proof.
  destruct (save_to_disk_inv _ _ _ _ _ saved) as (d1 & d2 & data & _ & _ & _ & Hd' & _).
  fold item_dir in Hd'. rewrite Hd'.
  rewrite with_assets_other by (intros a _; apply item_path_ne_asset).
  rewrite lookup_insert_ne by (intros [_ Hx]%app_singleton_inj; by destruct (is_pdf _)).
  apply lookup_insert_eq.
Qed.

Lemma saved_content :
  ∃ data,
    d' !! (item_dir ++ ["content" +:+ (if is_pdf exported_item then ".pdf" else ".md")])
    = Some (File data)
    ∧ (if is_pdf exported_item
       then ∃ b, content exported_item = BytesContent b ∧ data = RawBytes b
       else ∃ s, content exported_item = StrContent s ∧ data = RawBytes s).
Proof.
  destruct (save_to_disk_inv _ _ _ _ _ saved) as (d1 & d2 & data & _ & _ & Hc & Hd' & _).
  fold item_dir in Hd'. exists data. split; [| done]. rewrite Hd'.
  rewrite with_assets_other by (intros a _; apply item_path_ne_asset).
  apply lookup_insert_eq.
Qed.

Lemma saved_asset (a : ExportedAsset) :
  a ∈ assets exported_item →
  d' !! (assets_dir ++ [asset_name a]) = Some (File (RawBytes (asset_content a))).
Proof.
  intros Ha.
  destruct (save_to_disk_inv _ _ _ _ _ saved) as (d1 & d2 & data & _ & _ & _ & Hd' & _).
  fold item_dir in Hd'. fold assets_dir in Hd'. rewrite Hd'.
  by apply with_assets_lookup.
Qed.

(** The entries of the directory of the assets are the assets. *)
Lemma saved_entries (n : string) :
  is_Some (d' !! (assets_dir ++ [n])) ↔ n ∈ map asset_name (assets exported_item).
Proof.
  split.
  - intros Hs.
    destruct (save_to_disk_inv _ _ _ _ _ saved) as (d1 & d2 & data & Hmk & Hd2 & _ & Hd' & _).
    fold item_dir in Hmk, Hd2, Hd'. fold assets_dir in Hd2, Hd'.
    rewrite Hd' in Hs. apply with_assets_some in Hs as [Hs | (a & Ha & Heq)].
    + assert (Hne : ∀ x, item_dir ++ [x] ≠ assets_dir ++ [n]).
      { intros x H. apply (f_equal (@length string)) in H.
        rewrite !length_app, length_assets_dir in H. simpl in H. lia. }
      rewrite !lookup_insert_ne in Hs by apply Hne.
      assert (Hs1 : is_Some (d1 !! (assets_dir ++ [n]))).
      { destruct (assets exported_item); [by subst d2 |].
        apply mkdir_exist_ok_inv in Hd2 as [_ Hother]; [| by destruct item_dir].
        rewrite Hother in Hs; [done |].
        intros H. apply (f_equal (@length string)) in H. rewrite length_app in H.
        simpl in H. lia. }
      destruct (mkdir_parents_inv _ _ _ _ _ Hmk) as [H1 _].
      destruct (H1 (assets_dir ++ [n])) as [Heq | (_ & k & Hk & Heq)].
      * rewrite Heq in Hs1. destruct fresh as [_ Hstale]. apply Hstale.
        by rewrite assets_path_eq.
      * apply (f_equal (@length string)) in Heq. simpl in Heq.
        rewrite length_app, length_assets_dir, length_take in Heq. simpl in Heq. lia.
    + apply app_singleton_inj in Heq as [_ ->].
      apply list_elem_of_In, in_map, list_elem_of_In. done.
  - intros Hn. apply list_elem_of_In, in_map_iff in Hn as (a & <- & Ha).
    apply list_elem_of_In in Ha. rewrite (saved_asset a Ha). by eexists.
Qed.

(** The directory of the assets after the write: absent, with no asset
    written, or a directory. *)
Lemma saved_assets_dir :
  (d' !! assets_dir = None ∧ assets exported_item = []) ∨ d' !! assets_dir = Some Dir.
Proof.
  destruct (save_to_disk_inv _ _ _ _ _ saved) as (d1 & d2 & data & Hmk & Hd2 & _ & Hd' & _).
  fold item_dir in Hmk, Hd2, Hd'. fold assets_dir in Hd2, Hd'.
  assert (Heq : d' !! assets_dir = d2 !! assets_dir).
  { rewrite Hd'. rewrite with_assets_other.
    2: { intros a _ H. apply (f_equal (@length string)) in H. rewrite length_app in H.
         simpl in H. lia. }
    rewrite !lookup_insert_ne; [done | | |];
      intros [_ H]%app_singleton_inj;
      first [discriminate | by destruct (is_pdf exported_item)]. }
  rewrite Heq.
  destruct (assets exported_item) as [| a rest] eqn:Ha.
  - subst d2. destruct (mkdir_parents_inv _ _ _ _ _ Hmk) as [H1 _].
    destruct (H1 assets_dir) as [H | (H & _)]; [| by right].
    rewrite H. destruct fresh as [Hfile _]. rewrite assets_path_eq in Hfile.
    destruct (d !! assets_dir) as [[| data'] |]; [by right | by destruct (Hfile data') | by left].
  - right. apply mkdir_exist_ok_inv in Hd2 as [H _]; [done | by destruct item_dir].
Qed.

Lemma load_saved_assets (l : list ExportedAsset) :
  (∀ a, a ∈ l → a ∈ assets exported_item) →
  load_assets json_dumps d' assets_dir (map asset_name l) = Ok (map reloaded l).
Proof.
  induction l as [| a l IH]; intros Hl; simpl; [done |].
  assert (Ha : a ∈ assets exported_item) by (apply Hl; left).
  unfold is_file, read_file. rewrite node_at_cons by (by destruct assets_dir).
  rewrite (saved_asset a Ha). simpl.
  rewrite IH by (intros b Hb; apply Hl; by right). done.
Qed.

(** The assets a read after the write gives back. *)
Lemma load_saved_listing :
  ∃ loaded,
    (if path_exists d' assets_dir
     then rbind (iterdir d' assets_dir) (load_assets json_dumps d' assets_dir)
     else Ok []) = Ok loaded
    ∧ loaded ≡ₚ map reloaded (assets exported_item).
Proof.
  unfold path_exists. rewrite node_at_cons by (by destruct item_dir).
  destruct saved_assets_dir as [[-> ->] | Hdir].
  - by exists [].
  - rewrite Hdir.
    destruct (iterdir_listing d' assets_dir Hdir) as (names & -> & Hnd & Hnames);
      [by destruct item_dir |].
    assert (Hperm : names ≡ₚ map asset_name (assets exported_item)).
    { apply NoDup_Permutation; [done | done |].
      intros n. rewrite Hnames. apply saved_entries. }
    destruct (Permutation_map_inv _ _ Hperm) as (l & -> & Hl).
    exists (map reloaded l). split.
    + apply load_saved_assets. intros a Ha. by rewrite Hl.
    + by rewrite Hl.
Qed.

End Saved.

End RoundTrip.




(** ** Texts and substitution *)

Section Text.

Lemma str_app_cons (ch : ascii) (a b : string) : String ch a +:+ b = String ch (a +:+ b).
Proof. reflexivity. Qed.

Lemma str_app_nil_l (s : string) : "" +:+ s = s.
Proof. reflexivity. Qed.

Lemma str_app_nil_r (s : string) : s +:+ "" = s.
Proof. induction s as [| c s IH]; [done |]. by rewrite str_app_cons, IH. Qed.

Lemma str_app_assoc (a b c : string) : (a +:+ b) +:+ c = a +:+ b +:+ c.
Proof. induction a as [| ch a IH]; [done |]. by rewrite !str_app_cons, IH. Qed.

Lemma str_length_app (a b : string) :
  String.length (a +:+ b) = String.length a + String.length b.
Proof. induction a as [| ch a IH]; [done |]. rewrite str_app_cons. simpl. by rewrite IH. Qed.

Lemma str_drop_app (p t : string) : str_drop (String.length p) (p +:+ t) = t.
Proof. induction p as [| ch p IH]; simpl; [by destruct t | done]. Qed.

Lemma prefix_cons (c d : ascii) (p s : string) :
  String.prefix (String c p) (String d s) = true ↔ c = d ∧ String.prefix p s = true.
Proof.
  simpl. destruct (ascii_dec c d) as [-> | Hne]; [naive_solver |].
  split; [discriminate | by intros [? _]].
Qed.

Lemma startswith_spec (p s : string) :
  startswith p s = true ↔ ∃ t, s = p +:+ t.
Proof.
  unfold startswith. revert s. induction p as [| c p IH]; intros s.
  - simpl. split; [intros _; by exists s | by destruct s].
  - destruct s as [| d s].
    + simpl. split; [discriminate | intros [t Ht]; discriminate].
    + rewrite prefix_cons, IH. split.
      * intros [-> [t ->]]. by exists t.
      * intros [t Ht]. simpl in Ht. injection Ht as -> ->. split; [done | by exists t].
Qed.

Lemma startswith_app (p t : string) : startswith p (p +:+ t) = true.
Proof. apply startswith_spec. by exists t. Qed.

Lemma startswith_drop (p s : string) :
  startswith p s = true → s = p +:+ str_drop (String.length p) s.
Proof. intros [t ->]%startswith_spec. by rewrite str_drop_app. Qed.

Lemma str_app_inv_head (a b c : string) : a +:+ b = a +:+ c → b = c.
Proof. induction a as [| ch a IH]; simpl; [done |]. intros [= H]. by apply IH. Qed.

(** Two ways to cut a text are aligned. *)
Lemma str_app_eq_app (a b c d : string) :
  a +:+ b = c +:+ d → String.length c ≤ String.length a →
  ∃ z, a = c +:+ z ∧ d = z +:+ b.
Proof.
  revert a. induction c as [| ch c IH]; intros a H Hlen.
  - exists a. simpl in *. by split.
  - destruct a as [| ch' a]; simpl in Hlen; [lia |].
    simpl in H. injection H as -> H.
    destruct (IH a H) as (z & -> & ->); [lia |]. by exists z.
Qed.

Lemma str_length_zero (s : string) : String.length s = 0 → s = "".
Proof. by destruct s. Qed.

Lemma has_char_app (ch : ascii) (a b : string) :
  SheetsConverters.has_char ch (a +:+ b)
  = SheetsConverters.has_char ch a || SheetsConverters.has_char ch b.
Proof.
  induction a as [| c a IH]; simpl; [done |]. rewrite IH. by rewrite orb_assoc.
Qed.

Lemma has_char_here (ch : ascii) (s : string) :
  SheetsConverters.has_char ch (String ch s) = true.
Proof. simpl. by rewrite Ascii.eqb_refl. Qed.

(** *** The substitution of the first occurrence *)

Lemma split_first_eq (pat s : string) :
  split_first pat s
  = if startswith pat s then Some ("", str_drop (String.length pat) s)
    else match s with
         | EmptyString => None
         | String c rest =>
             match split_first pat rest with
             | Some (x, y) => Some (String c x, y)
             | None => None
             end
         end.
Proof. by destruct s. Qed.

Lemma re_sub_once_eq (pat ins s : string) :
  re_sub_once pat ins s
  = if startswith pat s then pat +:+ ins +:+ str_drop (String.length pat) s
    else match s with
         | EmptyString => EmptyString
         | String c rest => String c (re_sub_once pat ins rest)
         end.
Proof. by destruct s. Qed.

Lemma str_in_eq (pat s : string) :
  str_in pat s
  = if startswith pat s then true
    else match s with
         | EmptyString => false
         | String _ rest => str_in pat rest
         end.
Proof. by destruct s. Qed.

Lemma split_first_spec (pat s x y : string) :
  split_first pat s = Some (x, y) → s = x +:+ pat +:+ y.
Proof.
  revert x. induction s as [| c s IH]; intros x; rewrite split_first_eq.
  - destruct (startswith pat "") eqn:Hp; [| discriminate].
    intros [= <- <-]. rewrite str_app_nil_l. by apply startswith_drop.
  - destruct (startswith pat (String c s)) eqn:Hp.
    + intros [= <- <-]. rewrite str_app_nil_l. by apply startswith_drop.
    + destruct (split_first pat s) as [[x' y'] |]; [| discriminate].
      intros [= <- <-]. rewrite str_app_cons. by rewrite (IH x').
Qed.

Lemma split_first_none (pat s : string) :
  split_first pat s = None → ∀ x y, s ≠ x +:+ pat +:+ y.
Proof.
  induction s as [| c s IH]; rewrite split_first_eq.
  - destruct (startswith pat "") eqn:Hp; [discriminate |].
    intros _ x y H. destruct x; [| discriminate].
    rewrite str_app_nil_l in H. rewrite H, startswith_app in Hp. discriminate.
  - destruct (startswith pat (String c s)) eqn:Hp; [discriminate |].
    destruct (split_first pat s) as [[x' y'] |] eqn:Hs; [discriminate |].
    intros _ x y H. destruct x as [| c' x].
    + rewrite str_app_nil_l in H. rewrite H, startswith_app in Hp. discriminate.
    + rewrite str_app_cons in H. injection H as -> H. by apply (IH eq_refl x y).
Qed.

Lemma split_first_occurs (pat s x y : string) :
  s = x +:+ pat +:+ y → ∃ x' y', split_first pat s = Some (x', y').
Proof.
  intros H. destruct (split_first pat s) as [[x' y'] |] eqn:Hs; [by eexists _, _ |].
  by destruct (split_first_none _ _ Hs x y).
Qed.

Lemma re_sub_once_split (pat ins s : string) :
  re_sub_once pat ins s
  = match split_first pat s with
    | Some (x, y) => x +:+ pat +:+ ins +:+ y
    | None => s
    end.
Proof.
  induction s as [| c s IH]; rewrite re_sub_once_eq, split_first_eq.
  - by destruct (startswith pat "").
  - destruct (startswith pat (String c s)); [done |].
    rewrite IH. by destruct (split_first pat s) as [[x y] |].
Qed.

Lemma str_in_split (pat s : string) :
  str_in pat s = match split_first pat s with Some _ => true | None => false end.
Proof.
  induction s as [| c s IH]; rewrite str_in_eq, split_first_eq.
  - by destruct (startswith pat "").
  - destruct (startswith pat (String c s)); [done |].
    rewrite IH. by destruct (split_first pat s) as [[x y] |].
Qed.

(** The leftmost occurrence stays the leftmost after the insertion of a
    text right behind it. *)
Lemma split_first_stable (pat ins s x y : string) :
  pat ≠ "" →
  split_first pat s = Some (x, y) →
  split_first pat (x +:+ pat +:+ ins +:+ y) = Some (x, ins +:+ y).
Proof.
  intros Hne. revert x. induction s as [| c s IH]; intros x; rewrite split_first_eq.
  - destruct (startswith pat "") eqn:Hp; [| discriminate].
    apply startswith_spec in Hp as [t Ht]. destruct pat; [done | discriminate].
  - destruct (startswith pat (String c s)) eqn:Hp.
    + intros [= <- <-]. rewrite str_app_nil_l, split_first_eq.
      by rewrite startswith_app, str_drop_app.
    + destruct (split_first pat s) as [[x' y'] |] eqn:Hs; [| discriminate].
      intros [= <- <-]. rewrite str_app_cons, split_first_eq.
      assert (Hp' : startswith pat (String c (x' +:+ pat +:+ ins +:+ y')) = false).
      { destruct (startswith pat (String c (x' +:+ pat +:+ ins +:+ y'))) eqn:Hq; [| done].
        exfalso. apply startswith_spec in Hq as [t Ht].
        pose proof (split_first_spec _ _ _ _ Hs) as Hsplit.
        assert (Hpre : startswith pat (String c s) = true); [| congruence].
        apply startswith_spec.
        assert (Hlen : String.length pat ≤ String.length (String c x' +:+ pat)).
        { rewrite str_length_app. lia. }
        rewrite <- str_app_cons, <- str_app_assoc in Ht.
        destruct (str_app_eq_app _ _ _ _ Ht Hlen) as (z & Hz & _).
        exists (z +:+ y'). rewrite Hsplit.
        by rewrite <- str_app_cons, <- str_app_assoc, Hz, str_app_assoc. }
      rewrite Hp'. by rewrite (IH x' eq_refl).
Qed.

End Text.

(** ** Comments on the same snippet (C8) *)

Section SameSnippet.

Import DocsConverters.

Variable anchors : string → list nat.

Lemma sorted_anchors_length (html : string) :
  length (merge_sort Nat.le (anchors html)) = length (anchors html).
Proof. apply Permutation_length, merge_sort_Permutation. Qed.

(** Two searches for the same text, one after the other. *)
Lemma re_sub_twice (s content x y : string) (k k' : nat) :
  s ≠ "" → split_first s content = Some (x, y) →
  re_sub_once s (marker k') (re_sub_once s (marker k) content)
  = x +:+ s +:+ marker k' +:+ marker k +:+ y.
Proof.
  intros Hne Hs. rewrite (re_sub_once_split s (marker k) content), Hs.
  rewrite re_sub_once_split, (split_first_stable s (marker k) content x y Hne Hs). done.
Qed.

End SameSnippet.




(** ** Markers and the comment section of a document *)

Section Markers.

Import DocsConverters.

Variable anchors : string → list nat.

Lemma fold_left_ext_in {A B : Type} (f g : A → B → A) (l : list B) (a : A) :
  (∀ acc x, x ∈ l → f acc x = g acc x) → fold_left f l a = fold_left g l a.
Proof.
  revert a. induction l as [| x l IH]; intros a H; simpl; [done |].
  rewrite (H a x) by left. apply IH. intros acc y Hy. apply H. by right.
Qed.

Lemma enumerate_index {A : Type} (l : list A) (i : nat) (x : A) :
  (i, x) ∈ enumerate l → i < length l.
Proof.
  unfold enumerate. intros H. apply list_elem_of_lookup in H as [k Hk].
  apply lookup_zip_with_Some in Hk as (a & b & [= <- <-] & Ha & Hb).
  apply lookup_seq in Ha as [-> Hlt]. simpl. lia.
Qed.

Lemma re_sub_once_absent (pat ins s : string) :
  str_in pat s = false → re_sub_once pat ins s = s.
Proof.
  rewrite str_in_split, re_sub_once_split.
  by destruct (split_first pat s) as [[x y] |].
Qed.

Lemma re_sub_once_length (pat ins s : string) :
  String.length s ≤ String.length (re_sub_once pat ins s)
  ∧ String.length (re_sub_once pat ins s) ≤ String.length s + String.length ins.
Proof.
  rewrite re_sub_once_split.
  destruct (split_first pat s) as [[x y] |] eqn:Hs; [| lia].
  pose proof (split_first_spec _ _ _ _ Hs) as Hsp. clear Hs. subst s.
  rewrite !str_length_app. lia.
Qed.

Lemma marker_step_length (comments : list comment) (s : string) (i a : nat) :
  String.length s ≤ String.length (marker_step comments s (i, a))
  ∧ String.length (marker_step comments s (i, a))
    ≤ String.length s + String.length (marker (i + 1)).
Proof.
  unfold marker_step. simpl.
  destruct (comments !! i) as [c |]; [| lia].
  destruct (negb (String.eqb (snippet c) "")); [apply re_sub_once_length | lia].
Qed.

Lemma markers_fold_length (comments : list comment) (l : list nat) (k : nat) (s : string) :
  String.length s
  ≤ String.length (fold_left (marker_step comments) (zip (seq k (length l)) l) s)
  ∧ String.length (fold_left (marker_step comments) (zip (seq k (length l)) l) s)
    ≤ String.length s + markers_length (k + 1) (length l).
Proof.
  revert k s. induction l as [| a l IH]; intros k s; [simpl; lia |].
  destruct (IH (S k) (marker_step comments s (k, a))) as [H1 H2].
  destruct (marker_step_length comments s k a) as [H3 H4].
  replace (S k + 1) with (S (k + 1)) in H2 by lia.
  change (fold_left (marker_step comments) (zip (seq k (length (a :: l))) (a :: l)) s)
    with (fold_left (marker_step comments) (zip (seq (S k) (length l)) l)
            (marker_step comments s (k, a))).
  change (markers_length (k + 1) (length (a :: l)))
    with (String.length (marker (k + 1)) + markers_length (S (k + 1)) (length l)).
  lia.
Qed.

Lemma section_step_fold (l : list (nat * comment)) (lines : list string) :
  fold_left section_step l lines
  = lines ++ flat_map (fun it => entry_lines (it.1 + 1) it.2) l.
Proof.
  revert lines. induction l as [| [i c] l IH]; intros lines; simpl.
  - by rewrite app_nil_r.
  - rewrite IH. unfold section_step at 1. simpl.
    assert (Hr : ∀ (rs : list reply) (ls : list string),
               fold_left (fun ls r => ls ++ [reply_line r]) rs ls = ls ++ map reply_line rs).
    { induction rs as [| r rs IHr]; intros ls; simpl; [by rewrite app_nil_r |].
      by rewrite IHr, <- app_assoc. }
    rewrite Hr. unfold entry_lines.
    destruct (replies c) as [| r rs]; simpl; rewrite <- ?app_assoc; simpl;
      rewrite <- ?app_assoc; reflexivity.
Qed.

End Markers.

(** Markers go to the comments that have a comment reference in the HTML
    export only: with [k] references, the comments after the first [k] are
    not looked at, and without any reference the text is returned as it
    is. *)
Theorem markers_stop_at_anchor_count (anchors : string → list nat)
    (content html : string) (comments : list comment) :
  DocsConverters.add_comment_markers_to_markdown anchors content html comments
  = DocsConverters.add_comment_markers_to_markdown anchors content html
      (take (length (anchors html)) comments)
  ∧ (anchors html = [] →
     DocsConverters.add_comment_markers_to_markdown anchors content html comments = content).
Proof.
  assert (Hmain : DocsConverters.add_comment_markers_to_markdown anchors content html comments
                  = DocsConverters.add_comment_markers_to_markdown anchors content html
                      (take (length (anchors html)) comments)).
  { unfold DocsConverters.add_comment_markers_to_markdown.
    pose proof (sorted_anchors_length anchors html) as Hsl.
    set (sorted := merge_sort Nat.le (anchors html)) in *.
    destruct comments as [| c cs]; [by rewrite take_nil |].
    destruct (take (length (anchors html)) (c :: cs)) as [| c' cs'] eqn:Ht.
    - destruct (anchors html) as [| a l]; [| discriminate Ht].
      destruct sorted; [| discriminate Hsl]. by rewrite take_nil.
    - rewrite <- Ht. clear Ht c' cs'.
      assert (Htake : take (length (take (length (anchors html)) (c :: cs))) sorted
                      = take (length (c :: cs)) sorted).
      { rewrite length_take. rewrite <- Hsl.
        destruct (Nat.le_ge_cases (length sorted) (length (c :: cs))) as [Hle | Hge].
        - rewrite Nat.min_l by done. by rewrite !take_ge.
        - by rewrite Nat.min_r. }
      rewrite Htake. apply fold_left_ext_in. intros acc [i a] Hin.
      apply enumerate_index in Hin. rewrite length_take in Hin.
      unfold DocsConverters.marker_step. simpl fst.
      rewrite lookup_take_lt by lia. reflexivity. }
  split; [exact Hmain |].
  intros Hnone. rewrite Hmain, Hnone. by destruct comments.
Qed.

(** A comment whose snippet is empty or does not occur in the text gets no
    marker: when this holds of every comment, the text is returned as it
    is. *)
Theorem absent_snippets_leave_text (anchors : string → list nat)
    (content html : string) (comments : list comment) :
  (∀ c, c ∈ comments → snippet c = "" ∨ str_in (snippet c) content = false) →
  DocsConverters.add_comment_markers_to_markdown anchors content html comments = content.
Proof.
  intros H. unfold DocsConverters.add_comment_markers_to_markdown.
  destruct comments as [| c0 cs]; [done |].
  set (comments := c0 :: cs) in *.
  generalize (DocsConverters.enumerate (take (length comments) (merge_sort Nat.le (anchors html)))).
  intros l. induction l as [| [i a] l IH]; simpl; [done |].
  assert (Hstep : DocsConverters.marker_step comments content (i, a) = content).
  { unfold DocsConverters.marker_step. simpl.
    destruct (comments !! i) as [c |] eqn:Hc; [| done].
    destruct (H c) as [He | Hn]; [by eapply list_elem_of_lookup_2 | |].
    - by rewrite He.
    - destruct (negb (String.eqb (snippet c) "")); [| done].
      by apply re_sub_once_absent. }
  by rewrite Hstep.
Qed.

Lemma absent_snippets_leave_text_witness :
  DocsConverters.add_comment_markers_to_markdown (fun _ => [1; 2]) "foo bar" ""
    [comment_on "baz"; comment_on ""] = "foo bar".
Proof.
  apply absent_snippets_leave_text.
  intros c Hc. apply elem_of_cons in Hc as [-> | Hc].
  - right. reflexivity.
  - apply list_elem_of_singleton in Hc as ->. left. reflexivity.
Defined.

(** The markers only add text: nothing of the content is removed, and the
    text grows by the markers of the comments that have a comment reference
    at most. *)
Theorem markers_only_add_text (anchors : string → list nat)
    (content html : string) (comments : list comment) :
  let result := DocsConverters.add_comment_markers_to_markdown anchors content html comments in
  String.length content ≤ String.length result
  ∧ String.length result
    ≤ String.length content
      + markers_length 1 (Nat.min (length comments) (length (anchors html))).
Proof.
  intros result. subst result. unfold DocsConverters.add_comment_markers_to_markdown.
  destruct comments as [| c0 cs]; [simpl; lia |].
  set (comments := c0 :: cs).
  pose proof (sorted_anchors_length anchors html) as Hsl.
  unfold DocsConverters.enumerate.
  pose proof (markers_fold_length comments
                (take (length comments) (merge_sort Nat.le (anchors html))) 0 content) as H.
  rewrite length_take, Hsl in H. rewrite length_take, Hsl. exact H.
Qed.

(** The section of the comments lists every comment, in the order of the
    list and numbered from one, whether its snippet was found or not: after
    the heading come, for each comment, its number, its line and the lines
    of its replies. The slides converter builds the same section under its
    own heading. *)
Theorem comment_section_lists_every_comment (markdown_content : string)
    (comments : list comment) :
  let entries :=
    flat_map (fun it => entry_lines (it.1 + 1) it.2) (DocsConverters.enumerate comments) in
  DocsConverters.add_comment_section markdown_content comments
  = match comments with
    | [] => markdown_content
    | _ => markdown_content
           +:+ join newline ([""; "---"; ""; "Comments:"; ""] ++ entries)
    end
  ∧ SlidesConverters._add_comment_section markdown_content comments
    = match comments with
      | [] => markdown_content
      | _ => markdown_content
             +:+ join newline ([""; "---"; ""; "## Comments"; ""] ++ entries)
      end.
Proof.
  intros entries. subst entries.
  unfold DocsConverters.add_comment_section, SlidesConverters._add_comment_section,
    DocsConverters.section_lines, SlidesConverters.section_lines.
  rewrite !section_step_fold. by destruct comments.
Qed.

(** ** Names of the extracted assets *)

Section Names.

Lemma read_number_padded (k n : nat) :
  read_number (repeat_char "0" k +:+ str_of_nat n) = Some n.
Proof.
  unfold read_number, str_of_nat.
  induction k as [| k IH].
  - rewrite str_app_nil_l, NilEmpty.usu. simpl. by rewrite DecimalNat.Unsigned.of_to.
  - change (repeat_char "0" (S k)) with (String "0" (repeat_char "0" k)).
    rewrite str_app_cons.
    change (NilEmpty.uint_of_string (String "0" ?s))
      with (uint_of_char "0" (NilEmpty.uint_of_string s)).
    destruct (NilEmpty.uint_of_string (repeat_char "0" k +:+ _)) as [d |];
      [| discriminate IH].
    simpl in *. exact IH.
Qed.

Lemma fmt_03d_inj (n m : nat) : fmt_03d n = fmt_03d m → n = m.
Proof.
  unfold fmt_03d. intros H.
  pose proof (read_number_padded (3 - String.length (str_of_nat n)) n) as Hn.
  rewrite H, read_number_padded in Hn. by injection Hn.
Qed.

Lemma str_take_app (a b : string) : str_take (String.length a) (a +:+ b) = a.
Proof.
  induction a as [| c a IH]; [by destruct b |].
  rewrite str_app_cons. simpl. by rewrite IH.
Qed.

Lemma rfind_dot_app (a b : string) (i : nat) (last : option nat) :
  Cache.rfind_dot (a +:+ b) i last
  = Cache.rfind_dot b (i + String.length a) (Cache.rfind_dot a i last).
Proof.
  revert i last. induction a as [| c a IH]; intros i last.
  - rewrite str_app_nil_l. simpl. by rewrite Nat.add_0_r.
  - rewrite str_app_cons. simpl. rewrite IH. f_equal. lia.
Qed.

Lemma rfind_dot_cons (c : ascii) (rest : string) (i : nat) (last : option nat) :
  Cache.rfind_dot (String c rest) i last
  = Cache.rfind_dot rest (S i) (if Ascii.eqb c "." then Some i else last).
Proof. reflexivity. Qed.

Lemma has_char_cons (c d : ascii) (rest : string) :
  SheetsConverters.has_char c (String d rest)
  = Ascii.eqb c d || SheetsConverters.has_char c rest.
Proof. reflexivity. Qed.

Lemma rfind_dot_none (e : string) (i : nat) (last : option nat) :
  SheetsConverters.has_char "." e = false → Cache.rfind_dot e i last = last.
Proof.
  revert i last. induction e as [| c e IH]; intros i last H; [done |].
  rewrite has_char_cons in H. apply orb_false_elim in H as [H1 H2].
  rewrite rfind_dot_cons, (Ascii.eqb_sym c "."), H1. by apply IH.
Qed.

(** The parts of a name made of a stem, a dot and an extension without
    dot. *)
Lemma stem_suffix (a e : string) :
  a ≠ "" → e ≠ "" → SheetsConverters.has_char "." e = false →
  Cache.stem (a +:+ String "." e) = a ∧ Cache.suffix (a +:+ String "." e) = String "." e.
Proof.
  intros Ha He Hdot. unfold Cache.stem, Cache.suffix.
  rewrite rfind_dot_app, rfind_dot_cons, Ascii.eqb_refl, rfind_dot_none by done.
  rewrite Nat.add_0_l, str_length_app.
  change (String.length (String "." e)) with (S (String.length e)).
  assert (H1 : (0 <? String.length a) = true).
  { apply Nat.ltb_lt. destruct a; [done | simpl; lia]. }
  assert (H2 : (String.length a <? String.length a + S (String.length e) - 1) = true).
  { apply Nat.ltb_lt. destruct e; [done | simpl; lia]. }
  rewrite H1, H2. simpl. by rewrite str_take_app, str_drop_app.
Qed.

Lemma table_get_cons (key k v : string) (rest : list (string * string)) (default : string) :
  SheetsConverters.table_get key ((k, v) :: rest) default
  = if String.eqb k key then v else SheetsConverters.table_get key rest default.
Proof. reflexivity. Qed.

Ltac table_extension_tac :=
  eexists; split; [reflexivity | split; [discriminate | split; reflexivity]].

Lemma sheet_extension (m : string) :
  table_extension (SheetsConverters._guess_extension_from_mime m).
Proof.
  unfold SheetsConverters._guess_extension_from_mime, SheetsConverters.mime_to_ext.
  repeat (rewrite table_get_cons; destruct (String.eqb _ m); [table_extension_tac |]).
  table_extension_tac.
Qed.

Lemma slide_extension (m : string) :
  table_extension (SlidesConverters._guess_extension_from_mime m).
Proof.
  unfold SlidesConverters._guess_extension_from_mime, SlidesConverters.mime_to_ext.
  repeat (rewrite table_get_cons; destruct (String.eqb _ m); [table_extension_tac |]).
  table_extension_tac.
Qed.

(** What a reload makes of an asset named by its anchor and an extension
    of the tables. *)
Lemma reloaded_named (a : ExportedAsset) (ext : string) :
  asset_anchor a ≠ "" → table_extension ext →
  asset_name a = asset_anchor a +:+ ext →
  reloaded a = with_mime a (mime_of_extension ext).
Proof.
  intros Ha (e & -> & He & Hdot & Hlow) Hname.
  destruct (stem_suffix (asset_anchor a) e Ha He Hdot) as [Hstem Hsuf].
  unfold reloaded, with_mime, Cache.mime_of_name, mime_of_extension.
  rewrite Hname, Hstem, Hsuf, Hlow. reflexivity.
Qed.

Lemma numbered_anchors_distinct (prefix : string) (c n : nat) :
  NoDup (map (fun k => prefix +:+ fmt_03d k) (seq c n)).
Proof.
  apply (NoDup_fmap_2_strong (fun k => prefix +:+ fmt_03d k)); [| apply NoDup_seq].
  intros x y _ _ H. by apply str_app_inv_head, fmt_03d_inj in H.
Qed.

(** Assets with the anchors of a numbering, each named by its anchor and
    an extension of the tables, have distinct names. *)
Lemma numbered_names_distinct (prefix : string) (c : nat) (assets : list ExportedAsset) :
  prefix ≠ "" →
  map asset_anchor assets = map (fun k => prefix +:+ fmt_03d k) (seq c (length assets)) →
  Forall (fun a => ∃ ext, table_extension ext ∧ asset_name a = asset_anchor a +:+ ext) assets →
  NoDup (map asset_name assets).
Proof.
  intros Hp Hanchors Hnames.
  apply (NoDup_fmap_1 Cache.stem).
  assert (Hstem : Cache.stem <$> map asset_name assets = map asset_anchor assets).
  { assert (Hne : Forall (fun a => asset_anchor a ≠ "") assets).
    { apply Forall_forall. intros a Ha.
      assert (Hin : asset_anchor a ∈ map asset_anchor assets)
        by (by apply (list_elem_of_fmap_2 asset_anchor)).
      rewrite Hanchors in Hin. apply list_elem_of_fmap in Hin as (k & -> & _).
      destruct prefix; [done | discriminate]. }
    clear Hanchors. induction assets as [| a assets IH]; [done |].
    inversion Hnames as [| ? ? (ext & (e & -> & He & Hdot & _) & Hname) Hrest]; subst.
    inversion Hne as [| ? ? Ha Hne']; subst.
    simpl. rewrite Hname.
    destruct (stem_suffix (asset_anchor a) e Ha He Hdot) as [-> _].
    f_equal. by apply IH. }
  rewrite Hstem, Hanchors. apply numbered_anchors_distinct.
Qed.

End Names.

Ltac in_list_tac :=
  repeat (apply elem_of_cons; first [left; reflexivity | right]).

Ltac not_in_list_tac H :=
  repeat (apply elem_of_cons in H as [H | H]; [first [discriminate H | congruence] |]);
  by apply elem_of_nil in H.

Lemma sheet_mime_kept (m : string) :
  mime_of_extension (SheetsConverters._guess_extension_from_mime m) = m
  ↔ m ∈ sheet_mimes_kept.
Proof.
  unfold SheetsConverters._guess_extension_from_mime, SheetsConverters.mime_to_ext,
    sheet_mimes_kept.
  repeat (rewrite table_get_cons;
          match goal with
          | |- context [String.eqb ?k m] => destruct (String.eqb_spec k m) as [<- | ?]
          end;
          [split; [intros H; first [by in_list_tac | discriminate H]
                  | intros H; first [reflexivity | not_in_list_tac H]] |]).
  change (mime_of_extension (SheetsConverters.table_get m [] ".bin"))
    with "application/octet-stream".
  split; [intros <-; in_list_tac | intros H].
  repeat (apply elem_of_cons in H as [H | H]; [first [done | congruence] |]).
  by apply elem_of_nil in H.
Qed.

Lemma slide_mime_kept (m : string) :
  mime_of_extension (SlidesConverters._guess_extension_from_mime m) = m
  ↔ m ∈ slide_mimes_kept.
Proof.
  unfold SlidesConverters._guess_extension_from_mime, SlidesConverters.mime_to_ext,
    slide_mimes_kept.
  repeat (rewrite table_get_cons;
          match goal with
          | |- context [String.eqb ?k m] => destruct (String.eqb_spec k m) as [<- | ?]
          end;
          [split; [intros H; first [by in_list_tac | discriminate H]
                  | intros H; first [reflexivity | not_in_list_tac H]] |]).
  change (mime_of_extension (SheetsConverters.table_get m [] ".png")) with "image/png".
  split; [intros <-; in_list_tac | intros H].
  repeat (apply elem_of_cons in H as [H | H]; [first [done | congruence] |]).
  by apply elem_of_nil in H.
Qed.

Section SheetNames.

Import SheetsConverters.

Variable img_srcs : string → list string.
Variable b64decode : string → result string.
Variable urlopen : string → result (string * option string).

Lemma numbered_snoc (assets : list ExportedAsset) (c0 counter : nat) (binary_data m : string) :
  map asset_anchor assets
  = map (fun k => "sheet_asset_" +:+ fmt_03d k) (seq c0 (length assets)) →
  counter = c0 + length assets →
  map asset_anchor (assets ++ [sheet_asset counter binary_data m])
  = map (fun k => "sheet_asset_" +:+ fmt_03d k)
        (seq c0 (length (assets ++ [sheet_asset counter binary_data m]))).
Proof.
  intros H ->. rewrite map_app, length_app, seq_app, map_app, <- H. reflexivity.
Qed.

Lemma extract_step_cases (rewritten : list string) (assets : list ExportedAsset)
    (counter : nat) (src : string) :
  (∃ rewritten', extract_step b64decode urlopen (rewritten, assets, counter) src
                 = (rewritten', assets, counter))
  ∨ (∃ rewritten' binary_data m,
       extract_step b64decode urlopen (rewritten, assets, counter) src
       = (rewritten', assets ++ [sheet_asset counter binary_data m], counter + 1)).
Proof.
  unfold extract_step.
  destruct (startswith "data:" src).
  - destruct (split_second ";base64," src) as [base64_data |]; [| left; by eexists].
    destruct (b64decode base64_data) as [binary_data | e];
      [right; by eexists _, _, _ | left; by eexists].
  - destruct (startswith "http://" src || startswith "https://" src); [| left; by eexists].
    destruct (urlopen src) as [[body header] | e];
      [right; by eexists _, _, _ | left; by eexists].
Qed.

Lemma extract_step_numbered (c0 : nat) (srcs : list string)
    (st : list string * list ExportedAsset * nat) :
  map asset_anchor st.1.2
  = map (fun k => "sheet_asset_" +:+ fmt_03d k) (seq c0 (length st.1.2)) →
  st.2 = c0 + length st.1.2 →
  Forall (fun a => asset_name a
                   = asset_anchor a +:+ _guess_extension_from_mime (asset_mime_type a))
         st.1.2 →
  let st' := fold_left (extract_step b64decode urlopen) srcs st in
  map asset_anchor st'.1.2
  = map (fun k => "sheet_asset_" +:+ fmt_03d k) (seq c0 (length st'.1.2))
  ∧ Forall (fun a => asset_name a
                     = asset_anchor a +:+ _guess_extension_from_mime (asset_mime_type a))
           st'.1.2.
Proof.
  revert st. induction srcs as [| src srcs IH]; intros [[rewritten assets] counter] Ha Hc Hn.
  - by split.
  - simpl in Ha, Hc, Hn. cbn [fold_left].
    destruct (extract_step_cases rewritten assets counter src)
      as [[rewritten' ->] | (rewritten' & binary_data & m & ->)].
    + by apply IH.
    + apply IH; simpl.
      * by apply numbered_snoc.
      * rewrite length_app. simpl. lia.
      * apply Forall_app. split; [done |]. constructor; [| constructor].
        unfold sheet_asset. simpl. by rewrite str_app_assoc.
Qed.

Lemma extract_assets_numbered (html_content : string) :
  let assets := (extract_assets_from_sheets_html img_srcs b64decode urlopen html_content).2 in
  map asset_anchor assets
  = map (fun k => "sheet_asset_" +:+ fmt_03d k) (seq 1 (length assets))
  ∧ Forall (fun a => asset_name a
                     = asset_anchor a +:+ _guess_extension_from_mime (asset_mime_type a))
           assets.
Proof.
  unfold extract_assets_from_sheets_html.
  pose proof (extract_step_numbered 1 (img_srcs html_content) ([], [], 1)
                eq_refl eq_refl (List.Forall_nil _)) as H.
  destruct (fold_left _ _ _) as [[rewritten assets] counter]. exact H.
Qed.

End SheetNames.

Section SlideNames.

Import SlidesConverters.

Variable requests_get : string → result (string * option string).

Lemma download_name (u : string) (counter : nat) :
  let a := _download_image_from_url requests_get u counter in
  asset_name a = asset_anchor a +:+ _guess_extension_from_mime (asset_mime_type a).
Proof.
  unfold _download_image_from_url.
  destruct (requests_get u) as [[body header] | e]; simpl.
  - by rewrite str_app_assoc.
  - unfold placeholder. simpl. by rewrite str_app_assoc.
Qed.

Lemma kept_assets_named (urls : list string) (counter : nat) :
  Forall (fun a => asset_name a
                   = asset_anchor a +:+ _guess_extension_from_mime (asset_mime_type a))
         (kept_assets requests_get urls counter).
Proof.
  revert counter. induction urls as [| u urls IH]; intros counter; simpl; [constructor |].
  destruct (String.eqb _ ""); [apply IH |].
  constructor; [apply download_name | apply IH].
Qed.

End SlideNames.

(** The assets of a sheet export are numbered from one in the order of
    extraction, whatever images failed: the anchor of the [k]-th asset is
    [sheet_asset_] followed by [k] on three digits, its name is the anchor
    with the extension of its mime type, and no two assets have the same
    name. *)
Theorem sheet_assets_named_by_number (img_srcs : string → list string)
    (b64decode : string → result string)
    (urlopen : string → result (string * option string)) (html_content : string) :
  let assets :=
    (SheetsConverters.extract_assets_from_sheets_html img_srcs b64decode urlopen
       html_content).2 in
  map asset_anchor assets
  = map (fun k => "sheet_asset_" +:+ fmt_03d k) (seq 1 (length assets))
  ∧ Forall (fun a => asset_name a
                     = asset_anchor a
                       +:+ SheetsConverters._guess_extension_from_mime (asset_mime_type a))
           assets
  ∧ NoDup (map asset_name assets).
Proof.
  intros assets.
  destruct (extract_assets_numbered img_srcs b64decode urlopen html_content) as [Ha Hn].
  fold assets in Ha, Hn. split; [done |]. split; [done |].
  apply (numbered_names_distinct "sheet_asset_" 1); [done | done |].
  eapply Forall_impl; [exact Hn |]. intros a Hname.
  eexists. split; [apply sheet_extension | exact Hname].
Qed.

(** The images of a deck have distinct names: the name of an image is its
    anchor with the extension of its mime type. *)
Theorem slide_assets_have_distinct_names
    (requests_get : string → result (string * option string))
    (deck : SlidesConverters.presentation) (cs : list comment) :
  let assets := (SlidesConverters.convert_slides_to_markdown requests_get deck cs).2 in
  Forall (fun a => asset_name a
                   = asset_anchor a
                     +:+ SlidesConverters._guess_extension_from_mime (asset_mime_type a))
         assets
  ∧ NoDup (map asset_name assets).
Proof.
  intros assets. subst assets. rewrite convert_slides_assets.
  pose proof (kept_assets_named requests_get (image_urls deck) 1) as Hn.
  split; [done |].
  apply (numbered_names_distinct "slide_image_" 1); [done | apply kept_assets_anchors |].
  eapply Forall_impl; [exact Hn |]. intros a Hname.
  eexists. split; [apply slide_extension | exact Hname].
Qed.

(** An asset of a sheet export, saved and loaded again, comes back with
    its name, its content and its anchor, and with the mime type of its
    extension: the mime type is the one extracted for the types of
    [sheet_mimes_kept] and for no other. *)
Theorem sheet_assets_after_reload (img_srcs : string → list string)
    (b64decode : string → result string)
    (urlopen : string → result (string * option string)) (html_content : string) :
  Forall (fun a =>
            reloaded a
            = with_mime a (mime_of_extension
                             (SheetsConverters._guess_extension_from_mime (asset_mime_type a)))
            ∧ (reloaded a = a ↔ asset_mime_type a ∈ sheet_mimes_kept))
    (SheetsConverters.extract_assets_from_sheets_html img_srcs b64decode urlopen
       html_content).2.
Proof.
  destruct (extract_assets_numbered img_srcs b64decode urlopen html_content) as [Ha Hn].
  set (assets := (SheetsConverters.extract_assets_from_sheets_html _ _ _ _).2) in *.
  apply Forall_forall. intros a Hin.
  assert (Hre : reloaded a
                = with_mime a (mime_of_extension
                                 (SheetsConverters._guess_extension_from_mime
                                    (asset_mime_type a)))).
  { apply reloaded_named; [| apply sheet_extension | by eapply Forall_forall in Hn].
    assert (Hanchor : asset_anchor a ∈ map asset_anchor assets)
      by (by apply (list_elem_of_fmap_2 asset_anchor)).
    rewrite Ha in Hanchor. apply list_elem_of_fmap in Hanchor as (k & -> & _). discriminate. }
  split; [exact Hre |]. rewrite Hre, <- sheet_mime_kept.
  destruct a as [n c an m]. unfold with_mime. simpl. split; [by intros [= ->] | by intros ->].
Qed.

(** An image of a deck, saved and loaded again, comes back with its name,
    its content and its anchor, and with the mime type of its extension:
    the mime type is the one of the download for the types of
    [slide_mimes_kept] and for no other. *)
Theorem slide_assets_after_reload
    (requests_get : string → result (string * option string))
    (deck : SlidesConverters.presentation) (cs : list comment) :
  Forall (fun a =>
            reloaded a
            = with_mime a (mime_of_extension
                             (SlidesConverters._guess_extension_from_mime (asset_mime_type a)))
            ∧ (reloaded a = a ↔ asset_mime_type a ∈ slide_mimes_kept))
    (SlidesConverters.convert_slides_to_markdown requests_get deck cs).2.
Proof.
  rewrite convert_slides_assets.
  pose proof (kept_assets_named requests_get (image_urls deck) 1) as Hn.
  pose proof (kept_assets_anchors requests_get (image_urls deck) 1) as Ha.
  set (assets := kept_assets requests_get (image_urls deck) 1) in *.
  apply Forall_forall. intros a Hin.
  assert (Hre : reloaded a
                = with_mime a (mime_of_extension
                                 (SlidesConverters._guess_extension_from_mime
                                    (asset_mime_type a)))).
  { apply reloaded_named; [| apply slide_extension | by eapply Forall_forall in Hn].
    assert (Hanchor : asset_anchor a ∈ map asset_anchor assets)
      by (by apply (list_elem_of_fmap_2 asset_anchor)).
    rewrite Ha in Hanchor. apply list_elem_of_fmap in Hanchor as (k & -> & _). discriminate. }
  split; [exact Hre |]. rewrite Hre, <- slide_mime_kept.
  destruct a as [n c an m]. unfold with_mime. simpl. split; [by intros [= ->] | by intros ->].
Qed.

(** ** Data URIs, tables and cells of a sheet *)

Section SheetTexts.

Import SheetsConverters.

Lemma before_char_app (c : ascii) (a rest : string) :
  has_char c a = false → before_char c (a +:+ String c rest) = a.
Proof.
  induction a as [| d a IH]; intros H.
  - rewrite str_app_nil_l. simpl. by rewrite Ascii.eqb_refl.
  - rewrite has_char_cons in H. apply orb_false_elim in H as [H1 H2].
    rewrite str_app_cons. simpl. rewrite H1. by rewrite IH.
Qed.

Lemma max_list_zero (l : list nat) : max_list l = 0 ↔ Forall (fun n => n = 0) l.
Proof.
  induction l as [| n l IH]; simpl.
  - split; [constructor | done].
  - split.
    + intros H. constructor; [lia |]. apply IH. lia.
    + intros H. inversion H as [| ? ? -> Hl]; subst. apply IH in Hl. lia.
Qed.

Lemma enumerate_lookup {A : Type} (l : list A) (i : nat) (x : A) :
  (i, x) ∈ DocsConverters.enumerate l ↔ l !! i = Some x.
Proof.
  unfold DocsConverters.enumerate. rewrite list_elem_of_lookup. split.
  - intros [k Hk]. apply lookup_zip_with_Some in Hk as (a & b & [= <- <-] & Ha & Hb).
    apply lookup_seq in Ha as [-> Hlt]. exact Hb.
  - intros H. exists i. apply lookup_zip_with_Some. exists i, x.
    split; [done |]. split; [| done].
    apply lookup_seq. split; [done |]. by eapply lookup_lt_Some.
Qed.

End SheetTexts.

(** The mime type of a data URI is the text between [data:] and the first
    semicolon. *)
Theorem data_uri_mime_type (m rest : string) :
  m ≠ "" → SheetsConverters.has_char ";" m = false →
  SheetsConverters._extract_mime_type_from_data_uri ("data:" +:+ m +:+ ";" +:+ rest) = m.
Proof.
  intros Hm Hsemi. unfold SheetsConverters._extract_mime_type_from_data_uri.
  rewrite startswith_app.
  change 5 with (String.length "data:"). rewrite str_drop_app.
  change (";" +:+ rest) with (String ";" rest).
  rewrite before_char_app by done.
  rewrite has_char_app, has_char_here, orb_true_r.
  destruct (String.eqb_spec m "") as [-> | _]; [done | reflexivity].
Qed.

Lemma data_uri_mime_type_witness :
  SheetsConverters._extract_mime_type_from_data_uri "data:image/png;base64,AAAA" = "image/png".
Proof.
  apply (data_uri_mime_type "image/png" "base64,AAAA"); [discriminate | reflexivity].
Defined.

(** A text that is not a data URI with a mime type has the mime type
    [application/octet-stream]: it does not start with [data:], or no
    semicolon follows, or the semicolon comes first. *)
Theorem data_uri_without_mime_type (data_uri : string) :
  startswith "data:" data_uri = false
  ∨ SheetsConverters.has_char ";" (str_drop 5 data_uri) = false
  ∨ startswith "data:;" data_uri = true →
  SheetsConverters._extract_mime_type_from_data_uri data_uri = "application/octet-stream".
Proof.
  unfold SheetsConverters._extract_mime_type_from_data_uri.
  intros [H | [H | H]].
  - by rewrite H.
  - rewrite H, andb_false_r. by destruct (startswith "data:" data_uri).
  - apply startswith_spec in H as [t ->].
    change ("data:;" +:+ t) with ("data:" +:+ String ";" t).
    rewrite startswith_app. change 5 with (String.length "data:"). rewrite str_drop_app.
    simpl. reflexivity.
Qed.

Lemma data_uri_without_mime_type_witness :
  SheetsConverters._extract_mime_type_from_data_uri "https://host/a.png"
  = "application/octet-stream".
Proof. apply data_uri_without_mime_type. left. reflexivity. Defined.

(** The table of a sheet is the empty text exactly when no row has a
    cell. *)
Theorem table_is_empty_without_cells (data_rows : list (list string)) :
  SheetsConverters._format_markdown_table data_rows = ""
  ↔ Forall (fun row => row = []) data_rows.
Proof.
  unfold SheetsConverters._format_markdown_table.
  destruct data_rows as [| row rows]; [by split |].
  set (rows' := row :: rows).
  destruct (max_list (map length rows') =? 0) eqn:Hmax.
  - apply Nat.eqb_eq, max_list_zero in Hmax. split; [intros _ | done].
    apply Forall_forall. intros r Hr.
    rewrite List.Forall_forall in Hmax.
    assert (H0 : length r = 0).
    { apply Hmax. apply in_map. by apply list_elem_of_In. }
    by destruct r.
  - apply Nat.eqb_neq in Hmax. split.
    + simpl. unfold SheetsConverters.table_row. intros H.
      apply (f_equal String.length) in H. rewrite !str_length_app in H.
      simpl in H. lia.
    + intros H. exfalso. apply Hmax. apply max_list_zero.
      apply List.Forall_forall. intros n Hn. apply in_map_iff in Hn as (r & <- & Hr).
      rewrite Forall_forall in H. apply list_elem_of_In in Hr. by rewrite (H r Hr).
Qed.

(** A comment is attached to one cell at most: an index in the lists of
    two cells is in the list of one cell, twice. The indices in the lists
    are indices of the list of comments. *)
Theorem comment_in_one_cell_at_most (json_loads : string → option jvalue)
    (comments : list comment) (sheets_data : list SheetsConverters.sheet)
    (key1 key2 : string) (l1 l2 : list nat) (i : nat) :
  let cells := SheetsConverters._map_comments_to_cells json_loads comments sheets_data in
  cells !! key1 = Some l1 → cells !! key2 = Some l2 → i ∈ l1 → i ∈ l2 →
  key1 = key2 ∧ i < length comments.
Proof.
  intros cells H1 H2 Hi1 Hi2.
  assert (Hat : ∀ key l, cells !! key = Some l → i ∈ l →
                ∃ c, comments !! i = Some c
                     ∧ attached_key json_loads (SheetsConverters.sheet_index sheets_data) c
                       = Some key).
  { intros key l Hl Hi.
    pose proof (map_step_fold json_loads (SheetsConverters.sheet_index sheets_data)
                  (DocsConverters.enumerate comments) ∅ key) as Hfold.
    fold (SheetsConverters._map_comments_to_cells json_loads comments sheets_data) in Hfold.
    fold cells in Hfold. rewrite Hl, lookup_empty in Hfold. simpl in Hfold. subst l.
    unfold indices_at in Hi. apply list_elem_of_fmap in Hi as ([i' c] & -> & Hin).
    apply list_elem_of_filter in Hin as [Hkey Hin]. simpl in *.
    apply enumerate_lookup in Hin. by exists c. }
  destruct (Hat key1 l1 H1 Hi1) as (c1 & Hc1 & Hk1).
  destruct (Hat key2 l2 H2 Hi2) as (c2 & Hc2 & Hk2).
  rewrite Hc1 in Hc2. injection Hc2 as <-. rewrite Hk1 in Hk2. injection Hk2 as <-.
  split; [done |]. by eapply lookup_lt_Some.
Qed.

Lemma comment_in_one_cell_at_most_witness :
  "Sheet1:0:1" = "Sheet1:0:1" ∧ 0 < 3.
Proof.
  apply (comment_in_one_cell_at_most (fun _ => None)
           [sheet_comment "y"; sheet_comment "z"; sheet_comment " x "] [xy_sheet]
           "Sheet1:0:1" "Sheet1:0:1" [0] [0] 0).
  - vm_compute. reflexivity.
  - vm_compute. reflexivity.
  - left.
  - left.
Defined.

(** ** Comments of a deck *)

Section SlideComments.

Import SlidesConverters.

Lemma find_slide_spec (snippet : string) (slides_data : list slide) (k r : nat) :
  find_slide snippet slides_data k = Some r ↔
  ∃ j, r = k + j ∧ slide_contains snippet slides_data j
       ∧ ∀ j', j' < j → ¬ slide_contains snippet slides_data j'.
Proof.
  revert k. induction slides_data as [| s ss IH]; intros k; simpl.
  - split; [discriminate | intros (j & _ & (s & H & _) & _); discriminate].
  - destruct (str_in snippet (text_content s)) eqn:Hs.
    + split.
      * intros [= <-]. exists 0. split; [lia |]. split; [by exists s | lia].
      * intros (j & -> & _ & Hmin). destruct j as [| j]; [f_equal; lia |].
        exfalso. apply (Hmin 0); [lia | by exists s].
    + rewrite IH. split.
      * intros (j & -> & (s' & Hl & Hc) & Hmin). exists (S j).
        split; [lia |]. split; [by exists s' |].
        intros [| j'] Hlt (s'' & Hl' & Hc'); simpl in Hl'.
        -- injection Hl' as <-. congruence.
        -- apply (Hmin j'); [lia | by exists s''].
      * intros (j & -> & (s' & Hl & Hc) & Hmin). destruct j as [| j]; simpl in Hl.
        -- injection Hl as <-. congruence.
        -- exists j. split; [lia |]. split; [by exists s' |].
           intros j' Hlt (s'' & Hl' & Hc'). apply (Hmin (S j')); [lia | by exists s''].
Qed.

Lemma find_slide_none (snippet : string) (slides_data : list slide) (k : nat) :
  find_slide snippet slides_data k = None ↔ ∀ j, ¬ slide_contains snippet slides_data j.
Proof.
  revert k. induction slides_data as [| s ss IH]; intros k; simpl.
  - split; [intros _ j (s & H & _); discriminate | done].
  - destruct (str_in snippet (text_content s)) eqn:Hs.
    + split; [discriminate |]. intros H. exfalso. apply (H 0). by exists s.
    + rewrite IH. split.
      * intros H [| j] (s' & Hl & Hc); simpl in Hl.
        -- injection Hl as <-. congruence.
        -- apply (H j). by exists s'.
      * intros H j (s' & Hl & Hc). apply (H (S j)). by exists s'.
Qed.

Lemma position_step_fold (slides_data : list slide) (ics : list (nat * comment))
    (positions : list (nat * (string * option nat))) :
  fold_left (position_step slides_data) ics positions
  = positions ++ omap (slide_position slides_data) ics.
Proof.
  revert positions. induction ics as [| ic ics IH]; intros positions; simpl.
  - by rewrite app_nil_r.
  - rewrite IH. unfold position_step, slide_position.
    destruct (String.eqb (strip (snippet ic.2)) ""); simpl; [done |].
    by rewrite <- app_assoc.
Qed.

End SlideComments.

(** The positions of the comments of a deck are, in the order of the
    comments and under their indices, those of the comments with a snippet
    that is not white space; the slide of a position is the first slide
    whose text contains the snippet, and there is none when no slide
    contains it. *)
Theorem comment_goes_to_first_slide_with_snippet (comments : list comment)
    (slides_data : list SlidesConverters.slide) :
  SlidesConverters._map_comments_to_slides comments slides_data
  = omap (slide_position slides_data) (DocsConverters.enumerate comments)
  ∧ (∀ snippet k,
       SlidesConverters.find_slide snippet slides_data 0 = Some k ↔
       slide_contains snippet slides_data k
       ∧ ∀ j, j < k → ¬ slide_contains snippet slides_data j)
  ∧ (∀ snippet,
       SlidesConverters.find_slide snippet slides_data 0 = None ↔
       ∀ j, ¬ slide_contains snippet slides_data j).
Proof.
  split; [| split].
  - unfold SlidesConverters._map_comments_to_slides. by rewrite position_step_fold.
  - intros snippet k. rewrite find_slide_spec. split.
    + intros (j & -> & H). exact H.
    + intros H. by exists k.
  - intros snippet. apply find_slide_none.
Qed.

(** A comment whose snippet is white space, or is in the text of no
    slide, gets no marker, wherever else its snippet occurs in the
    markdown: when this holds of every comment, the markdown is returned as
    it is. *)
Theorem snippets_outside_slides_leave_text (markdown_content : string)
    (comments : list comment) (slides_data : list SlidesConverters.slide) :
  (∀ c, c ∈ comments →
        strip (snippet c) = "" ∨ ∀ j, ¬ slide_contains (strip (snippet c)) slides_data j) →
  SlidesConverters._add_comment_markers_to_markdown markdown_content comments
    (SlidesConverters._map_comments_to_slides comments slides_data)
  = markdown_content.
Proof.
  intros H. unfold SlidesConverters._add_comment_markers_to_markdown,
    SlidesConverters._map_comments_to_slides.
  destruct comments as [| c0 cs]; [done |].
  set (comments := c0 :: cs) in *.
  rewrite position_step_fold, app_nil_l.
  assert (Hin : ∀ ic, ic ∈ DocsConverters.enumerate comments → ic.2 ∈ comments).
  { intros [i c] Hic. apply enumerate_lookup in Hic. by eapply list_elem_of_lookup_2. }
  revert Hin. generalize (DocsConverters.enumerate comments). intros ics.
  induction ics as [| ic ics IH]; intros Hin; [done |].
  simpl. unfold slide_position at 1.
  destruct (H ic.2) as [He | Hn]; [apply Hin; left | |].
  - rewrite He. simpl. apply IH. intros ic' Hic'. apply Hin. by right.
  - destruct (String.eqb (strip (snippet ic.2)) "").
    + apply IH. intros ic' Hic'. apply Hin. by right.
    + apply find_slide_none with (k := 0) in Hn. rewrite Hn.
      simpl. apply IH. intros ic' Hic'. apply Hin. by right.
Qed.

Lemma snippets_outside_slides_leave_text_witness :
  SlidesConverters._add_comment_markers_to_markdown "# --- Slide 1 ---" [comment_on "Slide"]
    (SlidesConverters._map_comments_to_slides [comment_on "Slide"]
       [{| SlidesConverters.slide_index := 0; SlidesConverters.text_content := "Title";
           SlidesConverters.speaker_notes := ""; SlidesConverters.images := [] |}])
  = "# --- Slide 1 ---".
Proof.
  apply snippets_outside_slides_leave_text.
  intros c Hc. apply list_elem_of_singleton in Hc as ->. right.
  intros [| j] (s & Hl & Hs); simpl in Hl; [| discriminate Hl].
  injection Hl as <-. vm_compute in Hs. discriminate Hs.
Defined.

(** ** The cache: records, errors and removal *)

Section StringOrder.

Lemma ascii_compare_lt_trans (a b c : ascii) :
  Ascii.compare a b = Lt → Ascii.compare b c = Lt → Ascii.compare a c = Lt.
Proof.
  unfold Ascii.compare. rewrite !N.compare_lt_iff. apply N.lt_trans.
Qed.

Lemma string_compare_cons (a b : ascii) (s t : string) :
  String.compare (String a s) (String b t)
  = match Ascii.compare a b with
    | Eq => String.compare s t
    | ne => ne
    end.
Proof. reflexivity. Qed.

Lemma string_compare_lt_trans (s t u : string) :
  String.compare s t = Lt → String.compare t u = Lt → String.compare s u = Lt.
Proof.
  revert t u. induction s as [| a s IH]; intros [| b t] [| c u]; try done.
  rewrite !string_compare_cons.
  destruct (Ascii.compare a b) eqn:Hab; [| | done].
  - apply Ascii.compare_eq_iff in Hab as ->.
    destruct (Ascii.compare b c) eqn:Hbc; [apply IH | done | done].
  - intros _. destruct (Ascii.compare b c) eqn:Hbc; [| | done].
    + apply Ascii.compare_eq_iff in Hbc as ->. by rewrite Hab.
    + by rewrite (ascii_compare_lt_trans _ _ _ Hab Hbc).
Qed.

Lemma leb_trans (s t u : string) :
  String.leb s t = true → String.leb t u = true → String.leb s u = true.
Proof.
  unfold String.leb.
  destruct (String.compare s t) eqn:Hst; [| | done].
  - apply String.compare_eq_iff in Hst as ->. done.
  - destruct (String.compare t u) eqn:Htu; [| | done].
    + apply String.compare_eq_iff in Htu as ->. by rewrite Hst.
    + by rewrite (string_compare_lt_trans _ _ _ Hst Htu).
Qed.

End StringOrder.

#[local] Instance name_le_trans : Transitive name_le.
Proof. intros s t u. apply leb_trans. Qed.

#[local] Instance name_le_total : Total name_le.
Proof. intros s t. apply String.leb_total. Qed.

(** An item that is skipped at a time is skipped at every earlier time:
    the answer of [should_skip_export] can only go from true to false as
    the current modified time grows. *)
Theorem skip_is_kept_at_earlier_times (item_id modified_time earlier : string)
    (base_path : list string) (d : disk) :
  Cache.should_skip_export item_id modified_time base_path d = Ok true →
  String.leb earlier modified_time = true →
  Cache.should_skip_export item_id earlier base_path d = Ok true.
Proof.
  unfold Cache.should_skip_export.
  destruct (Cache.get_cached_metadata item_id base_path d) as [v |]; [| discriminate].
  destruct (negb (truthy v)); [discriminate |].
  destruct v as [| | | | | members]; try discriminate.
  destruct (members_get "modified_time" members) as [cm |]; [| discriminate].
  destruct (negb (truthy cm)); [discriminate |].
  destruct cm as [| | | cached | |]; try discriminate.
  intros [= Hle] Hearlier. f_equal. by eapply leb_trans.
Qed.

Lemma skip_is_kept_at_earlier_times_witness :
  Cache.should_skip_export "doc1" "2024-01-01T00:00:00Z" ["out"]
    (Cache.save_to_disk (sample_export "2024-01-02T00:00:00Z" []) ["out"] ∅).2 = Ok true.
Proof.
  apply (skip_is_kept_at_earlier_times "doc1" "2024-01-02T00:00:00Z").
  - vm_compute. reflexivity.
  - vm_compute. reflexivity.
Defined.

(** [should_skip_export] raises on a record that is a JSON document of
    another shape: a record that is a list, a text or a number and is not
    falsy has no [get], and a modified time that is a number, a list or an
    object and is not falsy is not compared with a string. *)
Theorem malformed_record_raises (item_id modified_time : string) (base_path : list string)
    (d : disk) (v : jvalue) :
  d !! metadata_path item_id base_path = Some (File (JsonText v)) →
  truthy v = true →
  match v with
  | JObj members =>
      ∀ cached, members_get "modified_time" members = Some cached →
                truthy cached = true → (∀ s, cached ≠ JStr s) →
                Cache.should_skip_export item_id modified_time base_path d = Raise TypeError
  | _ => Cache.should_skip_export item_id modified_time base_path d = Raise AttributeError
  end.
Proof.
  intros Hfile Hv.
  pose proof (get_cached_metadata_file _ _ _ _ Hfile) as Hg.
  unfold Cache.should_skip_export.
  destruct v as [| b | z | s | l | members]; rewrite Hg, ?Hv; simpl; try done.
  intros cached Hm Hc Hstr. rewrite Hm, Hc. simpl.
  destruct cached; try done. by destruct (Hstr s).
Qed.

Lemma malformed_record_raises_witness :
  Cache.should_skip_export "doc1" "2024-01-02T00:00:00Z" ["out"]
    {[ ["out"; "doc1"; "metadata.json"] := File (JsonText (JArr [JNum 1])) ]}
  = Raise AttributeError.
Proof.
  apply (malformed_record_raises "doc1" "2024-01-02T00:00:00Z" ["out"] _ (JArr [JNum 1])).
  - vm_compute. reflexivity.
  - reflexivity.
Defined.

Section CacheRecords.

Import Cache.

Lemma prefix_of_app_singleton (base : list string) (a b : string) (rest : list string) :
  (base ++ [a]) `prefix_of` (base ++ b :: rest) → a = b.
Proof.
  intros [k Hk]. rewrite <- app_assoc in Hk. apply app_inv_head in Hk.
  by injection Hk.
Qed.

(** What a write changes outside the directory of the item: nothing, but
    for the directories above it. *)
Lemma save_writes_below (exported_item : ExportedItem) (base_path : list string)
    (d d' : disk) (p : list string) (q : list string) :
  save_to_disk exported_item base_path d = (Ok p, d') →
  ¬ ((base_path ++ [item_id exported_item]) `prefix_of` q) →
  d' !! q = d !! q
  ∨ (d' !! q = Some Dir ∧ q `prefix_of` (base_path ++ [item_id exported_item])).
Proof.
  intros Hsave Hq.
  destruct (save_to_disk_inv _ _ _ _ _ Hsave) as (d1 & d2 & data & Hmk & Hd2 & _ & Hd' & _).
  set (item_dir := base_path ++ [item_id exported_item]) in *.
  assert (Hbelow : ∀ x, q ≠ item_dir ++ x).
  { intros x ->. apply Hq. by exists x. }
  rewrite Hd'. rewrite with_assets_other.
  2: { intros a _. rewrite <- app_assoc. apply Hbelow. }
  rewrite !lookup_insert_ne by (apply not_eq_sym, Hbelow).
  assert (H2 : d2 !! q = d1 !! q).
  { destruct (assets exported_item); [by subst d2 |].
    apply mkdir_exist_ok_inv in Hd2 as [_ Hother]; [| by destruct item_dir].
    apply Hother, Hbelow. }
  rewrite H2.
  destruct (mkdir_parents_inv _ _ _ _ _ Hmk) as [H1 _].
  destruct (H1 q) as [-> | (-> & k & Hk & ->)]; [by left |].
  right. split; [done |]. simpl. exists (drop k item_dir). by rewrite take_drop.
Qed.

(** The functions on the record of an item read the disk at the path of
    the record only. *)
Lemma record_functions_local (item_id : string) (base_path : list string) (d d' : disk) :
  d' !! metadata_path item_id base_path = d !! metadata_path item_id base_path →
  get_cached_metadata item_id base_path d' = get_cached_metadata item_id base_path d
  ∧ cache_exists item_id base_path d' = cache_exists item_id base_path d
  ∧ ∀ t, should_skip_export item_id t base_path d' = should_skip_export item_id t base_path d.
Proof.
  intros H.
  assert (Hg : get_cached_metadata item_id base_path d'
               = get_cached_metadata item_id base_path d).
  { unfold get_cached_metadata, path_exists, read_file.
    fold (metadata_path item_id base_path).
    rewrite !node_at_cons by apply metadata_path_nonempty. by rewrite H. }
  split; [exact Hg |]. split.
  - unfold cache_exists, path_exists. fold (metadata_path item_id base_path).
    rewrite !node_at_cons by apply metadata_path_nonempty. by rewrite H.
  - intros t. unfold should_skip_export. by rewrite Hg.
Qed.

End CacheRecords.







Section CacheLoad.

Import Cache.

Variable json_dumps : jvalue → string.

Lemma rbind_ok {A B : Type} (r : result A) (k : A → result B) (b : B) :
  rbind r k = Ok b → ∃ a, r = Ok a ∧ k a = Ok b.
Proof. destruct r as [a | e]; [by exists a | discriminate]. Qed.

Lemma load_assets_names (d : disk) (assets_dir : list string) (names : list string)
    (l : list ExportedAsset) :
  load_assets json_dumps d assets_dir names = Ok l → map asset_name l `sublist_of` names.
Proof.
  revert l. induction names as [| n names IH]; intros l; simpl.
  - intros [= <-]. constructor.
  - destruct (is_file d (assets_dir ++ [n])).
    + intros H. apply rbind_ok in H as (data & _ & H).
      apply rbind_ok in H as (others & Ho & [= <-]).
      simpl. apply sublist_skip. by apply IH.
    + intros H. apply sublist_cons. by apply IH.
Qed.

Lemma sublist_sorted {A : Type} (R : relation A) (l l' : list A) :
  l' `sublist_of` l → StronglySorted R l → StronglySorted R l'.
Proof.
  intros Hsub. induction Hsub as [| x l1 l2 Hsub IH | x l1 l2 Hsub IH]; intros Hs.
  - constructor.
  - apply StronglySorted_inv in Hs as [Hs Hall]. constructor; [by apply IH |].
    rewrite Forall_forall in Hall. apply Forall_forall. intros y Hy. apply Hall.
    by eapply elem_of_sublist.
  - apply StronglySorted_inv in Hs as [Hs _]. by apply IH.
Qed.

(** The assets of an item that is loaded are the files of its directory of
    assets, in the order of their names. *)
Lemma load_from_disk_assets (item_id : string) (base_path : list string) (d : disk)
    (loaded : ExportedItem) :
  load_from_disk json_dumps item_id base_path d = Ok loaded →
  assets loaded = []
  ∨ ∃ names, iterdir d (base_path ++ [item_id] ++ ["assets"]) = Ok names
             ∧ load_assets json_dumps d (base_path ++ [item_id] ++ ["assets"]) names
               = Ok (assets loaded).
Proof.
  unfold load_from_disk.
  destruct (load_body json_dumps item_id base_path d) as [e | err] eqn:Hb;
    [| by destruct err].
  intros [= ->]. unfold load_body in Hb.
  destruct (negb (path_exists d (base_path ++ [item_id]))); [discriminate |].
  apply rbind_ok in Hb as (metadata & _ & Hb).
  apply rbind_ok in Hb as (comments & _ & Hb).
  apply rbind_ok in Hb as (content_format & _ & Hb).
  apply rbind_ok in Hb as (data & _ & Hb).
  apply rbind_ok in Hb as (the_assets & Hassets & Hb).
  apply rbind_ok in Hb as (the_id & _ & Hb).
  apply rbind_ok in Hb as (the_type & _ & Hb).
  apply rbind_ok in Hb as (the_title & _ & Hb).
  apply rbind_ok in Hb as (created & _ & Hb).
  apply rbind_ok in Hb as (modified & _ & Hb).
  injection Hb as <-. simpl.
  rewrite <- app_assoc in Hassets. simpl in Hassets.
  destruct (path_exists d (base_path ++ [item_id; "assets"])).
  - apply rbind_ok in Hassets as (names & Hn & Hl). right. by exists names.
  - injection Hassets as <-. by left.
Qed.

Lemma load_from_disk_missing (item_id : string) (base_path : list string) (d : disk) :
  d !! (base_path ++ [item_id]) = None →
  load_from_disk json_dumps item_id base_path d = Raise FileNotFoundError.
Proof.
  intros Hnone. unfold load_from_disk, load_body, path_exists.
  rewrite node_at_cons, Hnone by (by destruct base_path). reflexivity.
Qed.

End CacheLoad.

(** The assets of an item that is loaded come in the order of their names,
    the order of strings, whatever the order in which they were written,
    and no two of them have the same name. *)
Theorem loaded_assets_are_sorted_by_name (json_dumps : jvalue → string) (item_id : string)
    (base_path : list string) (d : disk) (loaded : ExportedItem) :
  Cache.load_from_disk json_dumps item_id base_path d = Ok loaded →
  StronglySorted name_le (map asset_name (assets loaded))
  ∧ NoDup (map asset_name (assets loaded)).
Proof.
  intros Hload.
  destruct (load_from_disk_assets json_dumps _ _ _ _ Hload) as [-> | (names & Hn & Hl)].
  - split; constructor.
  - apply load_assets_names in Hl.
    assert (Hsorted : StronglySorted name_le names ∧ NoDup names).
    { unfold iterdir in Hn.
      destruct (node_at d (base_path ++ [item_id] ++ ["assets"])) as [[| data] |] eqn:Hnode;
        try discriminate.
      injection Hn as <-. split; [apply StronglySorted_merge_sort; apply _ |].
      rewrite node_at_cons in Hnode by (by destruct base_path).
      destruct (iterdir_listing d _ Hnode) as (names & Hnames & Hnd & _);
        [by destruct base_path |].
      unfold iterdir in Hnames. rewrite node_at_cons, Hnode in Hnames by (by destruct base_path).
      by injection Hnames as <-. }
    destruct Hsorted as [Hs Hnd]. split.
    + by eapply sublist_sorted.
    + by eapply sublist_NoDup.
Qed.

Lemma loaded_assets_are_sorted_by_name_witness :
  ∃ loaded,
    Cache.load_from_disk (fun _ => "") "doc1" ["out"]
      (Cache.save_to_disk (sample_export "2024-01-02T00:00:00Z" [png_asset; jpg_asset])
         ["out"] ∅).2 = Ok loaded
    ∧ StronglySorted name_le (map asset_name (assets loaded)).
Proof.
  destruct (Cache.load_from_disk (fun _ => "") "doc1" ["out"]
              (Cache.save_to_disk (sample_export "2024-01-02T00:00:00Z" [png_asset; jpg_asset])
                 ["out"] ∅).2) as [loaded | e] eqn:Hload.
  - exists loaded. split; [done |].
    exact (proj1 (loaded_assets_are_sorted_by_name _ _ _ _ _ Hload)).
  - exfalso. vm_compute in Hload. discriminate Hload.
Defined.


Section CacheDelete.

Import Cache.

Lemma rmtree_below (p q : list string) (d : disk) :
  p `prefix_of` q → rmtree p d !! q = None.
Proof.
  intros Hp. unfold rmtree. apply map_lookup_filter_None_2.
  destruct (d !! q) as [x |]; [right | by left].
  intros y _ Hn. by apply Hn.
Qed.

Lemma rmtree_other (p q : list string) (d : disk) :
  ¬ p `prefix_of` q → rmtree p d !! q = d !! q.
Proof.
  intros Hp. unfold rmtree. destruct (d !! q) as [x |] eqn:Hq.
  - by apply map_lookup_filter_Some_2.
  - apply map_lookup_filter_None_2. by left.
Qed.

End CacheDelete.

(** [delete_from_disk] answers true exactly when the item has a directory
    in the cache. It then removes the directory with all that is below it,
    so that the item has no record any more, is not skipped at any time and
    cannot be loaded; when it answers false the disk is as it was. In both
    cases nothing outside the directory of the item changes. *)
Theorem delete_forgets_item (item_id : string) (base_path : list string) (d : disk) :
  let item_dir := base_path ++ [item_id] in
  let r := Cache.delete_from_disk item_id base_path d in
  (r.1 = true ↔ d !! item_dir = Some Dir)
  ∧ (r.1 = false → r.2 = d)
  ∧ (r.1 = true →
     (∀ q, item_dir `prefix_of` q → r.2 !! q = None)
     ∧ Cache.cache_exists item_id base_path r.2 = false
     ∧ (∀ t, Cache.should_skip_export item_id t base_path r.2 = Ok false)
     ∧ ∀ json_dumps,
         Cache.load_from_disk json_dumps item_id base_path r.2 = Raise FileNotFoundError)
  ∧ (∀ q, ¬ item_dir `prefix_of` q → r.2 !! q = d !! q).
Proof.
  intros item_dir r. subst r. unfold Cache.delete_from_disk, path_exists.
  fold item_dir.
  assert (Hne : item_dir ≠ []) by (unfold item_dir; by destruct base_path).
  rewrite node_at_cons by done.
  destruct (d !! item_dir) as [[| data] |] eqn:Hd; simpl;
    try (split; [by split | split; [done | split; [done | done]]]).
  split; [by split |]. split; [done |]. split.
  - intros _.
    assert (Hmeta : Cache.rmtree item_dir d !! metadata_path item_id base_path = None).
    { apply rmtree_below. exists ["metadata.json"]. unfold metadata_path, item_dir.
      by rewrite <- app_assoc. }
    split; [intros q; apply rmtree_below |]. split; [| split].
    + unfold Cache.cache_exists, path_exists. fold (metadata_path item_id base_path).
      rewrite node_at_cons by apply metadata_path_nonempty. by rewrite Hmeta.
    + intros t. unfold Cache.should_skip_export.
      rewrite get_cached_metadata_unusable by (by left). reflexivity.
    + intros json_dumps. apply load_from_disk_missing. by apply rmtree_below.
  - intros q. apply rmtree_other.
Qed.

(** An item that was written and is deleted is not in the cache any
    more. *)
Example delete_after_save :
  let d' := (Cache.save_to_disk (sample_export "2024-01-02T00:00:00Z" [png_asset]) ["out"] ∅).2 in
  (Cache.delete_from_disk "doc1" ["out"] d').1 = true
  ∧ Cache.should_skip_export "doc1" "2024-01-02T00:00:00Z" ["out"]
      (Cache.delete_from_disk "doc1" ["out"] d').2 = Ok false
  ∧ (Cache.delete_from_disk "doc2" ["out"] d').1 = false.
Proof. vm_compute. by repeat split. Qed.

(** ** The client: comments, exports and work units *)

Section ClientComments.

Import Drive.

Variable svc : services.

Lemma fetch_pages_listed (l : listing) (acc : list raw_comment) :
  match listed l with
  | Some cs => fetch_pages l acc = Ok (acc ++ cs)
  | None => ∃ e, fetch_pages l acc = Raise e
  end.
Proof.
  revert l acc. fix IH 1. intros [e | page [l' |]] acc; simpl.
  - by exists e.
  - specialize (IH l' (acc ++ page)).
    destruct (listed l') as [cs |]; simpl; [by rewrite IH, app_assoc | exact IH].
  - done.
Qed.

Lemma traverse_raise {A B : Type} (f : A → result B) (l : list A) (a : A) (e : exn) :
  a ∈ l → f a = Raise e → ∃ e', traverse f l = Raise e'.
Proof.
  induction l as [| b l IH]; intros Hin Hf; [by apply elem_of_nil in Hin |].
  apply elem_of_cons in Hin as [<- | Hin]; simpl.
  - rewrite Hf. by exists e.
  - destruct (f b) as [y | e1]; simpl; [| by exists e1].
    destruct (IH Hin Hf) as [e' ->]. by exists e'.
Qed.

Lemma traverse_ok {A B : Type} (f : A → result B) (l : list A) (r : list B) :
  traverse f l = Ok r → map f l = map Ok r.
Proof.
  revert r. induction l as [| a l IH]; intros r; simpl.
  - by intros [= <-].
  - destruct (f a) as [b |]; simpl; [| discriminate].
    destruct (traverse f l) as [bs |]; simpl; [| discriminate].
    intros [= <-]. simpl. by rewrite (IH bs).
Qed.

Lemma traverse_all_ok {A B : Type} (f : A → result B) (l : list A) :
  (∀ a, a ∈ l → ∃ b, f a = Ok b) → ∃ r, traverse f l = Ok r.
Proof.
  induction l as [| a l IH]; intros H; simpl; [by eexists |].
  destruct (H a) as [b ->]; [left |]. simpl.
  destruct IH as [r ->]; [intros x Hx; apply H; by right |]. by eexists.
Qed.

End ClientComments.

(** The comments of a file are formatted all together or not at all. When
    every page of the listing is fetched and every comment can be
    formatted, [get_comments] gives the formatted comments of all the pages,
    in the order of the listing; one comment that cannot be formatted, for
    want of an id or of a time that can be read, leaves an empty list. *)
Theorem comments_are_all_or_nothing (svc : Drive.services) (file_id : string)
    (cs : list Drive.raw_comment) :
  listed (Drive.comments_list svc file_id) = Some cs →
  ((∀ c, c ∈ cs → ∃ formatted, Drive.format_comment svc c = Ok formatted) →
   map Ok (Drive.get_comments svc file_id) = map (Drive.format_comment svc) cs)
  ∧ (∀ c e, c ∈ cs → Drive.format_comment svc c = Raise e →
            Drive.get_comments svc file_id = []).
Proof.
  intros Hl. pose proof (fetch_pages_listed (Drive.comments_list svc file_id) []) as Hf.
  rewrite Hl in Hf. simpl in Hf.
  unfold Drive.get_comments, Drive.get_comments_body. rewrite Hf. simpl. split.
  - intros Hall. destruct (traverse_all_ok _ _ Hall) as [r Hr]. rewrite Hr.
    symmetry. by apply traverse_ok.
  - intros c e Hin Hc. destruct (traverse_raise _ _ _ _ Hin Hc) as [e' ->]. done.
Qed.

Lemma comments_are_all_or_nothing_witness :
  Drive.get_comments (one_page_service [raw_comment_of (Some "c1"); raw_comment_of None]) "doc"
  = [].
Proof.
  apply (proj2 (comments_are_all_or_nothing
                  (one_page_service [raw_comment_of (Some "c1"); raw_comment_of None]) "doc"
                  [raw_comment_of (Some "c1"); raw_comment_of None] eq_refl)
           (raw_comment_of None) KeyError).
  - right. left.
  - reflexivity.
Defined.

Section ClientExports.

Import Drive.

Variable svc : services.

Lemma io_bind_read {A B : Type} (f : disk → result A) (k : A → io B) (d : disk) :
  io_bind (io_read f) k d
  = match f d with
    | Ok a => k a d
    | Raise e => (Raise e, d)
    end.
Proof. unfold io_bind, io_read. by destruct (f d). Qed.

(** An export that is not asked to be saved leaves the disk as it is,
    whatever it returns. *)
Theorem export_without_save_writes_nothing (item_id output_type : string)
    (cache_base_path : list string) (d : disk) :
  (export_document svc item_id output_type false cache_base_path d).2 = d.
Proof.
  unfold export_document. rewrite io_bind_read.
  destruct (get_item svc item_id) as [item | e]; [| done].
  destruct (negb (exportable (type item))); [done |].
  destruct (negb (String.eqb output_type "markdown" || String.eqb output_type "pdf"));
    [done |].
  rewrite io_bind_read.
  destruct (export_content svc item item_id output_type _) as [[[[c f] a] cm] | e]; done.
Qed.

(** An export is refused with a [ValueError], and the disk left as it is,
    when the item cannot be fetched, when it is not a document, a sheet or
    a deck, and when the output type is neither [markdown] nor [pdf]. *)
Theorem export_is_validated_first (item_id output_type : string) (save : bool)
    (cache_base_path : list string) (d : disk) :
  (∃ e, files_get svc item_id = Raise e)
  ∨ (∃ item, files_get svc item_id = Ok item ∧ exportable (type item) = false)
  ∨ (output_type ≠ "markdown" ∧ output_type ≠ "pdf") →
  ∃ msg, export_document svc item_id output_type save cache_base_path d
         = (Raise (ValueError msg), d).
Proof.
  unfold export_document. rewrite io_bind_read. unfold get_item.
  intros [[e He] | [(item & Hi & Ht) | [Hm Hp]]].
  - rewrite He. by eexists.
  - rewrite Hi, Ht. by eexists.
  - destruct (files_get svc item_id) as [item | e]; [| by eexists].
    destruct (negb (exportable (type item))); [by eexists |].
    apply String.eqb_neq in Hm, Hp. rewrite Hm, Hp. by eexists.
Qed.

Lemma io_bind_eq {A B : Type} (m : io A) (k : A → io B) (d : disk) :
  io_bind m k d
  = match m d with
    | (Ok a, d') => k a d'
    | (Raise e, d') => (Raise e, d')
    end.
Proof. reflexivity. Qed.

(** A work unit that is skipped writes nothing: the disk after it is the
    disk before. *)
Theorem skipped_unit_writes_nothing (item : DriveItem) (output_path : list string) (output_type : string)
    (parent_path : option (list string)) (d d' : disk) (r : entry) :
  _process_single_item svc item output_path output_type parent_path d = (r, d') →
  entry_status r = Some skipped → d' = d.
Proof.
  unfold _process_single_item, process_body.
  destruct (type item);
    try (unfold io_ret; by intros [= <- <-]);
    rewrite io_bind_read;
    match goal with
    | |- context [Cache.should_skip_export ?a ?b ?c d] =>
        destruct (Cache.should_skip_export a b c d) as [[|] | e]
    | |- context [Cache.raw_file_exists ?a ?b ?c d] =>
        destruct (Cache.raw_file_exists a b c d)
    end;
    try (unfold io_ret; by intros [= <- <-]);
    try (intros [= <- <-]; discriminate);
    repeat match goal with
           | |- context [io_bind ?m ?k ?d0] =>
               rewrite (io_bind_eq m k d0); destruct (m d0) as [[? | ?] ?]
           end;
    unfold io_ret; intros [= <- <-]; discriminate.
Qed.

End ClientExports.

Lemma export_is_validated_first_witness :
  ∃ msg, Drive.export_document five_service "doc1" "html" true ["out"] ∅
         = (Raise (ValueError msg), ∅).
Proof.
  apply export_is_validated_first. right. right. split; discriminate.
Defined.

Lemma skipped_unit_writes_nothing_witness :
  (Drive._process_single_item five_service (item_of "dir1" DIRECTORY) ["out"] "markdown"
     None ∅).2 = ∅.
Proof.
  apply (skipped_unit_writes_nothing five_service (item_of "dir1" DIRECTORY) ["out"]
           "markdown" None ∅ _
           (Drive._process_single_item five_service (item_of "dir1" DIRECTORY) ["out"]
              "markdown" None ∅).1).
  - apply injective_projections; reflexivity.
  - reflexivity.
Defined.

Section SecondRun.

Import Drive.

Variable svc : services.

Lemma skip_after_save (exported_item : ExportedItem) (base_path : list string)
    (d d' : disk) (p : list string) :
  Cache.save_to_disk exported_item base_path d = (Ok p, d') →
  item_modified_time exported_item ≠ "" →
  Cache.should_skip_export (item_id exported_item) (item_modified_time exported_item)
    base_path d' = Ok true.
Proof.
  intros Hsave Hne.
  pose proof (save_to_disk_metadata _ _ _ _ _ Hsave) as Hmd.
  pose proof (get_cached_metadata_file _ _ _ _ Hmd) as Hg. simpl in Hg.
  apply String.eqb_neq in Hne.
  rewrite (should_skip_object _ _ _ _ _ Hg). simpl. rewrite Hne. simpl.
  by rewrite leb_refl.
Qed.

Lemma export_document_saved (the_id output_type : string) (base_path : list string)
    (d d' : disk) (e : ExportedItem) :
  export_document svc the_id output_type true base_path d = (Ok e, d') →
  ∃ p, Cache.save_to_disk e base_path d = (Ok p, d')
       ∧ item_id e = the_id
       ∧ ∀ item, files_get svc the_id = Ok item → item_modified_time e = modified_time item.
Proof.
  unfold export_document. rewrite io_bind_read. unfold get_item.
  destruct (files_get svc the_id) as [item | err0]; [| discriminate].
  destruct (negb (exportable (type item))); [discriminate |].
  destruct (negb (String.eqb output_type "markdown" || String.eqb output_type "pdf"));
    [discriminate |].
  rewrite io_bind_read.
  destruct (export_content svc item the_id output_type _) as [[[[c f] a] cm] | err];
    [| discriminate].
  rewrite io_bind_eq, io_bind_eq.
  match goal with
  | |- context [Cache.save_to_disk ?ex base_path d] =>
      destruct (Cache.save_to_disk ex base_path d) as [[p | err] d1] eqn:Hsave
  end; [| discriminate].
  unfold io_ret. intros [= <- <-]. exists p. rewrite Hsave.
  split; [done |]. split; [done |]. by intros item' [= <-].
Qed.



End SecondRun.



Section Reach.

Import Drive.

Variable svc : services.

Lemma reachable_trans (root f x : string) :
  reachable svc root f → reachable svc f x → reachable svc root x.
Proof.
  intros Hf Hx. induction Hx as [| g c Hg IH Hc]; [done |].
  by apply (reachable_step svc root g c).
Qed.

Lemma collect_subfolders_collects
    (recurse : string → gset string → option (list string * gset string))
    (items : list DriveItem) :
  (∀ c v ids v', recurse c v = Some (ids, v') → collects svc c v ids v') →
  ∀ folder_ids v out v',
    collect_subfolders recurse items folder_ids v = Some (out, v') →
    ∃ new, out = folder_ids ++ new
           ∧ v' = v ∪ list_to_set new
           ∧ (∀ x, x ∈ new →
                   ∃ item, item ∈ items ∧ type item = DIRECTORY ∧ reachable svc (id item) x)
           ∧ (∀ item, item ∈ items → type item = DIRECTORY → id item ∈ v')
           ∧ ∀ x c, x ∈ v' → x ∉ v → subfolder svc x c → c ∈ v'.
Proof.
  intros Hrec. induction items as [| item rest IH]; intros folder_ids v out v'; simpl.
  - intros [= <- <-]. exists []. rewrite app_nil_r. split; [done |].
    split; [set_solver |]. split; [intros x Hx; by apply elem_of_nil in Hx |].
    split; [intros item Hitem; by apply elem_of_nil in Hitem | done].
  - destruct (decide (type item = DIRECTORY)) as [Hd | Hd].
    + destruct (recurse (id item) v) as [[sub v1] |] eqn:Hsub; [| discriminate].
      destruct (Hrec _ _ _ _ Hsub) as (Hv1 & Hin1 & Hreach1 & Hclosed1).
      intros Hrest. destruct (IH _ _ _ _ Hrest) as (new & -> & Hv' & Hreach & Hkids & Hclosed).
      exists (sub ++ new). split; [by rewrite app_assoc |].
      split; [rewrite Hv', Hv1, list_to_set_app_L; set_solver |].
      split; [| split].
      * intros x [Hx | Hx]%elem_of_app.
        -- exists item. split; [left | split; [done | by apply Hreach1]].
        -- destruct (Hreach x Hx) as (it & Hit & Hty & Hr). exists it.
           split; [by right | done].
      * intros it [-> | Hit]%elem_of_cons Hty; [| by apply Hkids].
        rewrite Hv'. set_solver.
      * intros x c Hx Hnv Hc. destruct (decide (x ∈ v1)) as [Hx1 | Hx1].
        -- rewrite Hv'. apply elem_of_union_l. by apply (Hclosed1 x c).
        -- by apply (Hclosed x c).
    + intros Hrest. destruct (IH _ _ _ _ Hrest) as (new & -> & Hv' & Hreach & Hkids & Hclosed).
      exists new. split; [done |]. split; [done |]. split; [| split; [| done]].
      * intros x Hx. destruct (Hreach x Hx) as (it & Hit & Hty & Hr). exists it.
        split; [by right | done].
      * intros it [-> | Hit]%elem_of_cons Hty; [done | by apply Hkids].
Qed.

Lemma collect_collects (fuel : nat) (f : string) (v : gset string) (ids : list string)
    (v' : gset string) :
  _collect_folder_ids_recursive svc fuel f v = Some (ids, v') → collects svc f v ids v'.
Proof.
  revert f v ids v'. induction fuel as [| fuel IH]; intros f v ids v'; [discriminate |].
  simpl. destruct (decide (f ∈ v)) as [Hin | Hnin].
  - intros [= <- <-]. split; [set_solver |]. split; [done |].
    split; [intros x Hx; by apply elem_of_nil in Hx | done].
  - destruct (list_items svc f) as [items | e] eqn:Hl.
    + intros Hc.
      destruct (collect_subfolders_collects _ items IH _ _ _ _ Hc)
        as (new & -> & Hv' & Hreach & Hkids & Hclosed).
      split; [rewrite Hv'; simpl; set_solver |]. split; [rewrite Hv'; set_solver |].
      split.
      * intros x [-> | Hx]%elem_of_cons; [constructor |].
        destruct (Hreach x Hx) as (it & Hit & Hty & Hr).
        apply (reachable_trans f (id it) x); [| done].
        apply (reachable_step svc f f (id it)); [constructor |]. by exists items, it.
      * intros x c Hx Hnv Hsub. destruct (decide (x = f)) as [-> | Hxf].
        -- destruct Hsub as (items' & it & Hl' & Hit & Hty & <-).
           rewrite Hl in Hl'. injection Hl' as <-. by apply Hkids.
        -- apply (Hclosed x c); [done | set_solver | done].
    + intros [= <- <-]. split; [simpl; set_solver |]. split; [set_solver |]. split.
      * intros x ->%list_elem_of_singleton. constructor.
      * intros x c Hx Hnv (items' & it & Hl' & _).
        assert (x = f) as -> by set_solver. congruence.
Qed.

End Reach.



(** ** The depth limit of the batch export *)

Section DepthLimit.

Import Drive.

Variable svc : services.
Variable output_path : list string.
Variable limit : nat.
Variable output_type : string.

(** With a depth limit, the loop over the items of a folder at depth
    [current_depth] returns when the calls at the next depth do. *)
Lemma export_items_within_limit
    (recurse : string → option DriveItem → nat → option (list string) → walk → option walk)
    (current_depth : nat) (folder_export_path : list string) (items : list DriveItem) :
  (current_depth < limit →
   ∀ f item parent w, ∃ w', recurse f item (current_depth + 1) parent w = Some w') →
  ∀ w, ∃ w',
    export_items svc output_path (Some limit) output_type recurse current_depth
      folder_export_path items w = Some w'.
Proof.
  intros Hrec. induction items as [| item rest IH]; intros w; simpl; [by eexists |].
  destruct (decide (type item = DIRECTORY)) as [Hd | Hd].
  - unfold may_recurse. destruct (current_depth <? limit) eqn:Hlt; [| apply IH].
    apply Nat.ltb_lt in Hlt.
    destruct (Hrec Hlt (id item) (Some item) (Some folder_export_path) w) as [w1 ->].
    apply IH.
  - destruct (_process_single_item svc item output_path output_type
                (Some folder_export_path) (b_disk (w_batch w))) as [result d1].
    apply IH.
Qed.

Lemma walk_within_limit (fuel : nat) :
  ∀ current_depth f item parent w,
    current_depth ≤ limit → limit < current_depth + fuel →
    ∃ w', collect_and_export_recursive svc output_path (Some limit) output_type fuel
            f item current_depth parent w = Some w'.
Proof.
  induction fuel as [| fuel IH]; intros current_depth f item parent w Hle Hlt; [lia |].
  simpl. destruct (decide (f ∈ w_visited w)); [by eexists |].
  destruct (open_folder svc f item _ _) as [[items | e] d1]; [| by eexists].
  apply export_items_within_limit. intros Hdepth f' item' parent' w'.
  apply IH; lia.
Qed.

(** At the depth of the limit, the loop enters no folder. *)
Lemma export_items_at_limit
    (recurse : string → option DriveItem → nat → option (list string) → walk → option walk)
    (folder_export_path : list string) (items : list DriveItem) (w w' : walk) :
  export_items svc output_path (Some limit) output_type recurse limit
    folder_export_path items w = Some w' →
  w_entered w' = w_entered w ∧ w_visited w' = w_visited w.
Proof.
  revert w. induction items as [| item rest IH]; intros w; simpl.
  - by intros [= <-].
  - destruct (decide (type item = DIRECTORY)) as [Hd | Hd].
    + unfold may_recurse. rewrite Nat.ltb_irrefl. apply IH.
    + destruct (_process_single_item svc item output_path output_type
                  (Some folder_export_path) (b_disk (w_batch w))) as [result d1].
      intros H. by apply IH in H.
Qed.

End DepthLimit.



(** ** Markers of snippets that do not overlap *)

Section Anchoring.

Import DocsConverters.

Lemma str_app_eq_app_r (a b c d : string) :
  a +:+ b = c +:+ d → String.length d ≤ String.length b →
  ∃ z, b = z +:+ d ∧ c = a +:+ z.
Proof.
  intros H Hlen.
  assert (Hl : String.length a ≤ String.length c).
  { apply (f_equal String.length) in H. rewrite !str_length_app in H. lia. }
  symmetry in H. destruct (str_app_eq_app _ _ _ _ H Hl) as (z & Hc & Hb).
  by exists z.
Qed.

Lemma str_app_eq_same_length (a b c d : string) :
  a +:+ b = c +:+ d → String.length a = String.length c → a = c ∧ b = d.
Proof.
  intros H Hlen. destruct (str_app_eq_app _ _ _ _ H) as (z & Ha & Hd); [lia |].
  assert (z = "") as ->.
  { apply str_length_zero. apply (f_equal String.length) in Ha.
    rewrite str_length_app in Ha. lia. }
  rewrite str_app_nil_r in Ha. by rewrite str_app_nil_l in Hd.
Qed.

Lemma render_unmarked (s : string) : render (unmarked s) = s.
Proof. induction s as [| c s IH]; [done |]. simpl. by rewrite str_app_nil_l, IH. Qed.

Lemma orig_unmarked (s : string) : orig (unmarked s) = s.
Proof. induction s as [| c s IH]; [done |]. simpl. by rewrite IH. Qed.

Lemma gaps_unmarked (s : string) (k : nat) (o : string) :
  gaps (unmarked s) !! k = Some o → o = "".
Proof.
  revert k. induction s as [| c s IH]; intros [| k]; simpl; try congruence.
  - by destruct k.
  - apply IH.
Qed.

Lemma gaps_length (d : marked_text) : length (gaps d) = S (String.length (orig d)).
Proof. induction d as [o | o c rest IH]; simpl; [done | by rewrite IH]. Qed.

(** *** Brackets *)

Lemma no_close_at_end (z s : string) :
  s ≠ "" → SheetsConverters.has_char "]" s = false → ¬ ∃ t, z +:+ s = t +:+ "]".
Proof.
  intros Hs Hc [t Ht].
  destruct (str_app_eq_app_r _ _ _ _ Ht) as (w & -> & _).
  { destruct s; [done | simpl; lia]. }
  rewrite has_char_app in Hc. apply orb_false_elim in Hc as [_ Hc]. discriminate Hc.
Qed.

Lemma no_open_at_start (s y t : string) :
  s ≠ "" → SheetsConverters.has_char "[" s = false → s +:+ y ≠ String "[" t.
Proof.
  intros Hs Hc H. destruct s as [| c s]; [done |].
  rewrite str_app_cons in H. injection H as -> _.
  rewrite has_char_cons in Hc. discriminate Hc.
Qed.

(** A marker put after an occurrence of a snippet inside a text inserted:
    the text stays bracketed. *)
Lemma bracketed_insert (x s y m : string) :
  s ≠ "" → SheetsConverters.has_char "[" s = false → SheetsConverters.has_char "]" s = false →
  bracketed (x +:+ s +:+ y) → bracketed (x +:+ s +:+ m +:+ y).
Proof.
  intros Hs Ho Hc [He | [[t Ht] [t' Ht']]].
  - exfalso. apply (f_equal String.length) in He. rewrite !str_length_app in He.
    destruct s; [done | simpl in He; lia].
  - right. split.
    + destruct x as [| c x].
      * rewrite str_app_nil_l in Ht. by apply no_open_at_start in Ht.
      * rewrite str_app_cons in Ht. injection Ht as -> _. rewrite str_app_cons. by eexists.
    + rewrite <- str_app_assoc in Ht'.
      destruct (str_app_eq_app_r _ _ _ _ Ht') as (w & -> & _).
      * destruct y as [| c y]; [| simpl; lia].
        exfalso. rewrite str_app_nil_r in Ht'. apply (no_close_at_end x s Hs Hc). by exists t'.
      * exists (x +:+ s +:+ m +:+ w). by rewrite !str_app_assoc.
Qed.

Lemma bracketed_marker (k : nat) (old : string) :
  bracketed old → bracketed (marker k +:+ old).
Proof.
  intros Hold. right. unfold marker. split; [by eexists |].
  destruct Hold as [-> | [_ [t ->]]].
  - rewrite str_app_nil_r. exists ("[" +:+ str_of_nat k). symmetry. apply str_app_assoc.
  - exists (("[" +:+ str_of_nat k +:+ "]") +:+ t). symmetry. apply str_app_assoc.
Qed.

(** *** One marker *)

(** A marker put after a run of characters of the content at the start of
    the text: it comes before what was inserted at that place. *)
Lemma insert_after_prefix (s : string) : ∀ (d : marked_text) (y m : string),
  SheetsConverters.has_char "[" s = false →
  Forall bracketed (gaps d) →
  render d = s +:+ y →
  ∃ d' old b, render d' = s +:+ m +:+ y ∧ orig d' = orig d
    ∧ gaps d !! String.length s = Some old
    ∧ gaps d' = <[String.length s := m +:+ old]> (gaps d)
    ∧ orig d = s +:+ b.
Proof.
  induction s as [| c s IH]; intros d y m Hc Hb Hr.
  - rewrite str_app_nil_l in Hr. destruct d as [o | o c0 rest]; simpl in *.
    + exists (Last (m +:+ o)), o, "". simpl. by rewrite Hr.
    + exists (Seg (m +:+ o) c0 rest), o, (String c0 (orig rest)). simpl.
      by rewrite str_app_assoc, Hr.
  - rewrite has_char_cons in Hc. apply orb_false_elim in Hc as [Hc0 Hc].
    rewrite str_app_cons in Hr.
    assert (Ho : ∀ o t, bracketed o → o +:+ t = String c (s +:+ y) → o = "").
    { intros o t [-> | [[t' ->] _]] H; [done |].
      rewrite str_app_cons in H. injection H as <- _. by rewrite Ascii.eqb_refl in Hc0. }
    destruct d as [o | o c0 rest]; simpl in *.
    + apply Forall_inv in Hb. assert (o = "") as ->; [| discriminate Hr].
      apply (Ho o ""); [done | by rewrite str_app_nil_r].
    + pose proof (Forall_inv Hb) as Hbo. apply Forall_inv_tail in Hb.
      pose proof (Ho _ _ Hbo Hr) as ->. rewrite str_app_nil_l in Hr.
      injection Hr as -> Hr.
      destruct (IH rest y m Hc Hb Hr) as (d' & old & b & Hr' & Ho' & Hg & Hg' & Hob).
      exists (Seg "" c d'), old, b. simpl.
      rewrite str_app_nil_l, Hr', Ho', Hg', Hob. by rewrite !str_app_cons.
Qed.

(** A marker put after an occurrence of a plain snippet in the text: the
    occurrence lies in a text inserted before, or it is an occurrence in
    the content and the marker comes right after it. *)
Lemma insert_after_occurrence (s m : string) : ∀ (d : marked_text) (x y : string),
  plain s = true → (∀ old, bracketed old → bracketed (m +:+ old)) →
  Forall bracketed (gaps d) →
  render d = x +:+ s +:+ y →
  ∃ d' g old new, render d' = x +:+ s +:+ m +:+ y ∧ orig d' = orig d
    ∧ gaps d !! g = Some old
    ∧ gaps d' = <[g := new]> (gaps d)
    ∧ bracketed new
    ∧ (old ≠ "" ∨ ∃ a b, orig d = a +:+ s +:+ b ∧ g = String.length a + String.length s).
Proof.
  intros d x y Hp Hm. unfold plain in Hp.
  apply andb_prop in Hp as [Hp Hclose]. apply andb_prop in Hp as [Hne Hopen].
  apply negb_true_iff in Hne, Hopen, Hclose. apply String.eqb_neq in Hne.
  assert (Hlen : 0 < String.length s) by (destruct s; [done | simpl; lia]).
  revert x. induction d as [o | o c rest IH]; intros x Hb Hr; simpl in *.
  - apply Forall_inv in Hb.
    exists (Last (x +:+ s +:+ m +:+ y)), 0, o, (x +:+ s +:+ m +:+ y). simpl.
    repeat split; try done.
    + apply bracketed_insert; try done. by rewrite <- Hr.
    + left. intros ->. apply (f_equal String.length) in Hr.
      rewrite !str_length_app in Hr. simpl in Hr. lia.
  - pose proof (Forall_inv Hb) as Hbo. apply Forall_inv_tail in Hb.
    destruct (decide (String.length x + String.length s ≤ String.length o)) as [Hin |Hout].
    { (* inside the text inserted *)
      rewrite <- (str_app_assoc x s y) in Hr.
      destruct (str_app_eq_app _ _ _ _ Hr) as (z & Ho & Hy).
      { rewrite str_length_app. lia. }
      exists (Seg (x +:+ s +:+ m +:+ z) c rest), 0, o, (x +:+ s +:+ m +:+ z). simpl.
      repeat split; try done.
      - rewrite Hy. by rewrite !str_app_assoc.
      - apply bracketed_insert; try done. by rewrite <- str_app_assoc, <- Ho.
      - left. intros ->. simpl in Hin. lia. }
    destruct (decide (String.length o < String.length x)) as [Hafter | Hnot].
    { (* after the first character of the content *)
      assert (Hr' : (o +:+ String c "") +:+ render rest = x +:+ s +:+ y).
      { by rewrite str_app_assoc. }
      symmetry in Hr'. destruct (str_app_eq_app _ _ _ _ Hr') as (z & Hx & Hrest).
      { rewrite str_length_app. simpl. lia. }
      destruct (IH z Hb Hrest) as (d' & g & old & new & Hrd & Hod & Hg & Hg' & Hnew & Hcase).
      exists (Seg o c d'), (S g), old, new. simpl.
      rewrite Hrd, Hod, Hg'. repeat split; try done.
      - rewrite Hx. by rewrite !str_app_assoc.
      - destruct Hcase as [Hold | (a & b & Hab & ->)]; [by left | right].
        exists (String c a), b. rewrite Hab. by rewrite str_app_cons. }
    destruct (decide (String.length x = String.length o)) as [Heq | Hcut].
    { (* at the first character of the content *)
      symmetry in Hr. destruct (str_app_eq_same_length _ _ _ _ Hr Heq) as [-> Hs].
      destruct s as [| c' s]; [done |]. rewrite str_app_cons in Hs. injection Hs as -> Hs.
      rewrite has_char_cons in Hopen. apply orb_false_elim in Hopen as [_ Hopen].
      symmetry in Hs.
      destruct (insert_after_prefix s rest y m Hopen Hb Hs)
        as (d' & old & b & Hrd & Hod & Hg & Hg' & Hob).
      exists (Seg o c d'), (S (String.length s)), old, (m +:+ old). simpl.
      rewrite Hrd, Hod, Hg'. repeat split; try done.
      - apply Hm. eapply Forall_forall in Hb; [exact Hb |]. by eapply list_elem_of_lookup_2.
      - right. exists "", b. by rewrite Hob, str_app_nil_l, str_app_cons. }
    (* the text inserted would end inside the snippet *)
    exfalso.
    destruct (str_app_eq_app _ _ _ _ Hr) as (z & Ho & Hsy); [lia |].
    assert (Hz : z ≠ "").
    { intros ->. rewrite str_app_nil_r in Ho. subst o. lia. }
    assert (Hzs : String.length z < String.length s).
    { apply (f_equal String.length) in Ho. rewrite str_length_app in Ho. lia. }
    destruct (str_app_eq_app _ _ _ _ Hsy) as (w & Hs & _); [lia |].
    destruct Hbo as [-> | [_ Hend]]; [by destruct x, z |].
    subst o. apply (no_close_at_end x z Hz); [| done].
    rewrite Hs, has_char_app in Hclose. by apply orb_false_elim in Hclose as [? _].
Qed.

(** *** Occurrences in the content *)

Lemma occurrences_eq (pat s : string) :
  occurrences pat s
  = (if startswith pat s then [0] else [])
    ++ match s with
       | EmptyString => []
       | String _ rest => map S (occurrences pat rest)
       end.
Proof. by destruct s. Qed.

Lemma occurrences_app (pat a b : string) :
  In (String.length a) (occurrences pat (a +:+ pat +:+ b)).
Proof.
  induction a as [| c a IH]; rewrite occurrences_eq; apply in_or_app.
  - left. rewrite str_app_nil_l, startswith_app. by left.
  - right. rewrite str_app_cons. simpl. by apply in_map.
Qed.

Lemma str_in_occurs (pat s : string) :
  str_in pat s = true → ∃ x y, s = x +:+ pat +:+ y.
Proof.
  rewrite str_in_split. destruct (split_first pat s) as [[x y] |] eqn:Hs; [| done].
  intros _. exists x, y. by apply split_first_spec.
Qed.

(** An occurrence at the start of the content with nothing inserted
    inside it stands in the text, after what was inserted at the start. *)
Lemma occurrence_at_start (t : string) : ∀ (d : marked_text) (b : string),
  t ≠ "" → orig d = t +:+ b →
  (∀ k, 0 < k → k < String.length t → gaps d !! k = Some "") →
  ∃ o y, render d = o +:+ t +:+ y ∧ gaps d !! 0 = Some o.
Proof.
  induction t as [| c t IH]; intros d b Hne Ho Hk; [done |].
  destruct d as [o | o c0 rest]; [discriminate Ho |].
  simpl in Ho. rewrite str_app_cons in Ho. injection Ho as -> Ho.
  destruct (decide (t = "")) as [-> | Ht].
  - exists o, (render rest). by rewrite str_app_cons, str_app_nil_l.
  - destruct (IH rest b Ht Ho) as (o' & y & Hr & Hg).
    { intros k Hk1 Hk2. apply (Hk (S k)); simpl; lia. }
    assert (o' = "") as ->.
    { specialize (Hk 1). simpl in Hk. rewrite Hg in Hk.
      destruct t; [done |]. simpl in Hk. injection Hk; [done | lia | lia]. }
    exists o, y. simpl. by rewrite Hr, str_app_nil_l, str_app_cons.
Qed.

(** An occurrence in the content with nothing inserted inside it stands
    in the text. *)
Lemma occurrence_survives (t : string) (d : marked_text) :
  t ≠ "" → untouched d t → ∀ a b, orig d = a +:+ t +:+ b →
  ∃ x y, render d = x +:+ t +:+ y.
Proof.
  intros Hne. induction d as [o | o c rest IH]; intros Hu a b Ho.
  - simpl in Ho. destruct a, t; done.
  - destruct a as [| c' a].
    + rewrite str_app_nil_l in Ho.
      destruct (occurrence_at_start t (Seg o c rest) b Hne Ho) as (o' & y & Hr & _).
      { intros k Hk1 Hk2. apply (Hu "" b k); [by rewrite str_app_nil_l | simpl; lia | simpl; lia]. }
      by exists o', y.
    + simpl in Ho. rewrite str_app_cons in Ho. injection Ho as -> Ho.
      destruct (IH) with (a := a) (b := b) as (x & y & Hr); [| done |].
      { intros a' b' k Hab Hk1 Hk2.
        apply (Hu (String c' a') b' (S k)); simpl; [by rewrite Hab, str_app_cons | lia | lia]. }
      exists (o +:+ String c' x), y. simpl. by rewrite Hr, str_app_assoc, str_app_cons.
Qed.

(** A marker put where no later snippet is cut leaves the occurrences of
    the later snippet as they are. *)
Lemma untouched_insert (d d' : marked_text) (s t : string) (g : nat) (old new : string) :
  orig d' = orig d → gaps d !! g = Some old → gaps d' = <[g := new]> (gaps d) →
  (old ≠ "" ∨ ∃ a b, orig d = a +:+ s +:+ b ∧ g = String.length a + String.length s) →
  ends_inside (orig d) s t = false →
  untouched d t → untouched d' t.
Proof.
  intros Ho Hg Hg' Hcase Hends Hu a b k Hab Hk1 Hk2.
  rewrite Ho in Hab. rewrite Hg'.
  destruct (decide (k = g)) as [-> | Hne].
  - exfalso. destruct Hcase as [Hold | (a0 & b0 & Hab0 & ->)].
    + rewrite (Hu a b g Hab Hk1 Hk2) in Hg. by injection Hg as <-.
    + assert (Ht : ends_inside (orig d) s t = true); [| congruence].
      unfold ends_inside. apply existsb_exists. exists (String.length a0). split.
      { rewrite Hab0. apply occurrences_app. }
      apply existsb_exists. exists (String.length a). split.
      { rewrite Hab. apply occurrences_app. }
      apply andb_true_intro. split; by apply Nat.ltb_lt.
  - rewrite list_lookup_insert_ne by done. by apply (Hu a b k).
Qed.

(** *** All the markers *)

Lemma mark_all_marked (snippets : list string) : ∀ (k : nat) (d : marked_text),
  Forall bracketed (gaps d) →
  Forall (fun s => plain s = true ∧ str_in s (orig d) = true ∧ untouched d s) snippets →
  compatible (orig d) snippets = true →
  marked k snippets (render d) (mark_all k snippets (render d))
  ∧ String.length (mark_all k snippets (render d))
    = String.length (render d) + markers_length k (length snippets).
Proof.
  induction snippets as [| s rest IH]; intros k d Hb Hs Hc.
  - simpl. split; [constructor | lia].
  - pose proof (Forall_inv Hs) as (Hp & Hin & Hu). apply Forall_inv_tail in Hs.
    simpl in Hc. apply andb_prop in Hc as [Hcs Hc].
    assert (Hne : s ≠ "").
    { intros ->. discriminate Hp. }
    destruct (str_in_occurs _ _ Hin) as (a & b & Hab).
    destruct (occurrence_survives s d Hne Hu a b Hab) as (x0 & y0 & Hr0).
    destruct (split_first_occurs _ _ _ _ Hr0) as (x & y & Hsp).
    pose proof (split_first_spec _ _ _ _ Hsp) as Hr.
    destruct (insert_after_occurrence s (marker k) d x y Hp (bracketed_marker k) Hb Hr)
      as (d' & g & old & new & Hr' & Ho' & Hg & Hg' & Hnew & Hcase).
    destruct (IH (S k) d') as [Hm Hl].
    { rewrite Hg'. by apply Forall_insert. }
    { rewrite Ho'. apply Forall_forall. intros t Ht.
      pose proof (proj1 (Forall_forall _ _) Hs t Ht) as (Hpt & Hint & Hut).
      repeat split; try done.
      apply (untouched_insert d d' s t g old new Ho' Hg Hg' Hcase); [| done].
      apply negb_true_iff. apply (proj1 (forallb_forall _ _) Hcs).
      by apply list_elem_of_In. }
    { by rewrite Ho'. }
    change (mark_all k (s :: rest) (render d))
      with (mark_all (S k) rest (re_sub_once s (marker k) (render d))).
    rewrite re_sub_once_split, Hsp, <- Hr'. split.
    + rewrite Hr at 1. apply marked_cons. by rewrite <- Hr'.
    + rewrite Hl, Hr', Hr. rewrite !str_length_app. simpl. lia.
Qed.

(** The loop over the comment references is the loop over the snippets
    of as many comments. *)
Lemma marker_steps_mark_all (comments : list comment) (l : list nat) :
  ∀ (k : nat) (text : string),
  k + length l ≤ length comments →
  Forall (fun c => snippet c ≠ "") comments →
  fold_left (marker_step comments) (zip (seq k (length l)) l) text
  = mark_all (k + 1) (map snippet (take (length l) (drop k comments))) text.
Proof.
  induction l as [| a l IH]; intros k text Hlen Hne; [done |].
  simpl in Hlen.
  destruct (lookup_lt_is_Some_2 comments k) as [c Hc]; [lia |].
  rewrite (drop_S _ _ _ Hc).
  change (fold_left (marker_step comments) (zip (seq k (length (a :: l))) (a :: l)) text)
    with (fold_left (marker_step comments) (zip (seq (S k) (length l)) l)
            (marker_step comments text (k, a))).
  rewrite IH by (done || lia).
  replace (S k + 1) with (S (k + 1)) by lia.
  unfold marker_step. simpl. rewrite Hc.
  assert (Hs : snippet c ≠ "").
  { eapply Forall_forall in Hne; [exact Hne |]. by eapply list_elem_of_lookup_2. }
  apply String.eqb_neq in Hs. by rewrite Hs.
Qed.

Lemma untouched_unmarked (content t : string) : untouched (unmarked content) t.
Proof.
  intros a b k Hab Hk1 Hk2. rewrite orig_unmarked in Hab.
  destruct (lookup_lt_is_Some_2 (gaps (unmarked content)) k) as [o Ho].
  { rewrite gaps_length, orig_unmarked, Hab, !str_length_app. lia. }
  by rewrite Ho, (gaps_unmarked _ _ _ Ho).
Qed.

Lemma bracketed_unmarked (content : string) : Forall bracketed (gaps (unmarked content)).
Proof.
  apply Forall_forall. intros o Ho. apply list_elem_of_lookup in Ho as [k Hk].
  left. by apply (gaps_unmarked _ _ _ Hk).
Qed.

Lemma markers_mark_all (anchors : string → list nat) (content html : string)
    (comments : list comment) :
  length comments ≤ length (anchors html) →
  Forall (fun c => snippet c ≠ "") comments →
  add_comment_markers_to_markdown anchors content html comments
  = mark_all 1 (map snippet comments) content.
Proof.
  intros Hlen Hne. unfold add_comment_markers_to_markdown.
  destruct comments as [| c0 cs] eqn:E; [done |]. rewrite <- E in *. clear E c0 cs.
  unfold enumerate.
  assert (Htop : length (take (length comments) (merge_sort Nat.le (anchors html)))
                 = length comments).
  { rewrite length_take, sorted_anchors_length. lia. }
  rewrite (marker_steps_mark_all comments _ 0 content); [| lia | done].
  by rewrite Htop, drop_0, firstn_all.
Qed.

End Anchoring.

(** The claim on snippets that occur once does not hold as the
    specification states it: the marker of the first snippet cuts the
    second one. *)
Lemma unique_snippets_all_marked_fails : ¬ unique_snippets_all_marked.
Proof.
  intros H.
  specialize (H (fun _ => [1; 2]) "abc" "" [comment_on "ab"; comment_on "bc"]).
  assert (Hlen : 6 = 9); [| discriminate Hlen].
  apply H; [simpl; lia |].
  intros c Hc. apply elem_of_cons in Hc as [-> | Hc]; [by vm_compute |].
  apply list_elem_of_singleton in Hc as ->. by vm_compute.
Qed.

(** The markers of snippets that do not cut one another. When the HTML
    export has at least as many comment references as there are comments,
    every snippet is plain (not empty, without brackets) and occurs in the
    content, and no occurrence of a snippet ends strictly inside an
    occurrence of the snippet of a later comment, every comment gets its
    marker: the result is the content with the markers [1], [2], ... put
    one after the other, each right after an occurrence of its snippet in
    the text as it stands, and the text grows by the length of all the
    markers. *)
Theorem separate_snippets_all_get_markers (anchors : string → list nat)
    (content html : string) (comments : list comment) :
  length comments ≤ length (anchors html) →
  (∀ c, c ∈ comments → plain (snippet c) = true ∧ str_in (snippet c) content = true) →
  compatible content (map snippet comments) = true →
  marked 1 (map snippet comments) content
    (DocsConverters.add_comment_markers_to_markdown anchors content html comments)
  ∧ String.length (DocsConverters.add_comment_markers_to_markdown anchors content html comments)
    = String.length content + markers_length 1 (length comments).
Proof.
  intros Hlen Hall Hc.
  rewrite markers_mark_all; [| done |].
  - pose proof (mark_all_marked (map snippet comments) 1 (unmarked content)
                  (bracketed_unmarked content)) as H.
    rewrite orig_unmarked, render_unmarked, length_map in H. apply H; [| done].
    apply Forall_forall. intros s Hs. apply list_elem_of_fmap in Hs as (c & -> & Hin).
    destruct (Hall c Hin) as [Hp Hi]. repeat split; try done. apply untouched_unmarked.
  - apply Forall_forall. intros c Hin. destruct (Hall c Hin) as [Hp _].
    intros Heq. rewrite Heq in Hp. discriminate Hp.
Qed.

Lemma separate_snippets_all_get_markers_witness :
  String.length
    (DocsConverters.add_comment_markers_to_markdown (fun _ => [1; 2]) "foo bar baz" ""
       [comment_on "bar"; comment_on "foo"])
  = String.length "foo bar baz" + markers_length 1 2.
Proof.
  apply (separate_snippets_all_get_markers (fun _ => [1; 2]) "foo bar baz" ""
           [comment_on "bar"; comment_on "foo"]).
  - simpl. lia.
  - intros c Hc. apply elem_of_cons in Hc as [-> | Hc]; [by vm_compute |].
    apply list_elem_of_singleton in Hc as ->. by vm_compute.
  - reflexivity.
Defined.

(** The markers come in the order of the comments, each at its snippet. *)
Example separate_snippets_example :
  DocsConverters.add_comment_markers_to_markdown (fun _ => [1; 2]) "foo bar baz" ""
    [comment_on "bar"; comment_on "foo"]
  = "foo[2] bar[1] baz".
Proof. reflexivity. Qed.
